(** * dedup: a shallow embedding of [dedup.py] and its checked properties

    The development follows the layout of [dedup.py]:
    - [PyStr]: the string operations the program relies on
      ([str.rfind], slices, [str.lower], the substring test [in]) and
      [os.path.splitext], on which [get_extension] is built;
    - [Model]: the run-time state (file system, terminal input, the [File]
      table of the in-memory database, the [DedupStats] dictionary), a
      state-and-exception monad, and the functions of [dedup.py] in the
      order of the source;
    - the theorems about them.

    Modelling boundaries.  Paths are absolute and normalised: a path is the
    list of its components below the file-system root, so [Path.parent] is
    [removelast] and the root is its own parent.  The file system has
    regular files and directories and no links; on such a file system
    [Path.samefile] is equality of existing paths and [islink] is false.
    The [verbose] flag only prints progress lines and is left out. *)

From Stdlib Require Import ZArith Ascii String Strings.Byte.
From stdpp Require Import gmap strings list.

Local Open Scope string_scope.
Local Open Scope list_scope.

(** ** Python strings *)
Module PyStr.

(** [s.rfind(c)] for a one-character [c]: the highest index, or [-1]. *)
Fixpoint rfind_from (c : ascii) (s : string) (i last : Z) : Z :=
  match s with
  | EmptyString => last
  | String a s' =>
      rfind_from c s' (i + 1)%Z (if Ascii.eqb a c then i else last)
  end.

Definition rfind (c : ascii) (s : string) : Z := rfind_from c s 0%Z (-1)%Z.

(** [s[:i]] and [s[i:]] for [0 <= i]. *)
Definition slice_to (s : string) (i : Z) : string :=
  substring 0 (Z.to_nat i) s.

Definition slice_from (s : string) (i : Z) : string :=
  substring (Z.to_nat i) (String.length s - Z.to_nat i) s.

(** [s[i:i+1]]: the character at [i] as a string, empty out of range. *)
Definition slice1 (s : string) (i : Z) : string :=
  substring (Z.to_nat i) 1 s.

Definition lower_ascii (a : ascii) : ascii :=
  let n := nat_of_ascii a in
  if (65 <=? n)%nat && (n <=? 90)%nat then ascii_of_nat (n + 32) else a.

(** [s[0].lower()], for a non-empty [s]. *)
Definition first_lower (s : string) : string :=
  match s with
  | EmptyString => EmptyString
  | String a _ => String (lower_ascii a) EmptyString
  end.

(** [a in s] on strings: [a] occurs in [s] as a substring. *)
Definition str_in (a s : string) : bool :=
  match String.index 0 a s with
  | Some _ => true
  | None => false
  end.

(** [genericpath._splitext(p, sep, None, extsep)]: the loop skips the
    leading dots of the last component. *)
Fixpoint splitext_loop (p : string) (dotIndex filenameIndex : Z) (n : nat)
  : string * string :=
  match n with
  | O => (p, slice_to p 0)
  | S n' =>
      if negb (String.eqb (slice1 p filenameIndex) ".")
      then (slice_to p dotIndex, slice_from p dotIndex)
      else splitext_loop p dotIndex (filenameIndex + 1)%Z n'
  end.

Definition splitext (p : string) : string * string :=
  let sepIndex := rfind "/"%char p in
  let dotIndex := rfind "."%char p in
  if (sepIndex <? dotIndex)%Z
  then splitext_loop p dotIndex (sepIndex + 1)%Z
         (Z.to_nat (dotIndex - (sepIndex + 1)))
  else (p, slice_to p 0).

End PyStr.

(** ** [get_extension]

    [None] is the [IndexError] of [base[0]] on the empty name. *)
Definition get_extension (file : string) : option string :=
  let '(base, ext) := PyStr.splitext file in
  if String.eqb ext EmptyString
  then match base with
       | EmptyString => None
       | String c _ => Some (if Ascii.eqb c "."%char then base else ext)
       end
  else Some ext.

(** The extension in the words of the specification and of the docstring
    of [get_extension]: all characters from the rightmost dot to the end of
    the name, the empty string when the name has no dot. *)
Definition spec_extension (file : string) : string :=
  let dotIndex := PyStr.rfind "."%char file in
  if (dotIndex <? 0)%Z then EmptyString else PyStr.slice_from file dotIndex.

(** ** Run-time state *)

Abbreviation path := (list string).

(** [Path.parent]; the root is its own parent. *)
Definition parent (p : path) : path := removelast p.

(** [os.path.join(root, file)] for a plain name [file]. *)
Definition join (root : path) (file : string) : path := root ++ [file].

Inductive node :=
  | FileNode (content : list byte)
  | DirNode.

(** A row of the [files] table. *)
Record File := mkFile {
  id : nat;
  full_path : path;
  extension : string;
  size : Z
}.

Record DirStats := mkDirStats {
  directory : option path;
  is_target_dir : bool;
  dup_file_count : Z;
  dup_file_size : Z;
  total_file_count : Z;
  total_file_size : Z;
  total_dir_count : Z;
  empty_dir_count : Z
}.

(** [DirStats()] *)
Definition new_DirStats : DirStats := mkDirStats None false 0 0 0 0 0 0.

(** What a run does to the outside, in the order it happens: the calls of
    [remove_with_confirm], its prompts and usage hints, and the byte
    comparisons of [filecmp.cmp]. *)
Inductive event :=
  | Gate (file_or_dir : path)
  | Prompt (file_or_dir : path) (is_dir : bool)
  | Hint
  | Cmp (f1 f2 : path).

Record state := mkState {
  fs : gmap path node;            (* the file system *)
  stdin : list string;            (* the lines [input] will return *)
  session : list File;            (* the [files] table, in rowid order *)
  dir_stats : gmap path DirStats; (* [stats.dir_stats] *)
  trace : list event
}.

Definition set_fs (f : gmap path node → gmap path node) (st : state) : state :=
  mkState (f (fs st)) (stdin st) (session st) (dir_stats st) (trace st).
Definition set_stdin (l : list string) (st : state) : state :=
  mkState (fs st) l (session st) (dir_stats st) (trace st).
Definition set_session (f : list File → list File) (st : state) : state :=
  mkState (fs st) (stdin st) (f (session st)) (dir_stats st) (trace st).
Definition set_dir_stats (f : gmap path DirStats → gmap path DirStats)
    (st : state) : state :=
  mkState (fs st) (stdin st) (session st) (f (dir_stats st)) (trace st).
Definition add_event (e : event) (st : state) : state :=
  mkState (fs st) (stdin st) (session st) (dir_stats st) (trace st ++ [e]).

(** ** Exceptions and the monad of the program *)

Inductive errno := ENOENT | ENOTDIR | EISDIR | ENOTEMPTY.

(** [OutOfFuel] is not a Python exception: it marks a traversal cut off by
    its depth bound, and is shown not to happen ([main_shrinks]). *)
Inductive exn :=
  | OSError (e : errno)
  | SystemExit (code : Z)
  | EOFError
  | IndexError
  | RuntimeError
  | OutOfFuel.

Inductive res (A : Type) :=
  | Ok (a : A)
  | Raise (e : exn).
Arguments Ok {A} a.
Arguments Raise {A} e.

(** A computation returns or raises, and leaves a state either way. *)
Definition M (A : Type) : Type := state → res A * state.

Definition ret {A} (a : A) : M A := λ st, (Ok a, st).

Definition bind {A B} (m : M A) (f : A → M B) : M B :=
  λ st, match m st with
        | (Ok a, st') => f a st'
        | (Raise e, st') => (Raise e, st')
        end.

Declare Scope M_scope.
Delimit Scope M_scope with M.
Notation "x <- m ;; k" := (bind m (λ x, k))
  (at level 100, m at next level, k at level 200, right associativity)
  : M_scope.
Notation "m ;; k" := (bind m (λ _, k))
  (at level 100, k at level 200, right associativity) : M_scope.
Open Scope M_scope.

Definition raise {A} (e : exn) : M A := λ st, (Raise e, st).
Definition gets {A} (f : state → A) : M A := λ st, (Ok (f st), st).
Definition modify (f : state → state) : M unit := λ st, (Ok tt, f st).
Definition emit (e : event) : M unit := modify (add_event e).

(** [try: m  except OSError as e: if e.errno != errno.ENOTEMPTY: raise] *)
Definition ignore_ENOTEMPTY (m : M unit) : M unit :=
  λ st, match m st with
        | (Raise (OSError ENOTEMPTY), st') => (Ok tt, st')
        | r => r
        end.

(** ** The file system *)

Definition is_child_of (top : path) (p : path) : bool :=
  bool_decide (p ≠ [] ∧ parent p = top).

(** The entries of directory [top], as [(name, node)]. *)
Definition children (m : gmap path node) (top : path) : list (string * node) :=
  omap (λ '(p, n), if is_child_of top p
                   then (λ name, (name, n)) <$> last p else None)
       (map_to_list m).

Definition is_dir_node (n : node) : bool :=
  match n with DirNode => true | FileNode _ => false end.

(** [os.scandir(top)] split as [os.walk] does: [None] is the [OSError]
    that [os.walk] ignores. *)
Definition scandir (m : gmap path node) (top : path)
  : option (list string * list string) :=
  match m !! top with
  | Some DirNode =>
      let es := children m top in
      Some ((filter (λ e, is_dir_node e.2 = true) es).*1,
            (filter (λ e, is_dir_node e.2 = false) es).*1)
  | _ => None
  end.

(** [Path.exists], [Path.is_dir] *)
Definition path_exists (p : path) : M bool :=
  gets (λ st, bool_decide (is_Some (fs st !! p))).

Definition path_is_dir (p : path) : M bool :=
  gets (λ st, match fs st !! p with Some DirNode => true | _ => false end).

(** The size [os.stat] reports for a directory depends on the file system;
    the walker asks for the size of listed non-directories only. *)
Definition dir_st_size : Z := 4096.

Definition os_path_getsize (p : path) : M Z :=
  n <- gets (λ st, fs st !! p) ;;
  match n with
  | Some (FileNode c) => ret (Z.of_nat (length c))
  | Some DirNode => ret dir_st_size
  | None => raise (OSError ENOENT)
  end.

Definition os_remove (p : path) : M unit :=
  n <- gets (λ st, fs st !! p) ;;
  match n with
  | Some (FileNode _) => modify (set_fs (delete p))
  | Some DirNode => raise (OSError EISDIR)
  | None => raise (OSError ENOENT)
  end.

Definition os_rmdir (p : path) : M unit :=
  m <- gets fs ;;
  match m !! p with
  | Some DirNode =>
      match children m p with
      | [] => modify (set_fs (delete p))
      | _ :: _ => raise (OSError ENOTEMPTY)
      end
  | Some (FileNode _) => raise (OSError ENOTDIR)
  | None => raise (OSError ENOENT)
  end.

#[global] Instance byte_eq_dec : EqDecision byte := Byte.byte_eq_dec.

(** [filecmp.cmp(f1, f2, shallow=False)]: both files are stat'ed, anything
    that is not a regular file compares unequal, sizes are compared, then
    the bytes. *)
Definition filecmp_cmp (f1 f2 : path) : M bool :=
  emit (Cmp f1 f2) ;;
  m <- gets fs ;;
  match m !! f1, m !! f2 with
  | Some n1, Some n2 =>
      match n1, n2 with
      | FileNode c1, FileNode c2 =>
          if bool_decide (length c1 = length c2)
          then ret (bool_decide (c1 = c2))
          else ret false
      | _, _ => ret false
      end
  | _, _ => raise (OSError ENOENT)
  end.

(** ** The [files] table and the statistics dictionary *)

(** [session.query(File).filter(File.size == size)
       .filter(File.extension == extension)], in rowid order. *)
Definition session_query (sz : Z) (ext : string) : M (list File) :=
  gets (λ st, filter (λ f, size f = sz ∧ extension f = ext) (session st)).

(** SQLite gives a new row the largest rowid plus one. *)
Definition next_id (rows : list File) : nat := S (max_list (id <$> rows)).

(** [session.add(File(full_path, extension, size)); session.commit()] *)
Definition session_add (p : path) (ext : string) (sz : Z) : M unit :=
  modify (set_session (λ rows, rows ++ [mkFile (next_id rows) p ext sz])).

(** [session.delete(target_file); session.commit()]: by primary key. *)
Definition session_delete (target_file : File) : M unit :=
  modify (set_session (filter (λ r, id r ≠ id target_file))).

(** [stats.dir_stats[d]] on the [defaultdict]: a missing key is created. *)
Definition dir_stats_item (d : path) : M unit :=
  modify (set_dir_stats (λ m, match m !! d with
                              | Some _ => m
                              | None => <[d := new_DirStats]> m
                              end)).

(** An assignment to fields of the object stored under key [d]. *)
Definition update_DirStats (d : path) (f : DirStats → DirStats) : M unit :=
  modify (set_dir_stats (alter f d)).

Definition mark_root (is_target : bool) (d : path) (s : DirStats) : DirStats :=
  mkDirStats (Some d) is_target (dup_file_count s) (dup_file_size s)
    (total_file_count s) (total_file_size s) (total_dir_count s)
    (empty_dir_count s).
Definition count_dup (sz : Z) (s : DirStats) : DirStats :=
  mkDirStats (directory s) (is_target_dir s) (dup_file_count s + 1)
    (dup_file_size s + sz) (total_file_count s) (total_file_size s)
    (total_dir_count s) (empty_dir_count s).
Definition count_file (sz : Z) (s : DirStats) : DirStats :=
  mkDirStats (directory s) (is_target_dir s) (dup_file_count s)
    (dup_file_size s) (total_file_count s + 1) (total_file_size s + sz)
    (total_dir_count s) (empty_dir_count s).
Definition count_dir (s : DirStats) : DirStats :=
  mkDirStats (directory s) (is_target_dir s) (dup_file_count s)
    (dup_file_size s) (total_file_count s) (total_file_size s)
    (total_dir_count s + 1) (empty_dir_count s).
Definition count_empty_dir (s : DirStats) : DirStats :=
  mkDirStats (directory s) (is_target_dir s) (dup_file_count s)
    (dup_file_size s) (total_file_count s) (total_file_size s)
    (total_dir_count s) (empty_dir_count s + 1).

(** ** [remove_with_confirm] *)

(** The [while answer is None] loop, by recursion on the lines still to be
    read; it returns [(answer, skip)].  Reading past the last line is the
    [EOFError] of [input]. *)
Fixpoint prompt_loop (is_dir : bool) (file_or_dir : path)
    (lines : list string) : M (string * option path) :=
  emit (Prompt file_or_dir is_dir) ;;
  match lines with
  | [] => raise EOFError
  | line :: rest =>
      modify (set_stdin rest) ;;
      let answer :=
        if negb (String.eqb line EmptyString) then PyStr.first_lower line else line in
      if negb is_dir && String.eqb answer "s"
      then ret (answer, Some (parent file_or_dir))
      else if String.eqb answer "q" then raise (SystemExit 0)
      else if negb (PyStr.str_in answer "yn")
      then emit Hint ;; prompt_loop is_dir file_or_dir rest
      else ret (answer, None)
  end.

Definition remove_with_confirm (file_or_dir : path) (get_confirm : bool)
  : M (option path) :=
  emit (Gate file_or_dir) ;;
  is_dir <- path_is_dir file_or_dir ;;
  r <- (if get_confirm
        then lines <- gets stdin ;;
             r <- prompt_loop is_dir file_or_dir lines ;;
             ret (Some r.1, r.2)
        else ret (None, None)) ;;
  let '(answer, skip) := r in
  (if negb get_confirm || bool_decide (answer = Some "y")
   then if is_dir then os_rmdir file_or_dir else os_remove file_or_dir
   else ret tt) ;;
  ret skip.

(** ** [os.walk]

    Top-down and lazy, as the generator is: a directory is listed when the
    walk reaches it, in the file system as it is then, and [body] runs
    between the listing of a directory and the descent into its
    subdirectories.  [acc] carries the local variables of the caller's
    loop from one iteration to the next.  [fuel] bounds the depth of the
    descent. *)
Fixpoint os_walk {A} (fuel : nat) (top : path)
    (body : path → list string → list string → A → M A) (acc : A) : M A :=
  ls <- gets (λ st, scandir (fs st) top) ;;
  match ls with
  | None => ret acc
  | Some (dirs, files) =>
      match fuel with
      | O => raise OutOfFuel
      | S fuel' =>
          acc <- body top dirs files acc ;;
          (fix descend (ds : list string) (acc : A) : M A :=
             match ds with
             | [] => ret acc
             | dirname :: ds' =>
                 acc <- os_walk fuel' (join top dirname) body acc ;;
                 descend ds' acc
             end) dirs acc
      end
  end.

(** The length of the longest path of the file system. *)
Definition fs_depth (m : gmap path node) : nat :=
  max_list (length <$> (map_to_list m).*1).

(** [for root, dirs, files in os.walk(d): body] *)
Definition for_os_walk {A} (d : path)
    (body : path → list string → list string → A → M A) (acc : A) : M A :=
  fuel <- gets (λ st, S (fs_depth (fs st))) ;;
  os_walk fuel d body acc.

(** [for x in l: body], with the locals of the loop in [acc]. *)
Fixpoint for_each {A B} (l : list B) (body : B → A → M A) (acc : A) : M A :=
  match l with
  | [] => ret acc
  | x :: l' => acc <- body x acc ;; for_each l' body acc
  end.

(** ** [remove_empty_directories] *)

(** The body of the first pass; [dir_stack] grows at its end. *)
Definition prune_visit (d : path) (confirm : bool) (root : path)
    (dirs files : list string) (dir_stack : list (path * path))
  : M (list (path * path)) :=
  if bool_decide (files = [] ∧ dirs = [])
  then update_DirStats d count_empty_dir ;;
       remove_with_confirm root confirm ;;
       ret dir_stack
  else if bool_decide (files = [])
  then ret (dir_stack ++ [(root, d)])
  else ret dir_stack.

(** [while dir_stack: ...], on the stack with its top first
    ([dir_stack.pop()] takes the last element of the Python list). *)
Fixpoint retry_loop (confirm : bool) (top_first : list (path * path))
  : M unit :=
  match top_first with
  | [] => ret tt
  | (empty_dir, target_dir) :: rest =>
      ignore_ENOTEMPTY
        (remove_with_confirm empty_dir confirm ;;
         dir_stats_item target_dir ;;
         update_DirStats target_dir count_empty_dir) ;;
      retry_loop confirm rest
  end.

Definition remove_empty_directories (target_dirs : list path)
    (confirm : bool) : M unit :=
  dir_stack <- for_each target_dirs
    (λ d dir_stack,
       dir_stats_item d ;;
       for_os_walk d (prune_visit d confirm) dir_stack) [] ;;
  retry_loop confirm (rev dir_stack).

(** ** [is_same_or_subdir] *)

(** [Path(p).resolve(strict=True)]: the path itself when it exists. *)
Definition resolve_strict (p : path) : M path :=
  e <- path_exists p ;;
  if e then ret p else raise (OSError ENOENT).

(** [p.samefile(q)]: both are stat'ed; without links, the same file is the
    same path. *)
Definition samefile (p q : path) : M bool :=
  e1 <- path_exists p ;;
  e2 <- path_exists q ;;
  if e1 && e2 then ret (bool_decide (p = q)) else raise (OSError ENOENT).

(** [while len(child_path.parts) > 1]: one round per component. *)
Fixpoint ancestors_loop (n : nat) (child_path parent_path : path) : M bool :=
  match n with
  | O => ret false
  | S n' =>
      let child_path := removelast child_path in
      same <- samefile child_path parent_path ;;
      if same then ret true else ancestors_loop n' child_path parent_path
  end.

Definition is_same_or_subdir (maybe_child maybe_parent : path) : M bool :=
  child_path <- resolve_strict maybe_child ;;
  parent_path <- resolve_strict maybe_parent ;;
  same <- samefile child_path parent_path ;;
  if same then ret true
  else ancestors_loop (length child_path) child_path parent_path.

(** ** [walk_dirs] *)

(** The inner function [target_file_dir]; [n] bounds the climb by the
    number of components of the path. *)
Fixpoint target_file_dir_loop (n : nat) (tfp : path) : M path :=
  known <- gets (λ st, bool_decide (is_Some (dir_stats st !! tfp))) ;;
  if known then ret tfp
  else
    let new_tfp := parent tfp in
    if bool_decide (tfp = new_tfp) then raise RuntimeError
    else match n with
         | O => raise OutOfFuel
         | S n' => target_file_dir_loop n' new_tfp
         end.

Definition target_file_dir (target : File) : M path :=
  let tfp := parent (full_path target) in
  target_file_dir_loop (length tfp) tfp.

(** The branch taken [if is_dup]; it returns the new value of [skip]. *)
Definition on_duplicate (d : path) (confirm walking_target_dirs : bool)
    (cur_file_full_path : path) (cur_file_size : Z) (target_file : File)
  : M (option path) :=
  if walking_target_dirs
  then update_DirStats d (count_dup cur_file_size) ;;
       remove_with_confirm cur_file_full_path confirm
  else owner <- target_file_dir target_file ;;
       dir_stats_item owner ;;
       update_DirStats owner (count_dup cur_file_size) ;;
       skip <- remove_with_confirm (full_path target_file) confirm ;;
       session_delete target_file ;;
       ret skip.

(** [for target_file in rows: ...], returning [(is_dup, skip)]. *)
Fixpoint rows_loop (on_dup : File → M (option path))
    (cur_file_full_path : path) (rows : list File) (skip : option path)
  : M (bool * option path) :=
  match rows with
  | [] => ret (false, skip)
  | target_file :: rest =>
      is_dup <- filecmp_cmp cur_file_full_path (full_path target_file) ;;
      if is_dup
      then skip <- on_dup target_file ;; ret (true, skip)
      else rows_loop on_dup cur_file_full_path rest skip
  end.

(** One round of [for file in files], up to the test of [skip]. *)
Definition examine_file (d : path) (confirm walking_target_dirs : bool)
    (root : path) (file : string) (skip : option path) : M (option path) :=
  cur_file_extension <- match get_extension file with
                        | Some ext => ret ext
                        | None => raise IndexError
                        end ;;
  let cur_file_full_path := join root file in
  cur_file_size <- os_path_getsize cur_file_full_path ;;
  update_DirStats d (count_file cur_file_size) ;;
  rows <- session_query cur_file_size cur_file_extension ;;
  r <- rows_loop
         (on_duplicate d confirm walking_target_dirs cur_file_full_path
            cur_file_size)
         cur_file_full_path rows skip ;;
  let '(is_dup, skip) := r in
  (if walking_target_dirs && negb is_dup
   then session_add cur_file_full_path cur_file_extension cur_file_size
   else ret tt) ;;
  ret skip.

Fixpoint files_loop (d : path) (confirm walking_target_dirs : bool)
    (root : path) (files : list string) (skip : option path)
  : M (option path) :=
  match files with
  | [] => ret skip
  | file :: rest =>
      skip <- examine_file d confirm walking_target_dirs root file skip ;;
      match skip with
      | Some _ => ret skip
      | None => files_loop d confirm walking_target_dirs root rest skip
      end
  end.

(** The body of [for root, dirs, files in os.walk(d)]; [skip] is the local
    it carries over.  [os.name == 'nt' and islink(root)] is false here. *)
Definition walk_visit (d : path) (confirm walking_target_dirs : bool)
    (root : path) (dirs files : list string) (skip : option path)
  : M (option path) :=
  still_skipping <- match skip with
                    | Some skip_dir => is_same_or_subdir root skip_dir
                    | None => ret false
                    end ;;
  if still_skipping then ret skip
  else update_DirStats d count_dir ;;
       files_loop d confirm walking_target_dirs root files None.

Definition walk_dirs (dirs_to_walk : list path)
    (confirm walking_target_dirs : bool) : M unit :=
  for_each dirs_to_walk
    (λ d _,
       dir_stats_item d ;;
       update_DirStats d (mark_root walking_target_dirs d) ;;
       for_os_walk d (walk_visit d confirm walking_target_dirs) None ;;
       ret tt) tt.

(** ** [deduplicate] *)
Definition deduplicate (target_dirs read_only_dirs : list path)
    (remove_empty_dirs confirm : bool) : M unit :=
  walk_dirs target_dirs confirm true ;;
  walk_dirs read_only_dirs confirm false ;;
  if remove_empty_dirs
  then remove_empty_directories target_dirs confirm
  else ret tt.

(** ** [check_dir_args] *)

(** [itertools.permutations(l, 2)]: the ordered pairs of elements at two
    different positions. *)
Definition permutations2 {A} (l : list A) : list (A * A) :=
  flat_map (λ ix, omap (λ jy, if bool_decide (ix.1 = jy.1)
                               then None else Some (ix.2, jy.2))
                       (imap pair l))
           (imap pair l).

Definition exit_if_subdir (pr : path * path) : M unit :=
  sub <- is_same_or_subdir pr.1 pr.2 ;;
  if sub then raise (SystemExit 1) else ret tt.

Definition check_dir_args (target_dirs readonly_dirs : list path) : M unit :=
  for_each (target_dirs ++ readonly_dirs)
    (λ d _,
       e <- path_exists d ;;
       if negb e then raise (SystemExit 1)
       else (* [p.is_symlink()] is false: the file system has no links *)
         is_d <- path_is_dir d ;;
         if negb is_d then raise (SystemExit 1) else ret tt) tt ;;
  for_each (permutations2 target_dirs) (λ pr _, exit_if_subdir pr) tt ;;
  for_each target_dirs
    (λ td _, for_each readonly_dirs (λ ro _, exit_if_subdir (td, ro)) tt) tt.

(** ** [main] *)

(** The namespace [parse_command_line] returns, without the flags that
    only print. *)
Record Namespace := mkNamespace {
  target : list path;
  yes : bool;
  read_only : list path;
  remove_empty_dirs : bool
}.

Definition main (args : Namespace) : M unit :=
  check_dir_args (target args) (read_only args) ;;
  deduplicate (target args) (read_only args) (remove_empty_dirs args)
    (negb (yes args)).

(** The state [main] starts in: [create_database()] and [DedupStats()] are
    empty. *)
Definition start (files : gmap path node) (lines : list string) : state :=
  mkState files lines [] ∅ [].

(** * Vocabulary of the properties *)

(** ** Traces *)

(** The state after the events [es]. *)
Definition log (es : list event) (st : state) : state :=
  mkState (fs st) (stdin st) (session st) (dir_stats st) (trace st ++ es).

(** The comparisons of [cur] against the rows [l], in order. *)
Definition compared (cur : path) (l : list File) : list event :=
  (λ t, Cmp cur (full_path t)) <$> l.

(** The paths handed to [remove_with_confirm], in order. *)
Definition gates (es : list event) : list path :=
  omap (λ e, match e with Gate p => Some p | _ => None end) es.

(** ** Comparisons and buckets *)

(** [f1] and [f2] are regular files with the same bytes. *)
Definition same_bytes (m : gmap path node) (f1 f2 : path) : Prop :=
  ∃ c, m !! f1 = Some (FileNode c) ∧ m !! f2 = Some (FileNode c).

(** [f1] and [f2] exist and are not regular files with the same bytes. *)
Definition differ (m : gmap path node) (f1 f2 : path) : Prop :=
  is_Some (m !! f1) ∧ is_Some (m !! f2) ∧ ¬ same_bytes m f1 f2.

(** The rows of the table with a given size and extension. *)
Definition bucket (sz : Z) (ext : string) (rows : list File) : list File :=
  filter (λ f, size f = sz ∧ extension f = ext) rows.

(** [examine_file] on [root/file] finds the row [e]: the file is a regular
    file of size [sz], [e] is in its bucket and has the same bytes, and
    the rows of the bucket before [e] differ from the file. *)
Definition detects (st : state) (root : path) (file : string) (sz : Z)
    (e : File) : Prop :=
  ∃ ext c pre post,
    get_extension file = Some ext ∧
    fs st !! join root file = Some (FileNode c) ∧
    sz = Z.of_nat (length c) ∧
    bucket sz ext (session st) = pre ++ e :: post ∧
    Forall (λ t, differ (fs st) (join root file) (full_path t)) pre ∧
    same_bytes (fs st) (join root file) (full_path e).

(** The state in which the branch [if is_dup] starts. *)
Definition at_duplicate (d : path) (sz : Z) (es : list event) (st : state)
  : state :=
  log es (set_dir_stats (alter (count_file sz) d) st).

(** ** The table *)

(** Uniqueness by content alone: no two rows of the table name files that
    are on disk with the same bytes. *)
Definition unique_content (st : state) : Prop :=
  ∀ i j e1 e2 c,
    session st !! i = Some e1 → session st !! j = Some e2 → i ≠ j →
    fs st !! full_path e1 = Some (FileNode c) →
    fs st !! full_path e2 = Some (FileNode c) → False.

(** Uniqueness within an extension: two rows whose files are on disk with
    the same bytes differ in their extension. *)
Definition unique_ext_content (st : state) : Prop :=
  ∀ i j e1 e2 c,
    session st !! i = Some e1 → session st !! j = Some e2 → i ≠ j →
    fs st !! full_path e1 = Some (FileNode c) →
    fs st !! full_path e2 = Some (FileNode c) →
    extension e1 ≠ extension e2.

(** [R] holds between every element of [l] and every later one. *)
Fixpoint pairwise {A} (R : A → A → Prop) (l : list A) : Prop :=
  match l with
  | [] => True
  | x :: l' => Forall (R x) l' ∧ pairwise R l'
  end.

(** Two rows whose files are on disk with the same bytes differ in their
    extension. *)
Definition told_apart (m : gmap path node) (e1 e2 : File) : Prop :=
  ∀ c, m !! full_path e1 = Some (FileNode c) →
       m !! full_path e2 = Some (FileNode c) →
       extension e1 ≠ extension e2.

(** The row records the size of its file, as long as the file is there. *)
Definition size_recorded (m : gmap path node) (e : File) : Prop :=
  ∀ c, m !! full_path e = Some (FileNode c) → size e = Z.of_nat (length c).

(** The row records the extension of the name of its file. *)
Definition extension_recorded (e : File) : Prop :=
  ∃ root file, full_path e = join root file ∧
               get_extension file = Some (extension e).

(** The table is in good order with respect to the file system. *)
Definition catalog_ok (st : state) : Prop :=
  Forall (size_recorded (fs st)) (session st) ∧
  Forall extension_recorded (session st) ∧
  pairwise (told_apart (fs st)) (session st).

(** No row of the table has the path [p]: a lookup cannot return it. *)
Definition untracked (p : path) (st : state) : Prop :=
  ∀ r, r ∈ session st → full_path r ≠ p.

(** ** Frame conditions *)

(** [respects R G m]: from every state, [m] ends in a state related by [R]
    to the one it started in, whether it returns or raises, and raises
    only exceptions in [G]. *)
Definition respects (R : relation state) (G : exn → Prop) {A} (m : M A)
  : Prop :=
  ∀ st, R st (m st).2 ∧ ∀ e, (m st).1 = Raise e → G e.

(** The exceptions of Python. *)
Definition python_exn (e : exn) : Prop := e ≠ OutOfFuel.

(** No restriction on the exceptions. *)
Definition any_exn (e : exn) : Prop := True.

(** Nothing is created or changed in the file system. *)
Definition shrinks : relation state := λ st st', fs st' ⊆ fs st.

(** A path without a row stays without one. *)
Definition stays_untracked (p : path) : relation state :=
  λ st st', untracked p st → untracked p st'.

(** A table in good order stays so. *)
Definition keeps_catalog : relation state :=
  λ st st', catalog_ok st → catalog_ok st'.

(** ** Sample file systems, rows and states *)

(** A regular file holding the bytes of [s]. *)
Definition text (s : string) : node := FileNode (list_byte_of_string s).

(** [/a/b] holds two identical files; [/a/z] is unique. *)
Definition fs_nested : gmap path node :=
  list_to_map
    [([], DirNode); (["a"], DirNode); (["a"; "b"], DirNode);
     (["a"; "b"; "x"], text "one"); (["a"; "b"; "y"], text "one");
     (["a"; "z"], text "zed")].

(** The directory [/a/b] inside [/a] holds one file, of which there is no
    other copy. *)
Definition fs_ro_inside_target : gmap path node :=
  list_to_map
    [([], DirNode); (["a"], DirNode); (["a"; "b"], DirNode);
     (["a"; "b"; "u"], text "only copy"); (["a"; "z"], text "something")].

(** A read-only tree with a subdirectory, and a target holding a copy of
    each of its files. *)
Definition fs_ro_sub : gmap path node :=
  list_to_map
    [([], DirNode); (["ro"], DirNode); (["ro"; "sub"], DirNode);
     (["ro"; "r1"], text "first"); (["ro"; "sub"; "r2"], text "second!");
     (["t"], DirNode); (["t"; "t1"], text "first");
     (["t"; "t2"], text "second!")].

(** A target whose only entry is an empty directory. *)
Definition fs_empty_dir : gmap path node :=
  list_to_map [([], DirNode); (["t"], DirNode); (["t"; "d"], DirNode)].

(** Two files of one content under different extensions. *)
Definition fs_two_ext : gmap path node :=
  list_to_map
    [([], DirNode); (["t"], DirNode);
     (["t"; "a.txt"], text "same"); (["t"; "a.bak"], text "same")].

(** States in the middle of a walk: rows for files of [fs_nested] and of
    [fs_ro_sub], and an answer waiting on the terminal. *)
Definition row_z : File := mkFile 1 ["a"; "z"] EmptyString 3.
Definition row_y : File := mkFile 2 ["a"; "b"; "y"] EmptyString 3.
Definition st_two_rows : state := mkState fs_nested [] [row_z; row_y] ∅ [].

Definition row_t1 : File := mkFile 1 ["t"; "t1"] EmptyString 5.
Definition row_t2 : File := mkFile 2 ["t"; "t2"] EmptyString 7.
Definition st_read_only_walk : state :=
  mkState fs_ro_sub ["n"] [row_t1; row_t2]
    {[ ["t"] := mark_root true ["t"] new_DirStats;
       ["ro"] := mark_root false ["ro"] new_DirStats ]} [].

Definition st_match : state :=
  mkState fs_nested ["n"] [row_z; row_y] {[ ["a"] := new_DirStats ]} [].

(** ** Vocabulary of the further properties *)

(** Every entry below the root lies in a directory. *)
Definition closed (m : gmap path node) : Prop :=
  ∀ p, p ≠ [] → is_Some (m !! p) → m !! parent p = Some DirNode.

(** [p] is one of [roots] or lies below one of them. *)
Definition under (roots : list path) (p : path) : Prop :=
  ∃ t, t ∈ roots ∧ t `prefix_of` p.

(** A prompt or a usage hint. *)
Definition is_question (e : event) : bool :=
  match e with
  | Prompt _ _ | Hint => true
  | Gate _ | Cmp _ _ => false
  end.

(** [q] is a regular file of [m] or has one somewhere below it. *)
Definition holds_file (m : gmap path node) (q : path) : Prop :=
  ∃ f c, m !! f = Some (FileNode c) ∧ q `prefix_of` f.

(** The prompts and usage hints among the events [es]. *)
Definition questions (es : list event) : list event :=
  filter (λ e, is_question e = true) es.

(** No condition on a returned value. *)
Definition any_value {A} : A → Prop := λ _, True.

(** [inv J V m]: from a state in [J], [m] ends in a state in [J], whether
    it returns or raises, and the value it returns is in [V]. *)
Definition inv (J : state → Prop) {A} (V : A → Prop) (m : M A) : Prop :=
  ∀ st, J st → J (m st).2 ∧ ∀ a, (m st).1 = Ok a → V a.

(** [closed], as a test that runs. *)
Definition closedb (m : gmap path node) : bool :=
  forallb (λ e, match e.1 with
                | [] => true
                | _ :: _ => match m !! parent e.1 with
                            | Some DirNode => true
                            | _ => false
                            end
                end)
          (map_to_list m).

(** The invariants of the further properties, each relative to the file
    system [m0] the run started in. *)

(** Rows and gate calls are for paths under [targets], and nothing outside
    [targets] differs from [m0]. *)
Definition within_targets (targets : list path) (m0 : gmap path node)
    (st : state) : Prop :=
  (∀ r, r ∈ session st → under targets (full_path r)) ∧
  (∀ p, ¬ under targets p → fs st !! p = m0 !! p) ∧
  Forall (under targets) (gates (trace st)).

(** Every directory of [m0] is still there, and no row names one. *)
Definition keeps_directories (m0 : gmap path node) (st : state) : Prop :=
  fs st ⊆ m0 ∧
  (∀ p, m0 !! p = Some DirNode → fs st !! p = Some DirNode) ∧
  (∀ r, r ∈ session st → m0 !! full_path r ≠ Some DirNode).

(** Every regular file of [m0] is still there. *)
Definition keeps_files (m0 : gmap path node) (st : state) : Prop :=
  fs st ⊆ m0 ∧
  (∀ p c, m0 !! p = Some (FileNode c) → fs st !! p = Some (FileNode c)).

(** No line has been read and nothing has been asked since the input was
    [lines] and the questions were [qs]. *)
Definition asked_nothing (lines : list string) (qs : list event)
    (st : state) : Prop :=
  stdin st = lines ∧ questions (trace st) = qs.

(** The statistics have entries for [roots] only. *)
Definition stats_for (roots : list path) (st : state) : Prop :=
  ∀ k, is_Some (dir_stats st !! k) → k ∈ roots.

(** What [check_dir_args] asks of the roots: each is a directory, no
    target root is, at another position of the list, a target root or
    below one, and no target root is a read-only root or below one. *)
Definition accepted (m : gmap path node) (target_dirs readonly_dirs : list path)
  : Prop :=
  Forall (λ d, m !! d = Some DirNode) (target_dirs ++ readonly_dirs) ∧
  Forall (λ pr : path * path, ¬ pr.2 `prefix_of` pr.1)
    (permutations2 target_dirs) ∧
  Forall (λ td, Forall (λ ro, ¬ ro `prefix_of` td) readonly_dirs) target_dirs.

(** Every byte content that a regular file of [m0] had is still the
    content of some regular file. *)
Definition content_kept (m0 : gmap path node) (st : state) : Prop :=
  ∀ p c, m0 !! p = Some (FileNode c) → ∃ q, fs st !! q = Some (FileNode c).

(** The paths of all rows of the table are in [A]. *)
Definition tracks (A : path → Prop) (st : state) : Prop :=
  ∀ r, r ∈ session st → A (full_path r).

(** [p] is an entry of one of the directories [D]. *)
Definition in_dirs (D : path → Prop) (p : path) : Prop :=
  ∃ root file, p = join root file ∧ D root.

(** From [st] to [st'] nothing is created in the file system and no row
    is taken from the table. *)
Definition grows (st st' : state) : Prop :=
  fs st' ⊆ fs st ∧ ∀ r, r ∈ session st → r ∈ session st'.

(** If [p] is a regular file, the table has a row for it. *)
Definition settled (p : path) (st : state) : Prop :=
  ∀ c, fs st !! p = Some (FileNode c) → ∃ r, r ∈ session st ∧ full_path r = p.

(** [p] lies below [top], at any depth. *)
Definition below (top p : path) : Prop := ∃ x k, p = top ++ x :: k.

(** The descent of [os.walk] into the subdirectories [ds] of [top], with
    [walk] the walk of one subtree. *)
Definition os_walk_descend {A} (walk : path → A → M A) (top : path)
  : list string → A → M A :=
  fix descend (ds : list string) (acc : A) : M A :=
    match ds with
    | [] => ret acc
    | dirname :: ds' =>
        acc <- walk (join top dirname) acc ;;
        descend ds' acc
    end.

(** Each directory at or below [top] is on the stack [new] or has a
    regular file among its entries. *)
Definition handled (new : list (path * path)) (st : state) (top : path)
  : Prop :=
  ∀ q, top `prefix_of` q → fs st !! q = Some DirNode →
       q ∈ new.*1 ∨ ∃ f c, fs st !! (q ++ [f]) = Some (FileNode c).

(** The directory of the later stack entry [e'] is not above that of the
    earlier entry [e]. *)
Definition not_above (e e' : path * path) : Prop := ¬ below e'.1 e.1.

(** * Properties *)

(** ** A program logic for frame conditions *)

Section Respects.
Context (R : relation state) (G : exn → Prop) `{!PreOrder R}.

Lemma respects_ret {A} (a : A) : respects R G (ret a).
Proof. intros st; split; [reflexivity | discriminate]. Qed.

Lemma respects_gets {A} (f : state → A) : respects R G (gets f).
Proof. intros st; split; [reflexivity | discriminate]. Qed.

Lemma respects_raise {A} (e : exn) : G e → respects R G (@raise A e).
Proof. intros He st; split; [reflexivity | simpl; congruence]. Qed.

Lemma respects_modify (f : state → state) :
  (∀ st, R st (f st)) → respects R G (modify f).
Proof. intros Hf st; split; [apply Hf | discriminate]. Qed.

Lemma respects_bind {A B} (m : M A) (f : A → M B) :
  respects R G m → (∀ a, respects R G (f a)) → respects R G (bind m f).
Proof.
  intros Hm Hf st. unfold bind.
  destruct (Hm st) as [HR HG]. destruct (m st) as [[a|e] st']; simpl in *.
  - destruct (Hf a st') as [HR' HG']. split; [by etrans | done].
  - split; [done | intros e' [= <-]; by apply HG].
Qed.

Lemma respects_ignore_ENOTEMPTY (m : M unit) :
  respects R G m → respects R G (ignore_ENOTEMPTY m).
Proof.
  intros Hm st. unfold ignore_ENOTEMPTY.
  destruct (Hm st) as [HR HG]. destruct (m st) as [[a|e] st']; simpl in *.
  - split; [done | discriminate].
  - destruct e as [[]| | | | |]; simpl; (split; [done|]);
      try discriminate; intros e' [= <-]; by apply HG.
Qed.

Lemma respects_for_each {A B} (l : list B) (body : B → A → M A) acc :
  (∀ x a, respects R G (body x a)) → respects R G (for_each l body acc).
Proof.
  intros Hb. revert acc.
  induction l as [|x l IH]; intros acc; simpl.
  - apply respects_ret.
  - apply respects_bind; [apply Hb | intros a; apply IH].
Qed.

Lemma respects_os_walk {A} fuel top
    (body : path → list string → list string → A → M A) acc :
  G OutOfFuel →
  (∀ root dirs files a, respects R G (body root dirs files a)) →
  respects R G (os_walk fuel top body acc).
Proof.
  intros HG Hb. revert top acc.
  induction fuel as [|fuel IH]; intros top acc; simpl;
    (apply respects_bind; [apply respects_gets|]);
    intros [[dirs files]|]; try apply respects_ret.
  - by apply respects_raise.
  - apply respects_bind; [apply Hb|]. intros a. revert a.
    induction dirs as [|dname dirs IHd]; intros a.
    + apply respects_ret.
    + apply respects_bind; [apply IH | intros a'; apply IHd].
Qed.

(** *** The functions of the program

    What [R] must allow: output, reading a line, the removal of a path,
    an update of the statistics, the deletion of a row. *)
Hypothesis G_python : ∀ e, e ≠ OutOfFuel → G e.
Hypothesis R_event : ∀ st e, R st (add_event e st).
Hypothesis R_stdin : ∀ st l, R st (set_stdin l st).
Hypothesis R_unlink : ∀ st p, R st (set_fs (delete p) st).
Hypothesis R_stats : ∀ st f, R st (set_dir_stats f st).
Hypothesis R_row_deleted :
  ∀ st t, R st (set_session (filter (λ r, id r ≠ id t)) st).

Ltac step :=
  first
    [ apply respects_ret
    | apply respects_gets
    | apply respects_raise; apply G_python; discriminate
    | apply respects_modify; intros;
      first [ apply R_event | apply R_stdin | apply R_unlink
            | apply R_stats | apply R_row_deleted ]
    | apply respects_bind; [| intros ] ].

Lemma respects_emit e : respects R G (emit e).
Proof. unfold emit. step. Qed.

Lemma respects_os_remove p : respects R G (os_remove p).
Proof. unfold os_remove. step; [step|]. destruct a as [[]|]; step. Qed.

Lemma respects_os_rmdir p : respects R G (os_rmdir p).
Proof.
  unfold os_rmdir. step; [step|].
  destruct (a !! p) as [[]|]; try step. destruct (children a p); step.
Qed.

Lemma respects_os_path_getsize p : respects R G (os_path_getsize p).
Proof. unfold os_path_getsize. step; [step|]. destruct a as [[]|]; step. Qed.

Lemma respects_filecmp_cmp f1 f2 : respects R G (filecmp_cmp f1 f2).
Proof.
  unfold filecmp_cmp. step; [apply respects_emit|]. step; [step|].
  destruct (a0 !! f1) as [[]|], (a0 !! f2) as [[]|]; try step.
  case_bool_decide; step.
Qed.

Lemma respects_prompt_loop is_dir p lines :
  respects R G (prompt_loop is_dir p lines).
Proof.
  induction lines as [|line rest IH]; simpl.
  - step; [apply respects_emit | step].
  - step; [apply respects_emit|]. step; [step|].
    repeat (match goal with |- respects R G (if ?b then _ else _) =>
              destruct b end); try step.
    + apply respects_emit.
    + apply IH.
Qed.

Lemma respects_remove_with_confirm p confirm :
  respects R G (remove_with_confirm p confirm).
Proof.
  unfold remove_with_confirm, path_is_dir.
  step; [apply respects_emit|]. step; [step|]. step.
  - destruct confirm; [|step]. step; [step|].
    step; [apply respects_prompt_loop | step].
  - destruct a1 as [answer skip]. step; [|step].
    destruct (_ || _); [|step].
    destruct a0; [apply respects_os_rmdir | apply respects_os_remove].
Qed.

Lemma respects_samefile p q : respects R G (samefile p q).
Proof.
  unfold samefile, path_exists. step; [step|]. step; [step|].
  destruct (_ && _); step.
Qed.

Lemma respects_is_same_or_subdir c p : respects R G (is_same_or_subdir c p).
Proof.
  unfold is_same_or_subdir, resolve_strict, path_exists.
  step; [step; [step|]; destruct a; step|].
  step; [step; [step|]; destruct a0; step|].
  step; [apply respects_samefile|]. destruct a1; [step|].
  generalize (length a). intros n. revert a.
  induction n as [|n IH]; intros a; simpl; [step|].
  step; [apply respects_samefile|]. destruct a1; [step | apply IH].
Qed.

Lemma respects_target_file_dir_loop n tfp :
  (length tfp ≤ n)%nat → respects R G (target_file_dir_loop n tfp).
Proof.
  revert tfp. induction n as [|n IH]; intros tfp Hn; simpl.
  - step; [step|]. destruct a; [step|].
    destruct tfp; [|simpl in Hn; lia]. simpl. step.
  - step; [step|]. destruct a; [step|]. case_bool_decide; [step|].
    apply IH. unfold parent. destruct tfp as [|x tfp] using rev_ind;
      [done|]. rewrite removelast_last. rewrite length_app in Hn.
    simpl in Hn. lia.
Qed.

Lemma respects_target_file_dir t : respects R G (target_file_dir t).
Proof. by apply respects_target_file_dir_loop. Qed.

Lemma respects_on_duplicate d confirm wt cur sz t :
  respects R G (on_duplicate d confirm wt cur sz t).
Proof.
  unfold on_duplicate, update_DirStats, dir_stats_item, session_delete.
  destruct wt.
  - step; [step | apply respects_remove_with_confirm].
  - step; [apply respects_target_file_dir|]. step; [step|].
    step; [step|]. step; [apply respects_remove_with_confirm|].
    step; step.
Qed.

Lemma respects_rows_loop on_dup cur rows skip :
  (∀ t, respects R G (on_dup t)) → respects R G (rows_loop on_dup cur rows skip).
Proof.
  intros Hd. induction rows as [|t rows IH]; simpl; [step|].
  step; [apply respects_filecmp_cmp|]. destruct a; [|apply IH].
  step; [apply Hd | step].
Qed.

(** *** The traversal

    The walk of a tree is taken as given here: it holds outright when
    [G] admits [OutOfFuel], and otherwise by the bound of
    [for_os_walk]. *)
Lemma respects_for_os_walk_cut {A} d
    (body : path → list string → list string → A → M A) acc :
  G OutOfFuel →
  (∀ root dirs files a, respects R G (body root dirs files a)) →
  respects R G (for_os_walk d body acc).
Proof.
  intros HG Hb. unfold for_os_walk. step; [step|].
  by apply respects_os_walk.
Qed.

Hypothesis R_walk :
  ∀ A d (body : path → list string → list string → A → M A) acc,
    (∀ root dirs files a, respects R G (body root dirs files a)) →
    respects R G (for_os_walk d body acc).

Lemma respects_prune_visit d confirm root dirs files stack :
  respects R G (prune_visit d confirm root dirs files stack).
Proof.
  unfold prune_visit, update_DirStats.
  case_bool_decide.
  - step; [step|]. step; [apply respects_remove_with_confirm | step].
  - case_bool_decide; step.
Qed.

Lemma respects_retry_loop confirm stack :
  respects R G (retry_loop confirm stack).
Proof.
  induction stack as [|[empty_dir target_dir] rest IH]; simpl; [step|].
  step; [|apply IH]. apply respects_ignore_ENOTEMPTY.
  unfold dir_stats_item, update_DirStats.
  step; [apply respects_remove_with_confirm|]. step; step.
Qed.

Lemma respects_remove_empty_directories target_dirs confirm :
  respects R G (remove_empty_directories target_dirs confirm).
Proof.
  unfold remove_empty_directories. step; [|apply respects_retry_loop].
  apply respects_for_each. intros d stack. unfold dir_stats_item.
  step; [step|]. apply R_walk. intros. apply respects_prune_visit.
Qed.

(** With the walk of read-only roots no row is added; with the walk of
    target roots [R] has to allow the new row. *)
Lemma respects_examine_file d confirm wt root file skip :
  (wt = true → ∀ st p ext sz,
     R st (set_session (λ rows, rows ++ [mkFile (next_id rows) p ext sz])
             st)) →
  respects R G (examine_file d confirm wt root file skip).
Proof.
  intros Hadd. unfold examine_file, update_DirStats, session_query.
  step; [destruct (get_extension file); step|].
  step; [apply respects_os_path_getsize|]. step; [step|]. step; [step|].
  step; [apply respects_rows_loop; intros; apply respects_on_duplicate|].
  destruct a3 as [is_dup skip']. step; [|step].
  destruct wt; simpl; [|step]. destruct is_dup; simpl; [step|].
  unfold session_add. apply respects_modify. intros. by apply Hadd.
Qed.

Variable walking_target_dirs : bool.
Hypothesis R_examine :
  ∀ d confirm root file skip,
    respects R G (examine_file d confirm walking_target_dirs root file skip).

Lemma respects_files_loop d confirm root files skip :
  respects R G (files_loop d confirm walking_target_dirs root files skip).
Proof.
  revert skip. induction files as [|file rest IH]; intros skip; simpl;
    [step|].
  step; [apply R_examine|]. destruct a; [step | apply IH].
Qed.

Lemma respects_walk_visit d confirm root dirs files skip :
  respects R G (walk_visit d confirm walking_target_dirs root dirs files skip).
Proof.
  unfold walk_visit, update_DirStats.
  step; [destruct skip; [apply respects_is_same_or_subdir | step]|].
  destruct a; [step|]. step; [step | apply respects_files_loop].
Qed.

Lemma respects_walk_dirs dirs_to_walk confirm :
  respects R G (walk_dirs dirs_to_walk confirm walking_target_dirs).
Proof.
  unfold walk_dirs. apply respects_for_each. intros d [].
  unfold dir_stats_item, update_DirStats.
  step; [step|]. step; [step|]. step; [|step].
  apply R_walk. intros. apply respects_walk_visit.
Qed.
End Respects.

(** ** The depth bound of [for_os_walk] is never reached

    The program only removes entries of the file system, so the longest
    path at the start of a walk bounds the depth of the walk. *)

#[global] Instance shrinks_preorder : PreOrder shrinks.
Proof.
  split; [intros st; by unfold shrinks|].
  intros st1 st2 st3; unfold shrinks; intros H12 H23. by etrans.
Qed.

Lemma fs_depth_bound (m : gmap path node) (p : path) :
  is_Some (m !! p) → (length p ≤ fs_depth m)%nat.
Proof.
  intros [n Hn]. unfold fs_depth. apply max_list_elem_of_le.
  apply list_elem_of_fmap. exists p. split; [done|].
  apply list_elem_of_fmap. exists (p, n). split; [done|].
  by apply elem_of_map_to_list.
Qed.

Lemma scandir_Some (m : gmap path node) top ls :
  scandir m top = Some ls → m !! top = Some DirNode.
Proof. unfold scandir. by destruct (m !! top) as [[]|]. Qed.

Lemma os_walk_within_bound {A}
    (body : path → list string → list string → A → M A) :
  (∀ root dirs files a,
     respects shrinks python_exn (body root dirs files a)) →
  ∀ fuel top acc st r st',
    (∀ p, is_Some (fs st !! p) → (length p < length top + fuel)%nat) →
    os_walk fuel top body acc st = (r, st') →
    shrinks st st' ∧ ∀ e, r = Raise e → python_exn e.
Proof.
  intros Hb. induction fuel as [|fuel IH]; intros top acc st r st' Hbound;
    simpl; unfold bind at 1, gets.
  - destruct (scandir (fs st) top) as [[dirs files]|] eqn:Hs; simpl.
    + apply scandir_Some in Hs.
      specialize (Hbound top (mk_is_Some _ _ Hs)). lia.
    + intros [= <- <-]. split; [reflexivity | discriminate].
  - destruct (scandir (fs st) top) as [[dirs files]|] eqn:Hs; simpl;
      [|intros [= <- <-]; split; [reflexivity | discriminate]].
    unfold bind at 1. destruct (Hb top dirs files acc st) as [HR HG].
    destruct (body top dirs files acc st) as [[a|e] st1]; simpl in *;
      [|intros [= <- <-]; split; [done | intros e' [= <-]; by apply HG]].
    clear HG Hs. revert a st1 HR.
    induction dirs as [|dname ds IHd]; intros a st1 HR; simpl.
    + intros [= <- <-]. split; [done | discriminate].
    + unfold bind at 1.
      destruct (os_walk fuel (join top dname) body a st1) as [r2 st2] eqn:Hw.
      apply IH in Hw as [HR' HG'].
      2: { intros p Hp. unfold join. rewrite length_app. simpl.
           apply (lookup_weaken_is_Some _ (fs st)) in Hp; [|exact HR].
           specialize (Hbound p Hp). lia. }
      destruct r2 as [a'|e].
      * apply IHd. by etrans.
      * intros [= <- <-]. split; [by etrans | intros e' [= <-]; by apply HG'].
Qed.

Lemma for_os_walk_within_bound {A} d
    (body : path → list string → list string → A → M A) acc :
  (∀ root dirs files a,
     respects shrinks python_exn (body root dirs files a)) →
  respects shrinks python_exn (for_os_walk d body acc).
Proof.
  intros Hb st. unfold for_os_walk, bind, gets.
  destruct (os_walk (S (fs_depth (fs st))) d body acc st) as [r st'] eqn:Hw.
  apply (os_walk_within_bound body Hb) in Hw; [done|]. intros p Hp.
  apply fs_depth_bound in Hp. lia.
Qed.

Section Shrinks.
Let G_python : ∀ e, e ≠ OutOfFuel → python_exn e := λ e H, H.

Lemma shrinks_same_fs st st' : fs st' = fs st → shrinks st st'.
Proof. unfold shrinks. by intros ->. Qed.

Lemma shrinks_unlink st p : shrinks st (set_fs (delete p) st).
Proof. unfold shrinks. simpl. apply delete_subseteq. Qed.

Let R_event : ∀ st e, shrinks st (add_event e st) :=
  λ st e, shrinks_same_fs st _ eq_refl.
Let R_stdin : ∀ st l, shrinks st (set_stdin l st) :=
  λ st l, shrinks_same_fs st _ eq_refl.
Let R_stats : ∀ st f, shrinks st (set_dir_stats f st) :=
  λ st f, shrinks_same_fs st _ eq_refl.
Let R_session : ∀ st f, shrinks st (set_session f st) :=
  λ st f, shrinks_same_fs st _ eq_refl.

Lemma walk_dirs_shrinks dirs confirm wt :
  respects shrinks python_exn (walk_dirs dirs confirm wt).
Proof.
  apply (respects_walk_dirs _ _ G_python R_stats).
  - intros A d body acc Hb. apply for_os_walk_within_bound, Hb.
  - intros.
    apply (respects_examine_file _ _ G_python R_event R_stdin
             shrinks_unlink R_stats (λ st t, R_session st _)).
    intros _ st p ext sz. apply R_session.
Qed.

Lemma remove_empty_directories_shrinks target_dirs confirm :
  respects shrinks python_exn (remove_empty_directories target_dirs confirm).
Proof.
  apply (respects_remove_empty_directories _ _ G_python R_event R_stdin
           shrinks_unlink R_stats).
  intros A d body acc Hb. apply for_os_walk_within_bound, Hb.
Qed.

Local Ltac seq :=
  apply (respects_bind shrinks python_exn); [| intros ].

Lemma check_dir_args_shrinks target_dirs readonly_dirs :
  respects shrinks python_exn (check_dir_args target_dirs readonly_dirs).
Proof.
  assert (Hexit : ∀ A, respects shrinks python_exn (@raise A (SystemExit 1)))
    by (intros A; apply (respects_raise shrinks python_exn (SystemExit 1));
        discriminate).
  assert (Hsub : ∀ pr, respects shrinks python_exn (exit_if_subdir pr)).
  { intros pr. unfold exit_if_subdir.
    seq; [apply (respects_is_same_or_subdir _ _ G_python)|].
    destruct a; [apply Hexit | apply (respects_ret shrinks python_exn)]. }
  unfold check_dir_args. seq; [|seq].
  - apply (respects_for_each shrinks python_exn). intros d [].
    unfold path_exists, path_is_dir.
    seq; [apply (respects_gets shrinks python_exn)|].
    destruct a; simpl; [|apply Hexit].
    seq; [apply (respects_gets shrinks python_exn)|].
    destruct a; simpl; [apply (respects_ret shrinks python_exn) | apply Hexit].
  - apply (respects_for_each shrinks python_exn). intros pr []. apply Hsub.
  - apply (respects_for_each shrinks python_exn). intros td [].
    apply (respects_for_each shrinks python_exn). intros ro []. apply Hsub.
Qed.

(** A run only removes entries of the file system, and its depth bound
    is never reached. *)
Lemma main_shrinks args : respects shrinks python_exn (main args).
Proof.
  unfold main, deduplicate.
  seq; [apply check_dir_args_shrinks|].
  seq; [apply walk_dirs_shrinks|].
  seq; [apply walk_dirs_shrinks|].
  destruct (remove_empty_dirs args); [|apply (respects_ret shrinks python_exn)].
  apply remove_empty_directories_shrinks.
Qed.
End Shrinks.

(** ** Comparisons and the search of the bucket *)

Lemma log_nil st : log [] st = st.
Proof. destruct st. unfold log. simpl. by rewrite app_nil_r. Qed.

Lemma log_cons e es st : log (e :: es) st = log es (add_event e st).
Proof. unfold log, add_event. simpl. by rewrite <- app_assoc. Qed.

Lemma log_app es1 es2 st : log (es1 ++ es2) st = log es2 (log es1 st).
Proof. unfold log. simpl. by rewrite app_assoc. Qed.

Lemma filecmp_cmp_state f1 f2 st :
  (filecmp_cmp f1 f2 st).2 = add_event (Cmp f1 f2) st.
Proof.
  unfold filecmp_cmp, bind, emit, modify, gets. simpl.
  destruct (fs st !! f1) as [[]|], (fs st !! f2) as [[]|]; try done.
  by case_bool_decide.
Qed.

Lemma filecmp_cmp_true f1 f2 st :
  same_bytes (fs st) f1 f2 →
  filecmp_cmp f1 f2 st = (Ok true, add_event (Cmp f1 f2) st).
Proof.
  intros (c & H1 & H2). unfold filecmp_cmp, bind, emit, modify, gets. simpl.
  rewrite H1, H2. by rewrite !bool_decide_eq_true_2.
Qed.

Lemma filecmp_cmp_false f1 f2 st :
  differ (fs st) f1 f2 →
  filecmp_cmp f1 f2 st = (Ok false, add_event (Cmp f1 f2) st).
Proof.
  intros ([n1 H1] & [n2 H2] & Hne).
  unfold filecmp_cmp, bind, emit, modify, gets. simpl. rewrite H1, H2.
  destruct n1 as [c1|], n2 as [c2|]; try done.
  case_bool_decide; [|done]. rewrite bool_decide_eq_false_2; [done|].
  intros ->. apply Hne. by exists c2.
Qed.

Lemma filecmp_cmp_Ok f1 f2 st b st' :
  filecmp_cmp f1 f2 st = (Ok b, st') →
  if b then same_bytes (fs st) f1 f2 else differ (fs st) f1 f2.
Proof.
  unfold filecmp_cmp, bind, emit, modify, gets. simpl.
  destruct (fs st !! f1) as [n1|] eqn:H1; [|by destruct (fs st !! f2)].
  destruct (fs st !! f2) as [n2|] eqn:H2; [|done].
  assert (Hd : ¬ same_bytes (fs st) f1 f2 → differ (fs st) f1 f2)
    by (intros ?; unfold differ; rewrite H1, H2; eauto).
  destruct n1 as [c1|], n2 as [c2|].
  - case_bool_decide as Hlen.
    + intros [= <- _]. case_bool_decide as Hc.
      * subst c2. by exists c1.
      * apply Hd. intros (c & Hc1 & Hc2). congruence.
    + intros [= <- _]. apply Hd. intros (c & Hc1 & Hc2). congruence.
  - intros [= <- _]. apply Hd. intros (c & Hc1 & Hc2). congruence.
  - intros [= <- _]. apply Hd. intros (c & Hc1 & Hc2). congruence.
  - intros [= <- _]. apply Hd. intros (c & Hc1 & Hc2). congruence.
Qed.

(** The loop over the rows stops at the first row that compares equal,
    and hands it to [on_dup] in the state the comparisons left. *)
Lemma rows_loop_first_equal on_dup cur pre tail skip st :
  Forall (λ t, differ (fs st) cur (full_path t)) pre →
  match tail with
  | [] => True
  | e :: _ => same_bytes (fs st) cur (full_path e)
  end →
  rows_loop on_dup cur (pre ++ tail) skip st =
    match tail with
    | [] => (Ok (false, skip), log (compared cur pre) st)
    | e :: _ => (s <- on_dup e ;; ret (true, s))
                  (log (compared cur (pre ++ [e])) st)
    end.
Proof.
  intros Hpre Htail. revert st Hpre Htail.
  induction pre as [|t pre IH]; intros st Hpre Htail; simpl.
  - destruct tail as [|e tail]; simpl.
    + by rewrite log_nil.
    + unfold bind at 1. rewrite filecmp_cmp_true by done.
      unfold compared. simpl. rewrite log_cons, log_nil. done.
  - apply Forall_cons in Hpre as [Ht Hpre].
    unfold bind at 1. rewrite filecmp_cmp_false by done.
    rewrite IH; [| done | done].
    destruct tail; unfold compared; simpl; by rewrite log_cons.
Qed.

(** C4.  The candidates of a file are exactly the rows of its size and
    extension, in the order of the table.  When the candidates [pre] all
    differ from the file and the next one, if any, has the same bytes, the
    search compares the file against [pre] and that candidate, in this
    order and against nothing else, and finds that candidate; when no
    candidate has the same bytes it compares against all of them and finds
    none. *)
Theorem find_match_first_equal_in_bucket
    st on_dup cur sz ext skip pre tail :
  bucket sz ext (session st) = pre ++ tail →
  Forall (λ t, differ (fs st) cur (full_path t)) pre →
  match tail with
  | [] => True
  | e :: _ => same_bytes (fs st) cur (full_path e)
  end →
  (∀ f, f ∈ pre ++ tail ↔ f ∈ session st ∧ size f = sz ∧ extension f = ext) ∧
  sublist (pre ++ tail) (session st) ∧
  (rows <- session_query sz ext ;; rows_loop on_dup cur rows skip) st =
    match tail with
    | [] => (Ok (false, skip), log (compared cur pre) st)
    | e :: _ => (s <- on_dup e ;; ret (true, s))
                  (log (compared cur (pre ++ [e])) st)
    end.
Proof.
  intros Hrows Hpre Htail. split; [|split].
  - intros f. rewrite <- Hrows. unfold bucket.
    rewrite list_elem_of_filter. tauto.
  - rewrite <- Hrows. apply sublist_filter.
  - unfold bind at 1, session_query, gets. fold (bucket sz ext (session st)).
    rewrite Hrows. by apply rows_loop_first_equal.
Qed.

Lemma find_match_first_equal_in_bucket_witness :
  bucket 3 EmptyString (session st_two_rows) = [row_z] ++ [row_y] ∧
  (rows <- session_query 3 EmptyString ;;
   rows_loop (λ _, ret None) ["a"; "b"; "x"] rows None) st_two_rows =
    (Ok (true, None),
     log [Cmp ["a"; "b"; "x"] ["a"; "z"];
          Cmp ["a"; "b"; "x"] ["a"; "b"; "y"]] st_two_rows).
Proof.
  split; [reflexivity|].
  apply (find_match_first_equal_in_bucket st_two_rows (λ _, ret None)
           ["a"; "b"; "x"] 3 EmptyString None [row_z] [row_y]).
  - reflexivity.
  - constructor; [|constructor].
    split; [by eexists | split; [by eexists|]].
    intros (c & H1 & H2). vm_compute in H1, H2. congruence.
  - exists (list_byte_of_string "one"). split; reflexivity.
Defined.

(** ** The confirmation gate *)

Lemma gates_add_other e st :
  (∀ p, e ≠ Gate p) → gates (trace (add_event e st)) = gates (trace st).
Proof.
  intros He. unfold gates. simpl. rewrite omap_app. simpl.
  destruct e; try by rewrite app_nil_r. by destruct (He file_or_dir).
Qed.

(** Asking changes neither the file system nor the table nor the
    statistics, and hands nothing to the gate. *)
Lemma prompt_loop_frame is_dir p lines st r st' :
  prompt_loop is_dir p lines st = (r, st') →
  fs st' = fs st ∧ session st' = session st ∧ dir_stats st' = dir_stats st ∧
  gates (trace st') = gates (trace st).
Proof.
  assert (Hg : ∀ l, gates (l ++ [Prompt p is_dir]) = gates l)
    by (intros; unfold gates; rewrite omap_app; simpl; by rewrite app_nil_r).
  assert (Hh : ∀ l, gates (l ++ [Hint]) = gates l)
    by (intros; unfold gates; rewrite omap_app; simpl; by rewrite app_nil_r).
  revert st. induction lines as [|line rest IH]; intros st; simpl;
    unfold bind, emit, modify, raise; simpl.
  - intros [= <- <-]. simpl. by rewrite Hg.
  - repeat (match goal with |- context [if ?b then _ else _] =>
              destruct b end);
      try (intros [= <- <-]; simpl; by rewrite Hg).
    intros Hrec. apply IH in Hrec as (-> & -> & -> & ->). simpl.
    by rewrite Hh, Hg.
Qed.

Lemma os_remove_cases p st :
  os_remove p st = (Ok tt, set_fs (delete p) st) ∨
  ∃ e, os_remove p st = (Raise e, st).
Proof.
  unfold os_remove, bind, gets, modify, raise.
  destruct (fs st !! p) as [[]|]; eauto.
Qed.

Lemma os_rmdir_cases p st :
  os_rmdir p st = (Ok tt, set_fs (delete p) st) ∨
  ∃ e, os_rmdir p st = (Raise e, st).
Proof.
  unfold os_rmdir, bind, gets, modify, raise.
  destruct (fs st !! p) as [[]|]; eauto. destruct (children _ _); eauto.
Qed.

(** A call of the gate leaves the table and the statistics alone, records
    itself once, and either leaves the file system as it is or removes
    the one path it was given; when it raises, nothing was removed. *)
Lemma remove_with_confirm_frame p confirm st r st' :
  remove_with_confirm p confirm st = (r, st') →
  session st' = session st ∧ dir_stats st' = dir_stats st ∧
  gates (trace st') = gates (trace st) ++ [p] ∧
  match r with
  | Ok _ => fs st' = fs st ∨ fs st' = delete p (fs st)
  | Raise _ => fs st' = fs st
  end.
Proof.
  unfold remove_with_confirm, path_is_dir.
  unfold bind at 1, emit, modify. simpl.
  unfold bind at 1, gets. simpl.
  set (is_dir := match fs st !! p with Some DirNode => true | _ => false end).
  set (st1 := add_event (Gate p) st).
  assert (Hg : gates (trace st1) = gates (trace st) ++ [p])
    by (unfold gates; simpl; by rewrite omap_app).
  assert (Hop : ∀ st2 : state,
            (if is_dir then os_rmdir p else os_remove p) st2
              = (Ok tt, set_fs (delete p) st2) ∨
            ∃ e, (if is_dir then os_rmdir p else os_remove p) st2
              = (Raise e, st2))
    by (intros; destruct is_dir; [apply os_rmdir_cases | apply os_remove_cases]).
  destruct confirm; simpl.
  - unfold bind at 1. unfold bind at 1, gets. simpl. unfold bind at 1.
    destruct (prompt_loop is_dir p (stdin st) st1) as [[[answer skip]|e] st2]
      eqn:Hask; simpl;
      apply prompt_loop_frame in Hask as (Hfs & Hse & Hds & Hgs).
    + unfold bind at 1. case_bool_decide; simpl.
      * destruct (Hop st2) as [-> | [e ->]]; simpl; intros [= <- <-]; simpl;
          rewrite ?Hfs, ?Hse, ?Hds, ?Hgs, ?Hg; eauto.
      * intros [= <- <-]. rewrite ?Hfs, ?Hse, ?Hds, ?Hgs, ?Hg; eauto.
    + intros [= <- <-]. rewrite ?Hfs, ?Hse, ?Hds, ?Hgs, ?Hg; eauto.
  - unfold bind at 1, ret. simpl. unfold bind at 1.
    destruct (Hop st1) as [-> | [e ->]]; simpl; intros [= <- <-]; simpl;
      rewrite ?Hg; eauto.
Qed.

(** An answer whose first letter is [n] or [N]: nothing is removed. *)
Lemma remove_with_confirm_declined p st line rest :
  stdin st = line :: rest →
  PyStr.first_lower line = "n" →
  remove_with_confirm p true st =
    (Ok None,
     mkState (fs st) rest (session st) (dir_stats st)
       (trace st ++
          [Gate p;
           Prompt p match fs st !! p with Some DirNode => true | _ => false end])).
Proof.
  intros Hin Hline. destruct line as [|a line]; [discriminate|].
  simpl in Hline. injection Hline as Ha.
  unfold remove_with_confirm, path_is_dir, bind, emit, modify, gets. simpl.
  rewrite Hin. simpl. unfold bind, emit, modify. simpl.
  rewrite Ha. simpl. rewrite andb_false_r. simpl.
  unfold add_event, set_stdin. simpl. by rewrite <- app_assoc.
Qed.

(** ** The second pass of the pruning *)

Lemma retry_loop_gate_calls confirm stack st :
  (length (gates (trace (retry_loop confirm stack st).2))
   ≤ length (gates (trace st)) + length stack)%nat.
Proof.
  revert st. induction stack as [|[empty_dir target_dir] rest IH];
    intros st; simpl; [lia|].
  unfold bind at 1, ignore_ENOTEMPTY. unfold bind at 1.
  destruct (remove_with_confirm empty_dir confirm st) as [[s|e] st1] eqn:Hg;
    apply remove_with_confirm_frame in Hg as (_ & _ & Hgates & _).
  - unfold dir_stats_item, update_DirStats, bind, modify. simpl.
    etrans; [apply IH|]. simpl. rewrite Hgates, length_app. simpl. lia.
  - assert (Hlen : (length (gates (trace st1))
                    ≤ length (gates (trace st)) + S (length rest))%nat)
      by (rewrite Hgates, length_app; simpl; lia).
    destruct e as [[]| | | | |]; simpl; try done.
    etrans; [apply IH|]. rewrite Hgates, length_app. simpl. lia.
Qed.

(** C8.  When the gate raises on the directory on top of the stack,
    nothing was removed and no counter has moved; if the error is
    [ENOTEMPTY] the pass goes on with the rest of the stack as if nothing
    had happened, and any other exception ends the pass.  The pass hands
    at most one path to the gate per stacked directory, so it ends. *)
Theorem retry_pass_ignores_ENOTEMPTY_only
    confirm empty_dir target_dir rest st e st' :
  remove_with_confirm empty_dir confirm st = (Raise e, st') →
  fs st' = fs st ∧ dir_stats st' = dir_stats st ∧
  (e = OSError ENOTEMPTY →
   retry_loop confirm ((empty_dir, target_dir) :: rest) st
     = retry_loop confirm rest st') ∧
  (e ≠ OSError ENOTEMPTY →
   retry_loop confirm ((empty_dir, target_dir) :: rest) st = (Raise e, st')) ∧
  ∀ stack st0,
    (length (gates (trace (retry_loop confirm stack st0).2))
     ≤ length (gates (trace st0)) + length stack)%nat.
Proof.
  intros Hgate.
  destruct (remove_with_confirm_frame _ _ _ _ _ Hgate) as (_ & Hds & _ & Hfs).
  repeat split; try done.
  - intros ->. simpl. unfold bind at 1, ignore_ENOTEMPTY. unfold bind at 1.
    by rewrite Hgate.
  - intros Hne. simpl. unfold bind at 1, ignore_ENOTEMPTY. unfold bind at 1.
    rewrite Hgate. by destruct e as [[]| | | | |].
  - intros. apply retry_loop_gate_calls.
Qed.

Lemma retry_pass_ignores_ENOTEMPTY_only_witness :
  remove_with_confirm ["t"] false (start fs_empty_dir [])
    = (Raise (OSError ENOTEMPTY),
       add_event (Gate ["t"]) (start fs_empty_dir [])) ∧
  retry_loop false [(["t"], ["t"]); (["t"; "d"], ["t"])]
    (start fs_empty_dir [])
    = retry_loop false [(["t"; "d"], ["t"])]
        (add_event (Gate ["t"]) (start fs_empty_dir [])).
Proof.
  assert (H : remove_with_confirm ["t"] false (start fs_empty_dir [])
              = (Raise (OSError ENOTEMPTY),
                 add_event (Gate ["t"]) (start fs_empty_dir [])))
    by (vm_compute; reflexivity).
  split; [exact H|].
  exact (proj1 (proj2 (proj2
    (retry_pass_ignores_ENOTEMPTY_only false ["t"] ["t"]
       [(["t"; "d"], ["t"])] _ _ _ H))) eq_refl).
Defined.

(** ** Evaluations *)

(** C1.  The read-only root [/a/b] lies inside the target root [/a], and
    [check_dir_args] lets the run start.  The walk of the target root
    gives [/a/b/u] a row; the walk of the read-only root then compares
    [/a/b/u] with the file of that row, which is [/a/b/u] itself, and
    hands it to the gate: the only file of the read-only tree, a file
    without a duplicate, is deleted. *)
Theorem read_only_root_inside_target_is_emptied :
  let args := mkNamespace [["a"]] true [["a"; "b"]] false in
  let st := start fs_ro_inside_target [] in
  (check_dir_args (target args) (read_only args) st).1 = Ok tt ∧
  (main args st).1 = Ok tt ∧
  fs st !! ["a"; "b"; "u"] = Some (text "only copy") ∧
  fs (main args st).2 !! ["a"; "b"; "u"] = None ∧
  trace (main args st).2 =
    [Cmp ["a"; "b"; "u"] ["a"; "z"];
     Cmp ["a"; "b"; "u"] ["a"; "z"];
     Cmp ["a"; "b"; "u"] ["a"; "b"; "u"];
     Gate ["a"; "b"; "u"]].
Proof. vm_compute. repeat split; reflexivity. Qed.

(** C3.  Walking the read-only root [/ro], the user answers [s] to the
    question about [/t/t1], the copy of [/ro/r1].  [skip] becomes [/t],
    the directory of the target file; [/ro/sub] is not below [/t], so the
    walker enters it, counts it, compares [/ro/sub/r2] and asks about its
    copy [/t/t2]. *)
Theorem skip_in_read_only_walk_does_not_cover_subdirectories :
  let args := mkNamespace [["t"]] false [["ro"]] false in
  let st' := (main args (start fs_ro_sub ["s"; "n"])).2 in
  (main args (start fs_ro_sub ["s"; "n"])).1 = Ok tt ∧
  trace st' =
    [Cmp ["ro"; "r1"] ["t"; "t1"];
     Gate ["t"; "t1"]; Prompt ["t"; "t1"] false;
     Cmp ["ro"; "sub"; "r2"] ["t"; "t2"];
     Gate ["t"; "t2"]; Prompt ["t"; "t2"] false] ∧
  total_dir_count <$> dir_stats st' !! ["ro"] = Some 2%Z ∧
  total_file_count <$> dir_stats st' !! ["ro"] = Some 2%Z ∧
  stdin st' = [].
Proof. vm_compute. repeat split; reflexivity. Qed.

(** C5.  The three names of the specification, and a name with two
    leading dots: [splitext] skips all leading dots and finds no
    extension, and [get_extension] then returns the whole name, which is
    not the text from the rightmost dot on. *)
Theorem get_extension_of_doubly_dotted_name :
  get_extension "foo.bar" = Some ".bar" ∧
  get_extension ".profile" = Some ".profile" ∧
  get_extension "bingles" = Some EmptyString ∧
  get_extension "..foo" = Some "..foo" ∧
  spec_extension "..foo" = ".foo" ∧
  get_extension "..foo" ≠ Some (spec_extension "..foo").
Proof. vm_compute. repeat split; try reflexivity. discriminate. Qed.

(** C6.  An empty line is accepted as an answer, for a file and for a
    directory alike: there is one prompt, no hint, nothing is removed and
    the gate returns, as it does on [n]. *)
Theorem empty_answer_is_taken_as_no p st rest :
  remove_with_confirm p true (set_stdin (EmptyString :: rest) st) =
    (Ok None,
     mkState (fs st) rest (session st) (dir_stats st)
       (trace st ++
          [Gate p;
           Prompt p match fs st !! p with Some DirNode => true | _ => false end])).
Proof.
  unfold remove_with_confirm, path_is_dir, bind, emit, modify, gets. simpl.
  unfold bind, emit, modify. simpl. rewrite andb_false_r. simpl.
  unfold add_event, set_stdin. simpl. by rewrite <- app_assoc.
Qed.

(** C7.  The target [/t] holds the empty directory [/t/d]; the user
    answers [n] to both questions.  No directory is removed, and
    [empty_dir_count] of the root is 2: the first pass counts before it
    calls the gate, the second pass counts whenever the gate returns. *)
Theorem declined_removals_are_counted :
  let st := start fs_empty_dir ["n"; "n"] in
  let st' := (remove_empty_directories [["t"]] true st).2 in
  (remove_empty_directories [["t"]] true st).1 = Ok tt ∧
  fs st' = fs st ∧
  gates (trace st') = [["t"; "d"]; ["t"]] ∧
  empty_dir_count <$> dir_stats st' !! ["t"] = Some 2%Z.
Proof. vm_compute. repeat split; reflexivity. Qed.

(** C2, as stated.  [/t/a.txt] and [/t/a.bak] hold the same bytes; they
    fall into different buckets, are never compared, and both get a
    row. *)
Lemma same_bytes_under_two_extensions_both_kept :
  ¬ unique_content (walk_dirs [["t"]] false true (start fs_two_ext [])).2.
Proof.
  intros H.
  apply (H 0%nat 1%nat (mkFile 1 ["t"; "a.txt"] ".txt" 4)
           (mkFile 2 ["t"; "a.bak"] ".bak" 4) (list_byte_of_string "same"));
    by vm_compute.
Qed.

(** ** A detected duplicate *)

Lemma examine_file_on_match d confirm wt root file skip st sz e :
  detects st root file sz e →
  ∃ es,
    examine_file d confirm wt root file skip st =
      on_duplicate d confirm wt (join root file) sz e (at_duplicate d sz es st).
Proof.
  intros (ext & c & pre & post & Hext & Hcur & -> & Hrows & Hpre & He).
  exists (compared (join root file) (pre ++ [e])).
  unfold examine_file. rewrite Hext.
  unfold bind at 1, ret. simpl.
  unfold bind at 1, os_path_getsize. unfold bind at 1, gets. simpl.
  rewrite Hcur. unfold ret. simpl.
  unfold bind at 1, update_DirStats, modify. simpl.
  unfold bind at 1, session_query, gets. simpl.
  fold (bucket (Z.of_nat (length c)) ext (session st)). rewrite Hrows.
  unfold bind at 1.
  rewrite (rows_loop_first_equal _ _ pre (e :: post)) by done.
  unfold bind at 1. fold (at_duplicate d (Z.of_nat (length c))
    (compared (join root file) (pre ++ [e])) st).
  destruct (on_duplicate _ _ _ _ _ _ _) as [[s|ex] st']; [|done].
  simpl. rewrite andb_false_r. done.
Qed.

(** *** The owner of a row *)

Lemma target_file_dir_loop_pure n tfp st :
  (target_file_dir_loop n tfp st).2 = st.
Proof.
  revert tfp. induction n as [|n IH]; intros tfp; simpl;
    unfold bind, gets; simpl;
    case_bool_decide; try done; by case_bool_decide.
Qed.

Lemma target_file_dir_loop_keys n tfp st1 st2 :
  (∀ k, is_Some (dir_stats st1 !! k) ↔ is_Some (dir_stats st2 !! k)) →
  (target_file_dir_loop n tfp st1).1 = (target_file_dir_loop n tfp st2).1.
Proof.
  intros Hk. revert tfp. induction n as [|n IH]; intros tfp; simpl;
    unfold bind, gets; simpl;
    rewrite (bool_decide_ext _ _ (Hk tfp));
    case_bool_decide; try done; by case_bool_decide.
Qed.

Lemma target_file_dir_loop_known n tfp st owner :
  (target_file_dir_loop n tfp st).1 = Ok owner →
  is_Some (dir_stats st !! owner).
Proof.
  revert tfp. induction n as [|n IH]; intros tfp; simpl;
    unfold bind, gets; simpl; case_bool_decide as Hk.
  - by intros [= <-].
  - by case_bool_decide.
  - by intros [= <-].
  - case_bool_decide; [done | apply IH].
Qed.

Lemma target_file_dir_at_duplicate d sz es st t owner :
  (target_file_dir t st).1 = Ok owner →
  target_file_dir t (at_duplicate d sz es st)
    = (Ok owner, at_duplicate d sz es st).
Proof.
  unfold target_file_dir. intros Ho.
  rewrite (surjective_pairing (target_file_dir_loop _ _ (at_duplicate _ _ _ _))).
  rewrite target_file_dir_loop_pure. f_equal. rewrite <- Ho.
  apply target_file_dir_loop_keys. intros k. simpl.
  destruct (decide (d = k)) as [->|Hne].
  - rewrite lookup_alter_eq. by rewrite fmap_is_Some.
  - by rewrite lookup_alter_ne.
Qed.

(** *** The branch [if is_dup] *)

(** Whatever the gate does, the branch has counted the duplicate for the
    root it attributes it to. *)
Lemma on_duplicate_stats d confirm (wt : bool) cur sz e st owner r st' :
  (if wt then owner = d else target_file_dir e st = (Ok owner, st)) →
  is_Some (dir_stats st !! owner) →
  on_duplicate d confirm wt cur sz e st = (r, st') →
  dir_stats st' = alter (count_dup sz) owner (dir_stats st).
Proof.
  intros Ho [s Hs]. unfold on_duplicate. destruct wt.
  - subst owner. unfold bind at 1, update_DirStats, modify. simpl.
    intros Hg. by apply remove_with_confirm_frame in Hg as (_ & -> & _).
  - unfold bind at 1. rewrite Ho.
    unfold bind at 1, dir_stats_item, modify. simpl.
    unfold bind at 1, update_DirStats, modify. simpl.
    unfold bind at 1.
    destruct (remove_with_confirm _ _ _) as [[s'|ex] st1] eqn:Hg;
      apply remove_with_confirm_frame in Hg as (_ & Hds & _);
      simpl in Hds; rewrite Hs in Hds.
    + unfold bind, session_delete, modify, ret. simpl.
      intros [= _ <-]. simpl. by rewrite Hds.
    + intros [= _ <-]. by rewrite Hds.
Qed.

(** When the user declines, the branch returns without a skip; nothing
    is removed from the file system, and in the walk of read-only roots
    the row is deleted all the same. *)
Lemma on_duplicate_declined d (wt : bool) cur sz e st owner line rest :
  (if wt then owner = d else target_file_dir e st = (Ok owner, st)) →
  stdin st = line :: rest →
  PyStr.first_lower line = "n" →
  ∃ st', on_duplicate d true wt cur sz e st = (Ok None, st') ∧
         fs st' = fs st ∧ stdin st' = rest ∧
         session st' = if wt then session st
                       else filter (λ r, id r ≠ id e) (session st).
Proof.
  intros Ho Hin Hline. unfold on_duplicate. destruct wt.
  - unfold bind at 1, update_DirStats, modify. simpl.
    erewrite remove_with_confirm_declined by done. eauto.
  - unfold bind at 1. rewrite Ho.
    unfold bind at 1, dir_stats_item, modify. simpl.
    unfold bind at 1, update_DirStats, modify. simpl.
    unfold bind at 1.
    erewrite remove_with_confirm_declined by done.
    unfold bind, session_delete, modify, ret. simpl. eauto.
Qed.

(** C10.  Once [examine_file] has found a duplicate, the root the
    duplicate is attributed to (the root being walked for target roots,
    the root owning the matched row for read-only roots) has it counted,
    in number and in size, in whatever way the gate ends, be it by an
    exception; and when the user declines, the walker goes on and the
    file system is as it was. *)
Theorem duplicate_is_counted_before_the_gate
    d confirm (wt : bool) root file skip st sz e owner s :
  detects st root file sz e →
  (if wt then owner = d else (target_file_dir e st).1 = Ok owner) →
  dir_stats st !! owner = Some s →
  (∀ r st', examine_file d confirm wt root file skip st = (r, st') →
     dup_file_count <$> dir_stats st' !! owner
       = Some (dup_file_count s + 1)%Z ∧
     dup_file_size <$> dir_stats st' !! owner
       = Some (dup_file_size s + sz)%Z) ∧
  (∀ line rest,
     confirm = true → stdin st = line :: rest →
     PyStr.first_lower line = "n" →
     ∃ st', examine_file d confirm wt root file skip st = (Ok None, st') ∧
            fs st' = fs st).
Proof.
  intros Hdet Ho Hs.
  destruct (examine_file_on_match d confirm wt root file skip st sz e Hdet)
    as [es Hrun].
  assert (Ho' : if wt then owner = d
                else target_file_dir e (at_duplicate d sz es st)
                     = (Ok owner, at_duplicate d sz es st)).
  { destruct wt; [done|]. by apply target_file_dir_at_duplicate. }
  assert (Hs' : ∃ s2, dir_stats (at_duplicate d sz es st) !! owner = Some s2 ∧
                      dup_file_count s2 = dup_file_count s ∧
                      dup_file_size s2 = dup_file_size s).
  { simpl. destruct (decide (d = owner)) as [->|Hne].
    - rewrite lookup_alter_eq, Hs. simpl. eauto.
    - rewrite lookup_alter_ne by done. eauto. }
  destruct Hs' as (s2 & Hs2 & Hc & Hz).
  split.
  - intros r st'. rewrite Hrun. intros Hd.
    eapply on_duplicate_stats in Hd; [| exact Ho' | by rewrite Hs2].
    rewrite Hd, lookup_alter_eq, Hs2. simpl. by rewrite Hc, Hz.
  - intros line rest -> Hin Hline. rewrite Hrun.
    destruct (on_duplicate_declined d wt (join root file) sz e
                (at_duplicate d sz es st) owner line rest Ho' Hin Hline)
      as (st' & Hd & Hfs & _).
    exists st'. split; [done|]. by rewrite Hfs.
Qed.

Lemma st_match_detects : detects st_match ["a"; "b"] "x" 3 row_y.
Proof.
  exists EmptyString, (list_byte_of_string "one"), [row_z], [].
  split; [reflexivity|]. split; [reflexivity|]. split; [reflexivity|].
  split; [reflexivity|]. split.
  - constructor; [|constructor].
    split; [eexists; reflexivity | split; [eexists; reflexivity|]].
    intros (c & H1 & H2). vm_compute in H1, H2. congruence.
  - exists (list_byte_of_string "one"). split; reflexivity.
Defined.

Lemma duplicate_is_counted_before_the_gate_witness :
  detects st_match ["a"; "b"] "x" 3 row_y ∧
  dir_stats st_match !! ["a"] = Some new_DirStats ∧
  ∃ st', examine_file ["a"] true true ["a"; "b"] "x" None st_match
           = (Ok None, st') ∧
         fs st' = fs st_match.
Proof.
  split; [exact st_match_detects|]. split; [reflexivity|].
  exact (proj2 (duplicate_is_counted_before_the_gate ["a"] true true
                  ["a"; "b"] "x" None st_match 3 row_y ["a"] new_DirStats
                  st_match_detects eq_refl eq_refl)
           "n" [] eq_refl eq_refl eq_refl).
Defined.

(** ** Rows deleted in the walk of read-only roots *)

#[global] Instance stays_untracked_preorder p : PreOrder (stays_untracked p).
Proof.
  split; [intros st H; exact H|]. intros st1 st2 st3 H12 H23 H.
  by apply H23, H12.
Qed.

Section Untracked.
Variable p : path.

Lemma stays_untracked_sub st st' :
  session st' ⊆ session st → stays_untracked p st st'.
Proof. intros Hsub Hu r Hr. by apply Hu, Hsub. Qed.

Let G_any : ∀ e, e ≠ OutOfFuel → any_exn e := λ _ _, I.
Let R_event : ∀ st e, stays_untracked p st (add_event e st) :=
  λ st e H, H.
Let R_stdin : ∀ st l, stays_untracked p st (set_stdin l st) :=
  λ st l H, H.
Let R_unlink : ∀ st q, stays_untracked p st (set_fs (delete q) st) :=
  λ st q H, H.
Let R_stats : ∀ st f, stays_untracked p st (set_dir_stats f st) :=
  λ st f H, H.

Lemma stays_untracked_row_deleted st t :
  stays_untracked p st (set_session (filter (λ r, id r ≠ id t)) st).
Proof.
  apply stays_untracked_sub. simpl. intros r Hr.
  by apply list_elem_of_filter in Hr as [_ Hr].
Qed.

Lemma stays_untracked_walk A d (body : path → list string → list string → A → M A) acc :
  (∀ root dirs files a,
     respects (stays_untracked p) any_exn (body root dirs files a)) →
  respects (stays_untracked p) any_exn (for_os_walk d body acc).
Proof.
  intros Hb.
  apply (respects_for_os_walk_cut (stays_untracked p) any_exn);
    [exact I | exact Hb].
Qed.

Lemma examine_read_only_untracked d confirm root file skip :
  respects (stays_untracked p) any_exn
    (examine_file d confirm false root file skip).
Proof.
  apply (respects_examine_file _ _ G_any R_event R_stdin R_unlink R_stats
           stays_untracked_row_deleted).
  discriminate.
Qed.

Lemma files_read_only_untracked d confirm root files skip :
  respects (stays_untracked p) any_exn
    (files_loop d confirm false root files skip).
Proof.
  apply (respects_files_loop _ _). apply examine_read_only_untracked.
Qed.

Lemma walk_read_only_untracked roots confirm :
  respects (stays_untracked p) any_exn (walk_dirs roots confirm false).
Proof.
  apply (respects_walk_dirs _ _ G_any R_stats stays_untracked_walk).
  apply examine_read_only_untracked.
Qed.

Lemma prune_untracked target_dirs confirm :
  respects (stays_untracked p) any_exn
    (remove_empty_directories target_dirs confirm).
Proof.
  apply (respects_remove_empty_directories _ _ G_any R_event R_stdin
           R_unlink R_stats stays_untracked_walk).
Qed.
End Untracked.

(** C9.  A file of a read-only root matches the row [e] and the user
    answers no.  The file of [e] stays on disk, the row of [e] is deleted,
    no row with the path of [e] is left in the table (rows have distinct
    paths), and none appears during the rest of the walk of read-only
    roots or during pruning: no later lookup can return that file. *)
Theorem declined_read_only_match_is_forgotten
    d root file skip st sz e owner line rest :
  detects st root file sz e →
  (target_file_dir e st).1 = Ok owner →
  stdin st = line :: rest →
  PyStr.first_lower line = "n" →
  (∀ r, r ∈ session st → full_path r = full_path e → id r = id e) →
  ∃ st',
    examine_file d true false root file skip st = (Ok None, st') ∧
    fs st' = fs st ∧
    is_Some (fs st' !! full_path e) ∧
    session st' = filter (λ r, id r ≠ id e) (session st) ∧
    untracked (full_path e) st' ∧
    ∀ st1 files roots confirm,
      untracked (full_path e) st1 →
      untracked (full_path e)
        (files_loop d confirm false root files None st1).2 ∧
      untracked (full_path e) (walk_dirs roots confirm false st1).2 ∧
      untracked (full_path e)
        (remove_empty_directories roots confirm st1).2.
Proof.
  intros Hdet Ho Hin Hline Huniq.
  destruct (examine_file_on_match d true false root file skip st sz e Hdet)
    as [es Hrun].
  destruct (on_duplicate_declined d false (join root file) sz e
              (at_duplicate d sz es st) owner line rest)
    as (st' & Hd & Hfs & _ & Hse); try done.
  { by apply target_file_dir_at_duplicate. }
  simpl in Hfs, Hse. exists st'. rewrite Hrun.
  repeat split; try done.
  - rewrite Hfs.
    destruct Hdet as (ext & c & pre & post & _ & _ & _ & _ & _ & c' & _ & Hc').
    by rewrite Hc'.
  - intros r Hr Hp. rewrite Hse in Hr.
    apply list_elem_of_filter in Hr as [Hid Hr]. by apply Hid, Huniq.
  - by apply files_read_only_untracked.
  - by apply walk_read_only_untracked.
  - by apply prune_untracked.
Qed.

Lemma st_read_only_walk_detects :
  detects st_read_only_walk ["ro"] "r1" 5 row_t1.
Proof.
  exists EmptyString, (list_byte_of_string "first"), [], [].
  split; [reflexivity|]. split; [reflexivity|]. split; [reflexivity|].
  split; [reflexivity|]. split; [constructor|].
  exists (list_byte_of_string "first"). split; reflexivity.
Defined.

Lemma declined_read_only_match_is_forgotten_witness :
  detects st_read_only_walk ["ro"] "r1" 5 row_t1 ∧
  (target_file_dir row_t1 st_read_only_walk).1 = Ok ["t"] ∧
  ∃ st',
    examine_file ["ro"] true false ["ro"] "r1" None st_read_only_walk
      = (Ok None, st') ∧
    fs st' = fs_ro_sub ∧ session st' = [row_t2].
Proof.
  split; [exact st_read_only_walk_detects|]. split; [reflexivity|].
  destruct (declined_read_only_match_is_forgotten ["ro"] ["ro"] "r1" None
              st_read_only_walk 5 row_t1 ["t"] "n" []
              st_read_only_walk_detects eq_refl eq_refl eq_refl)
    as (st' & Hrun & Hfs & _ & Hse & _).
  - intros r Hr Hp. apply list_elem_of_In in Hr. simpl in Hr.
    destruct Hr as [<- | [<- | []]]; [reflexivity | discriminate Hp].
  - exists st'. split; [exact Hrun|]. split; [exact Hfs | exact Hse].
Defined.

(** ** The invariant of the table *)

Lemma pairwise_snoc {A} (R : A → A → Prop) l x :
  pairwise R l → Forall (λ y, R y x) l → pairwise R (l ++ [x]).
Proof.
  induction l as [|y l IH]; simpl; [by repeat constructor|].
  intros [Hy Hl] Hx. apply Forall_cons in Hx as [Hyx Hx]. split.
  - apply Forall_app. split; [done | by constructor].
  - by apply IH.
Qed.

Lemma pairwise_filter {A} (R : A → A → Prop) (P : A → Prop)
    `{!∀ x, Decision (P x)} l :
  pairwise R l → pairwise R (filter P l).
Proof.
  induction l as [|y l IH]; simpl; [done|]. intros [Hy Hl].
  rewrite filter_cons. destruct (decide (P y)); simpl; [|by apply IH].
  split; [|by apply IH].
  apply Forall_forall. intros z Hz. apply list_elem_of_filter in Hz as [_ Hz].
  by eapply Forall_forall in Hy.
Qed.

Lemma Forall_filter_keep {A} (Q P : A → Prop) `{!∀ x, Decision (P x)} l :
  Forall Q l → Forall Q (filter P l).
Proof.
  rewrite !Forall_forall. intros HQ x Hx.
  apply list_elem_of_filter in Hx as [_ Hx]. by apply HQ.
Qed.

Lemma pairwise_weaken {A} (R R' : A → A → Prop) l :
  (∀ x y, R x y → R' x y) → pairwise R l → pairwise R' l.
Proof.
  intros HR. induction l as [|y l IH]; simpl; [done|]. intros [Hy Hl].
  split; [|by apply IH]. eapply Forall_impl; [exact Hy | apply HR].
Qed.

Lemma pairwise_lookup {A} (R : A → A → Prop) l i j a b :
  (∀ x y, R x y → R y x) → pairwise R l →
  l !! i = Some a → l !! j = Some b → i ≠ j → R a b.
Proof.
  intros Hsym. revert i j. induction l as [|y l IH]; intros i j; [done|].
  simpl. intros [Hy Hl] Hi Hj Hne. destruct i as [|i], j as [|j]; simpl in *.
  - done.
  - injection Hi as ->. eapply Forall_forall in Hy; [exact Hy|].
    by eapply list_elem_of_lookup_2.
  - injection Hj as ->. apply Hsym. eapply Forall_forall in Hy; [exact Hy|].
    by eapply list_elem_of_lookup_2.
  - eapply IH; eauto.
Qed.

#[global] Instance keeps_catalog_preorder : PreOrder keeps_catalog.
Proof.
  split; [intros st H; exact H|]. intros st1 st2 st3 H12 H23 H.
  by apply H23, H12.
Qed.

Lemma catalog_ok_same st st' :
  fs st' = fs st → session st' = session st → keeps_catalog st st'.
Proof. unfold keeps_catalog, catalog_ok. by intros -> ->. Qed.

Lemma catalog_ok_unlink st p : keeps_catalog st (set_fs (delete p) st).
Proof.
  assert (Hsub : ∀ q n, delete p (fs st) !! q = Some n → fs st !! q = Some n).
  { intros q n. rewrite lookup_delete_Some. tauto. }
  intros (Hsz & Hext & Hpw). split; [|split]; simpl; [|done|].
  - eapply Forall_impl; [exact Hsz|]. intros e He c Hc. by apply He, Hsub.
  - eapply pairwise_weaken; [|exact Hpw].
    intros e1 e2 H12 c H1 H2. apply (H12 c); by apply Hsub.
Qed.

Lemma catalog_ok_row_deleted st t :
  keeps_catalog st (set_session (filter (λ r, id r ≠ id t)) st).
Proof.
  intros (Hsz & Hext & Hpw). split; [|split]; simpl.
  - by apply Forall_filter_keep.
  - by apply Forall_filter_keep.
  - by apply pairwise_filter.
Qed.

(** A new row for a file that differs from every row of its bucket. *)
Lemma catalog_ok_row_added st root file ext c :
  get_extension file = Some ext →
  fs st !! join root file = Some (FileNode c) →
  Forall (λ t, differ (fs st) (join root file) (full_path t))
    (bucket (Z.of_nat (length c)) ext (session st)) →
  keeps_catalog st
    (set_session (λ rows, rows ++ [mkFile (next_id rows) (join root file) ext
                                     (Z.of_nat (length c))]) st).
Proof.
  intros Hext Hcur Hdiff (Hsz & Hexts & Hpw). split; [|split]; simpl.
  - apply Forall_app. split; [done|]. constructor; [|constructor].
    intros c'. simpl. rewrite Hcur. by intros [= ->].
  - apply Forall_app. split; [done|]. constructor; [|constructor].
    by exists root, file.
  - apply pairwise_snoc; [done|]. apply Forall_forall. intros e He c'.
    simpl. rewrite Hcur. intros He' [= <-] Heq.
    eapply Forall_forall in Hsz; [|exact He].
    eapply Forall_forall in Hdiff as (_ & _ & Hne).
    + apply Hne. by exists c.
    + apply list_elem_of_filter. split; [|done]. split; [|done].
      by apply Hsz.
Qed.

Lemma catalog_ok_dir_row_added st p ext sz :
  fs st !! p = Some DirNode →
  (∃ root file, p = join root file ∧ get_extension file = Some ext) →
  keeps_catalog st
    (set_session (λ rows, rows ++ [mkFile (next_id rows) p ext sz]) st).
Proof.
  intros Hdir Hname (Hsz & Hexts & Hpw). split; [|split]; simpl.
  - apply Forall_app. split; [done|]. constructor; [|constructor].
    intros c'. simpl. by rewrite Hdir.
  - apply Forall_app. split; [done|]. by constructor; [|constructor].
  - apply pairwise_snoc; [done|]. apply Forall_forall. intros e He c'.
    simpl. by rewrite Hdir.
Qed.

(** How the loop over the rows can end: with no match, after comparing
    unequal with every row; in the branch [if is_dup]; or with the
    exception of a comparison. *)
Lemma rows_loop_cases on_dup cur rows skip st r st' :
  rows_loop on_dup cur rows skip st = (r, st') →
  (∃ es, r = Ok (false, skip) ∧ st' = log es st ∧
         Forall (λ t, differ (fs st) cur (full_path t)) rows) ∨
  (∃ es e rd, on_dup e (log es st) = (rd, st') ∧
              r = match rd with
                  | Ok s => Ok (true, s)
                  | Raise x => Raise x
                  end) ∨
  (∃ es x, r = Raise x ∧ st' = log es st).
Proof.
  revert st. induction rows as [|t rows IH]; intros st; simpl.
  - intros [= <- <-]. left. exists []. by rewrite log_nil.
  - unfold bind at 1.
    destruct (filecmp_cmp cur (full_path t) st) as [[[]|x] st1] eqn:Hcmp;
      pose proof (filecmp_cmp_state cur (full_path t) st) as Hst;
      rewrite Hcmp in Hst; simpl in Hst; subst st1.
    + unfold bind at 1. intros Hd. right. left.
      exists [Cmp cur (full_path t)], t.
      rewrite log_cons, log_nil.
      destruct (on_dup t _) as [[s|x] st2]; injection Hd as <- <-; eauto.
    + apply filecmp_cmp_Ok in Hcmp. intros Hrec.
      apply IH in Hrec
        as [(es & -> & -> & Hdiff) | [(es & e & rd & Hd & ->) | (es & x & -> & ->)]].
      * left. exists (Cmp cur (full_path t) :: es). rewrite log_cons.
        split; [done|]. split; [done|]. by constructor.
      * right. left. exists (Cmp cur (full_path t) :: es), e, rd.
        by rewrite log_cons.
      * right. right. exists (Cmp cur (full_path t) :: es), x.
        by rewrite log_cons.
    + intros [= <- <-]. right. right. exists [Cmp cur (full_path t)], x.
      by rewrite log_cons, log_nil.
Qed.

Section Catalog.
Let G_any : ∀ e, e ≠ OutOfFuel → any_exn e := λ _ _, I.
Let R_event : ∀ st e, keeps_catalog st (add_event e st) :=
  λ st e, catalog_ok_same st _ eq_refl eq_refl.
Let R_stdin : ∀ st l, keeps_catalog st (set_stdin l st) :=
  λ st l, catalog_ok_same st _ eq_refl eq_refl.
Let R_stats : ∀ st f, keeps_catalog st (set_dir_stats f st) :=
  λ st f, catalog_ok_same st _ eq_refl eq_refl.

Lemma catalog_ok_log es st : catalog_ok st → catalog_ok (log es st).
Proof. by apply catalog_ok_same. Qed.

Lemma examine_file_keeps_catalog d confirm wt root file skip :
  respects keeps_catalog any_exn (examine_file d confirm wt root file skip).
Proof.
  intros st. split; [|done]. intros Hok. unfold examine_file.
  destruct (get_extension file) as [ext|] eqn:Hext; [|done].
  unfold bind at 1, ret. simpl.
  unfold bind at 1, os_path_getsize. unfold bind at 1, gets. simpl.
  destruct (fs st !! join root file) as [n|] eqn:Hcur; [|done].
  set (sz := match n with
             | FileNode c => Z.of_nat (length c)
             | DirNode => dir_st_size
             end).
  assert (Hsz : (match n with
                 | FileNode c => ret (Z.of_nat (length c))
                 | DirNode => ret dir_st_size
                 end) st = (Ok sz, st)) by (by destruct n).
  rewrite Hsz. clear Hsz.
  unfold bind at 1, update_DirStats, modify. simpl.
  set (st1 := set_dir_stats (alter (count_file sz) d) st).
  assert (Hok1 : catalog_ok st1) by (by apply R_stats).
  unfold bind at 1, session_query, gets. simpl.
  fold (bucket sz ext (session st)).
  unfold bind at 1.
  destruct (rows_loop _ _ _ _ st1) as [r st2] eqn:Hloop.
  apply rows_loop_cases in Hloop
    as [(es & -> & -> & Hdiff) | [(es & e & rd & Hd & ->) | (es & x & -> & ->)]].
  - destruct wt; simpl; [|by apply catalog_ok_log].
    unfold bind, session_add, modify, ret. simpl.
    destruct n as [c|].
    + apply (catalog_ok_row_added (log es st1) root file ext c);
        [done | done | done | by apply catalog_ok_log].
    + apply (catalog_ok_dir_row_added (log es st1));
        [done | by exists root, file | by apply catalog_ok_log].
  - pose proof (respects_on_duplicate keeps_catalog any_exn G_any
                  R_event R_stdin catalog_ok_unlink R_stats
                  catalog_ok_row_deleted d confirm wt (join root file) sz e
                  (log es st1)) as [Hkeep _].
    rewrite Hd in Hkeep. simpl in Hkeep.
    assert (catalog_ok st2) by (by apply Hkeep, catalog_ok_log).
    destruct rd as [s|x]; [|done].
    simpl. rewrite andb_false_r. done.
  - by apply catalog_ok_log.
Qed.

Lemma walk_dirs_keeps_catalog dirs confirm wt :
  respects keeps_catalog any_exn (walk_dirs dirs confirm wt).
Proof.
  apply (respects_walk_dirs _ _ G_any R_stats).
  - intros A d body acc Hb.
    apply (respects_for_os_walk_cut keeps_catalog any_exn);
      [exact I | exact Hb].
  - intros. apply examine_file_keeps_catalog.
Qed.
End Catalog.

Lemma told_apart_sym m e1 e2 : told_apart m e1 e2 → told_apart m e2 e1.
Proof. intros H c H2 H1 Heq. by apply (H c H1 H2). Qed.

Lemma catalog_ok_unique st : catalog_ok st → unique_ext_content st.
Proof.
  intros (_ & _ & Hpw) i j e1 e2 c H1 H2 Hne Hc1 Hc2.
  by apply (pairwise_lookup _ _ i j e1 e2 (told_apart_sym (fs st)) Hpw H1 H2
              Hne c).
Qed.

Lemma examine_file_no_match d confirm root file skip st ext c :
  get_extension file = Some ext →
  fs st !! join root file = Some (FileNode c) →
  Forall (λ t, differ (fs st) (join root file) (full_path t))
    (bucket (Z.of_nat (length c)) ext (session st)) →
  ∃ st', examine_file d confirm true root file skip st = (Ok skip, st') ∧
         fs st' = fs st ∧
         session st' =
           session st ++ [mkFile (next_id (session st)) (join root file) ext
                            (Z.of_nat (length c))].
Proof.
  intros Hext Hcur Hdiff. eexists. unfold examine_file. rewrite Hext.
  unfold bind at 1, ret. simpl.
  unfold bind at 1, os_path_getsize. unfold bind at 1, gets. simpl.
  rewrite Hcur. unfold ret. simpl.
  unfold bind at 1, update_DirStats, modify. simpl.
  unfold bind at 1, session_query, gets. simpl.
  fold (bucket (Z.of_nat (length c)) ext (session st)).
  unfold bind at 1.
  match goal with
  | |- context [rows_loop ?f ?cur ?rows ?sk ?s] =>
      pose proof (rows_loop_first_equal f cur rows [] sk s Hdiff I) as Hloop
  end.
  rewrite app_nil_r in Hloop. rewrite Hloop.
  unfold bind, session_add, modify. simpl. done.
Qed.

(** C2, amended.  The walk of the target roots is never cut off by its
    depth bound, and after it, however it ended,
    two rows of the table whose files are on disk with the same bytes
    have different extensions, and every row records the extension of the
    name of its file and the size of the file.  A file that has the bytes
    of a row of its size and extension gets no row, whatever the gate
    does; a regular file that differs from all rows of its size and
    extension gets one row, at the end of the table. *)
Theorem table_unique_within_extension :
  (∀ files lines roots confirm,
     let st' := (walk_dirs roots confirm true (start files lines)).2 in
     (walk_dirs roots confirm true (start files lines)).1 ≠ Raise OutOfFuel ∧
     unique_ext_content st' ∧
     Forall extension_recorded (session st') ∧
     Forall (size_recorded (fs st')) (session st')) ∧
  (∀ d confirm root file skip st sz e r st',
     detects st root file sz e →
     examine_file d confirm true root file skip st = (r, st') →
     session st' = session st) ∧
  (∀ d confirm root file skip st ext c,
     get_extension file = Some ext →
     fs st !! join root file = Some (FileNode c) →
     Forall (λ t, differ (fs st) (join root file) (full_path t))
       (bucket (Z.of_nat (length c)) ext (session st)) →
     ∃ st', examine_file d confirm true root file skip st = (Ok skip, st') ∧
            fs st' = fs st ∧
            session st' =
              session st ++ [mkFile (next_id (session st)) (join root file)
                               ext (Z.of_nat (length c))]).
Proof.
  split; [|split].
  - intros files lines roots confirm st'.
    assert (Hok : catalog_ok st').
    { apply (walk_dirs_keeps_catalog roots confirm true (start files lines)).
      split; [|split]; simpl; by constructor. }
    split.
    { intros Hcut.
      by apply (walk_dirs_shrinks roots confirm true (start files lines))
        in Hcut. }
    split; [by apply catalog_ok_unique|]. by destruct Hok as (? & ? & ?).
  - intros d confirm root file skip st sz e r st' Hdet.
    destruct (examine_file_on_match d confirm true root file skip st sz e Hdet)
      as [es ->].
    unfold on_duplicate. unfold bind at 1, update_DirStats, modify. simpl.
    intros Hg. by apply remove_with_confirm_frame in Hg as (-> & _).
  - intros. by apply examine_file_no_match.
Qed.

Lemma table_unique_within_extension_witness :
  detects st_match ["a"; "b"] "x" 3 row_y ∧
  session (examine_file ["a"] true true ["a"; "b"] "x" None st_match).2
    = session st_match.
Proof.
  split; [exact st_match_detects|].
  exact (proj1 (proj2 table_unique_within_extension) ["a"] true
           ["a"; "b"] "x" None st_match 3%Z row_y _ _ st_match_detects
           (surjective_pairing _)).
Defined.

(** Rows of a table in good order have distinct paths, as far as their
    files are on disk: the premise of C9 on the row that is matched. *)
Lemma catalog_ok_distinct_paths st e r c :
  catalog_ok st →
  e ∈ session st → r ∈ session st →
  fs st !! full_path e = Some (FileNode c) →
  full_path r = full_path e → r = e.
Proof.
  intros (_ & Hext & Hpw) He Hr Hc Hp.
  apply list_elem_of_lookup in He as [j Hj].
  apply list_elem_of_lookup in Hr as [i Hi].
  destruct (decide (i = j)) as [->|Hne]; [congruence|].
  exfalso.
  apply (pairwise_lookup _ _ i j r e (told_apart_sym (fs st)) Hpw Hi Hj Hne c);
    [by rewrite Hp | done |].
  assert (Her : extension_recorded r)
    by (eapply Forall_forall; [exact Hext | by eapply list_elem_of_lookup_2]).
  assert (Hee : extension_recorded e)
    by (eapply Forall_forall; [exact Hext | by eapply list_elem_of_lookup_2]).
  destruct Her as (root1 & file1 & Hp1 & Hx1).
  destruct Hee as (root2 & file2 & Hp2 & Hx2).
  rewrite Hp1, Hp2 in Hp. apply app_inj_tail in Hp as [_ ->]. congruence.
Qed.

(** X21.  What the prompt does with the other answers: a line whose first
    letter, in lower case, is none of [y], [n], [q] and, for a file, [s],
    is answered by the usage hint and a new prompt. *)
Lemma prompt_loop_asks_again is_dir p a line rest st :
  PyStr.lower_ascii a ≠ "y"%char →
  PyStr.lower_ascii a ≠ "n"%char →
  PyStr.lower_ascii a ≠ "q"%char →
  (is_dir = true ∨ PyStr.lower_ascii a ≠ "s"%char) →
  prompt_loop is_dir p (String a line :: rest) st =
    prompt_loop is_dir p rest
      (add_event Hint (set_stdin rest (add_event (Prompt p is_dir) st))).
Proof.
  intros Hy Hn Hq Hs. simpl. unfold bind at 1, emit, modify. simpl.
  unfold bind at 1, modify. simpl.
  apply Ascii.eqb_neq in Hq. rewrite Hq.
  assert (Hskip : negb is_dir
                  && (if (PyStr.lower_ascii a =? "s")%char then true else false)
                  = false).
  { destruct Hs as [-> | Hs]; [done|].
    apply Ascii.eqb_neq in Hs. rewrite Hs. by rewrite andb_false_r. }
  rewrite Hskip.
  assert (Hin : PyStr.str_in (String (PyStr.lower_ascii a) EmptyString) "yn"
                = false).
  { unfold PyStr.str_in. simpl.
    destruct (ascii_dec (PyStr.lower_ascii a) "y"); [done|].
    destruct (ascii_dec (PyStr.lower_ascii a) "n"); [done|]. done. }
  rewrite Hin. simpl. unfold bind at 1, emit, modify. done.
Qed.

(** ** Where [get_extension] agrees with its docstring *)

Lemma rfind_from_spec c s i last :
  (last < i)%Z →
  PyStr.rfind_from c s i last = last ∨
  ((i ≤ PyStr.rfind_from c s i last < i + Z.of_nat (String.length s))%Z ∧
   String.get (Z.to_nat (PyStr.rfind_from c s i last - i)) s = Some c).
Proof.
  revert i last. induction s as [|a s IH]; intros i last Hlt; simpl;
    [by left|].
  destruct (Ascii.eqb_spec a c) as [->|Hne].
  - destruct (IH (i + 1)%Z i ltac:(lia)) as [-> | [Hr Hg]].
    + right. split; [lia|]. by rewrite Z.sub_diag.
    + right. split; [lia|].
      replace (Z.to_nat (PyStr.rfind_from c s (i + 1) i - i))
        with (S (Z.to_nat (PyStr.rfind_from c s (i + 1) i - (i + 1))))
        by lia.
      exact Hg.
  - destruct (IH (i + 1)%Z last ltac:(lia)) as [-> | [Hr Hg]]; [by left|].
    right. split; [lia|].
    replace (Z.to_nat (PyStr.rfind_from c s (i + 1) last - i))
      with (S (Z.to_nat (PyStr.rfind_from c s (i + 1) last - (i + 1))))
      by lia.
    exact Hg.
Qed.

Lemma substring_at_get n m s c :
  String.get n s = Some c → ∃ t, substring n (S m) s = String c t.
Proof.
  revert s. induction n as [|n IH]; intros [|a s]; simpl; try discriminate.
  - intros [= ->]. eauto.
  - apply IH.
Qed.

Lemma substring_whole s : substring 0 (String.length s) s = s.
Proof. induction s as [|a s IH]; simpl; [done | by rewrite IH]. Qed.

Lemma substring_0_0 s : substring 0 0 s = EmptyString.
Proof. by destruct s. Qed.

(** X22.  For a non-empty name without a slash that does not start with two
    dots, [get_extension] returns the text from the rightmost dot on, and
    the empty string when there is no dot. *)
Lemma get_extension_agrees file :
  file ≠ EmptyString →
  PyStr.rfind "/"%char file = (-1)%Z →
  PyStr.slice_to file 2 ≠ ".." →
  get_extension file = Some (spec_extension file).
Proof.
  intros Hne Hsep Hdots. destruct file as [|a s]; [done|]. clear Hne.
  assert (Hnd : a = "."%char → ∀ b s', s = String b s' → b ≠ "."%char).
  { intros -> b s' -> ->. apply Hdots. unfold PyStr.slice_to. simpl.
    by rewrite substring_0_0. }
  clear Hdots.
  unfold get_extension, spec_extension, PyStr.splitext. rewrite Hsep.
  set (p := String a s) in *.
  set (d := PyStr.rfind "."%char p).
  assert (Hd : d = (-1)%Z ∨
               ((0 ≤ d < Z.of_nat (String.length p))%Z ∧
                String.get (Z.to_nat d) p = Some "."%char)).
  { destruct (rfind_from_spec "."%char p 0 (-1) ltac:(lia)) as [H | [Hr Hg]];
      [by left | right].
    fold (PyStr.rfind "."%char p) in Hr, Hg. fold d in Hr, Hg.
    rewrite Z.sub_0_r in Hg. split; [lia | done]. }
  assert (Hext : d ≠ (-1)%Z → ∃ t, PyStr.slice_from p d = String "."%char t).
  { intros Hd'. destruct Hd as [? | [Hr Hg]]; [done|].
    unfold PyStr.slice_from.
    replace (String.length p - Z.to_nat d)%nat
      with (S (String.length p - Z.to_nat d - 1)) by lia.
    by apply substring_at_get. }
  destruct (Ascii.eqb_spec a ".") as [-> | Ha].
  - (* the name starts with a dot *)
    assert (Hd0 : d = 0%Z ∨ (2 ≤ d)%Z).
    { unfold d, p, PyStr.rfind. simpl.
      destruct s as [|b s']; simpl; [by left|].
      destruct (Ascii.eqb_spec b ".") as [-> | Hb];
        [by destruct (Hnd eq_refl _ _ eq_refl)|].
      change (0 + 1 + 1)%Z with 2%Z.
      destruct (rfind_from_spec "."%char s' 2 0 ltac:(lia)) as [-> | [Hr _]];
        [by left | right; lia]. }
    destruct Hd0 as [Hd0 | Hd2].
    + rewrite Hd0. simpl. unfold PyStr.slice_from. simpl.
      by rewrite substring_whole.
    + destruct (Hext ltac:(lia)) as [t Ht].
      replace (-1 <? d)%Z with true by (symmetry; apply Z.ltb_lt; lia).
      replace (d <? 0)%Z with false by (symmetry; apply Z.ltb_ge; lia).
      replace (Z.to_nat (d - (-1 + 1))) with (S (S (Z.to_nat d - 2))) by lia.
      destruct s as [|b s'].
      { unfold d, p, PyStr.rfind in Hd2. simpl in Hd2. lia. }
      destruct (Ascii.eqb_spec b ".") as [-> | Hb];
        [by destruct (Hnd eq_refl _ _ eq_refl)|].
      simpl. unfold PyStr.slice1. simpl. rewrite substring_0_0. simpl.
      apply Ascii.eqb_neq in Hb. rewrite Hb. simpl.
      fold p. by rewrite Ht.
  - (* the name starts with another character *)
    assert (Hd1 : d = (-1)%Z ∨ (1 ≤ d)%Z).
    { unfold d, p, PyStr.rfind. simpl.
      apply Ascii.eqb_neq in Ha. rewrite Ha.
      change (0 + 1)%Z with 1%Z.
      destruct (rfind_from_spec "."%char s 1 (-1) ltac:(lia)) as [-> | [Hr _]];
        [by left | right; lia]. }
    apply Ascii.eqb_neq in Ha.
    destruct Hd1 as [Hd1 | Hd1].
    + rewrite Hd1. simpl. unfold PyStr.slice_to. simpl. by rewrite Ha.
    + replace (-1 <? d)%Z with true by (symmetry; apply Z.ltb_lt; lia).
      replace (d <? 0)%Z with false by (symmetry; apply Z.ltb_ge; lia).
      replace (Z.to_nat (d - (-1 + 1))) with (S (Z.to_nat d - 1)) by lia.
      simpl. unfold PyStr.slice1. simpl. rewrite substring_0_0. simpl.
      rewrite Ha. simpl. fold p.
      destruct (String.eqb (PyStr.slice_from p d) EmptyString); [|done].
      unfold PyStr.slice_to.
      replace (Z.to_nat d) with (S (Z.to_nat d - 1)) by lia.
      simpl. by rewrite Ha.
Qed.

(** * Further properties *)

(** ** [is_same_or_subdir] *)

Lemma prefix_snoc_cases (p c : path) x :
  p `prefix_of` c ++ [x] ↔ p = c ++ [x] ∨ p `prefix_of` c.
Proof.
  split.
  - intros [k Hk]. destruct k as [|y k _] using rev_ind.
    + left. by rewrite app_nil_r in Hk.
    + right. rewrite app_assoc in Hk. apply app_inj_tail in Hk as [-> _].
      by exists k.
  - intros [-> | Hp]; [done | by apply prefix_app_r].
Qed.

Lemma closed_parent m (c : path) x :
  closed m → is_Some (m !! (c ++ [x])) → m !! c = Some DirNode.
Proof.
  intros Hcl Hx. specialize (Hcl (c ++ [x])). unfold parent in Hcl.
  rewrite removelast_last in Hcl. apply Hcl; [|done]. by destruct c.
Qed.

Lemma closed_prefix m (q k : path) :
  closed m → is_Some (m !! (q ++ k)) → is_Some (m !! q).
Proof.
  intros Hcl. induction k as [|x k IH] using rev_ind.
  - by rewrite app_nil_r.
  - rewrite app_assoc. intros Hx. apply IH.
    by rewrite (closed_parent m (q ++ k) x).
Qed.

Lemma samefile_both p q st :
  is_Some (fs st !! p) → is_Some (fs st !! q) →
  samefile p q st = (Ok (bool_decide (p = q)), st).
Proof.
  intros Hp Hq. unfold samefile, path_exists, bind, gets. simpl.
  rewrite (bool_decide_eq_true_2 (is_Some (fs st !! p))) by done.
  by rewrite (bool_decide_eq_true_2 (is_Some (fs st !! q))) by done.
Qed.

Lemma resolve_strict_exists p st :
  is_Some (fs st !! p) → resolve_strict p st = (Ok p, st).
Proof.
  intros Hp. unfold resolve_strict, path_exists, bind, gets. simpl.
  by rewrite bool_decide_eq_true_2.
Qed.

Lemma ancestors_loop_prefix st (c p : path) :
  closed (fs st) → is_Some (fs st !! c) → is_Some (fs st !! p) →
  ancestors_loop (length c) c p st
    = (Ok (bool_decide (c ≠ [] ∧ p `prefix_of` removelast c)), st).
Proof.
  intros Hcl Hc Hp. induction c as [|x c IH] using rev_ind; simpl.
  - done.
  - rewrite length_app. simpl. rewrite Nat.add_1_r. simpl.
    rewrite removelast_last.
    assert (Hc0 : is_Some (fs st !! c))
      by (by rewrite (closed_parent _ c x)).
    unfold bind at 1. rewrite samefile_both by done.
    destruct (decide (c = p)) as [<- | Heq].
    + rewrite (bool_decide_eq_true_2 (c = c)) by done.
      rewrite bool_decide_eq_true_2; [done|]. split; [|done].
      by destruct c.
    + rewrite (bool_decide_eq_false_2 (c = p)) by done.
      rewrite IH by done. f_equal. f_equal. apply bool_decide_ext.
      split.
      * intros [Hne Hpre]. split; [by destruct c|].
        destruct c as [|y c _] using rev_ind; [done|].
        rewrite removelast_last in Hpre. by apply prefix_app_r.
      * intros [_ Hpre]. destruct c as [|y c _] using rev_ind.
        { apply prefix_nil_inv in Hpre. by subst p. }
        apply prefix_snoc_cases in Hpre as [Hpre | Hpre]; [by subst p|].
        split; [by destruct c|]. by rewrite removelast_last.
Qed.

Lemma is_same_or_subdir_closed st (maybe_child maybe_parent : path) :
  closed (fs st) →
  is_Some (fs st !! maybe_child) → is_Some (fs st !! maybe_parent) →
  is_same_or_subdir maybe_child maybe_parent st
    = (Ok (bool_decide (maybe_parent `prefix_of` maybe_child)), st).
Proof.
  intros Hcl Hc Hp. unfold is_same_or_subdir.
  unfold bind at 1. rewrite resolve_strict_exists by done.
  unfold bind at 1. rewrite resolve_strict_exists by done.
  unfold bind at 1. rewrite samefile_both by done.
  destruct (decide (maybe_child = maybe_parent)) as [<- | Heq].
  - rewrite (bool_decide_eq_true_2 (maybe_child = maybe_child)) by done.
    by rewrite bool_decide_eq_true_2.
  - rewrite (bool_decide_eq_false_2 (maybe_child = maybe_parent)) by done.
    rewrite ancestors_loop_prefix by done. f_equal. f_equal.
    apply bool_decide_ext.
    destruct maybe_child as [|x c _] using rev_ind.
    + split; [tauto|]. intros Hpre. apply prefix_nil_inv in Hpre. by subst.
    + rewrite removelast_last, prefix_snoc_cases. split.
      * intros [_ ?]. by right.
      * intros [-> | ?]; [done|]. split; [by destruct c | done].
Qed.

(** X1.  On a file system in which every entry lies in a directory, and
    for two paths that exist, [is_same_or_subdir] answers whether the
    second path is an initial segment of the first, and leaves the state
    as it was. *)
Theorem is_same_or_subdir_is_prefix_test st (maybe_child maybe_parent : path) :
  closed (fs st) →
  is_Some (fs st !! maybe_child) → is_Some (fs st !! maybe_parent) →
  is_same_or_subdir maybe_child maybe_parent st
    = (Ok (bool_decide (maybe_parent `prefix_of` maybe_child)), st).
Proof. apply is_same_or_subdir_closed. Qed.

Lemma closedb_closed m : closedb m = true → closed m.
Proof.
  unfold closedb. rewrite forallb_forall. intros Hall p Hne [n Hn].
  specialize (Hall (p, n)). simpl in Hall.
  destruct p as [|x p]; [done|].
  destruct (m !! parent (x :: p)) as [[]|] eqn:Hpar; try done;
    exfalso; (assert (false = true) as Hf; [|discriminate Hf]);
    apply Hall, list_elem_of_In; by apply elem_of_map_to_list.
Qed.

Lemma is_same_or_subdir_is_prefix_test_witness :
  closed fs_empty_dir ∧
  is_same_or_subdir ["t"; "d"] ["t"] (start fs_empty_dir [])
    = (Ok true, start fs_empty_dir []).
Proof.
  assert (Hcl : closed fs_empty_dir) by (by apply closedb_closed).
  split; [exact Hcl|].
  exact (is_same_or_subdir_is_prefix_test (start fs_empty_dir [])
           ["t"; "d"] ["t"] Hcl (mk_is_Some _ _ eq_refl)
           (mk_is_Some _ _ eq_refl)).
Defined.



(** ** [target_file_dir] *)

Lemma target_file_dir_loop_nearest st n (tfp : path) :
  (length tfp ≤ n)%nat →
  match (target_file_dir_loop n tfp st).1 with
  | Ok owner =>
      is_Some (dir_stats st !! owner) ∧ owner `prefix_of` tfp ∧
      ∀ q, q `prefix_of` tfp → is_Some (dir_stats st !! q) →
           q `prefix_of` owner
  | Raise e =>
      e = RuntimeError ∧ ∀ q, q `prefix_of` tfp → dir_stats st !! q = None
  end.
Proof.
  revert tfp. induction n as [|n IH]; intros tfp Hlen; simpl;
    unfold bind, gets; simpl; case_bool_decide as Hk; simpl; try done.
  - destruct tfp; [|simpl in Hlen; lia]. simpl. split; [done|].
    intros q Hq. apply prefix_nil_inv in Hq as ->.
    by apply eq_None_not_Some.
  - case_bool_decide as Hroot; simpl.
    + destruct tfp as [|x tfp _] using rev_ind.
      * split; [done|]. intros q Hq. apply prefix_nil_inv in Hq as ->.
        by apply eq_None_not_Some.
      * unfold parent in Hroot. rewrite removelast_last in Hroot.
        apply (f_equal length) in Hroot. rewrite length_app in Hroot.
        simpl in Hroot. lia.
    + destruct tfp as [|x tfp _] using rev_ind; [done|].
      unfold parent. rewrite removelast_last.
      rewrite length_app in Hlen. simpl in Hlen.
      specialize (IH tfp ltac:(lia)).
      destruct ((target_file_dir_loop n tfp st).1) as [owner|e].
      * destruct IH as (Ho & Hpre & Hnear). split; [done|].
        split; [by apply prefix_app_r|].
        intros q Hq Hreg. apply prefix_snoc_cases in Hq as [-> | Hq];
          [done | by apply Hnear].
      * destruct IH as [-> Hnone]. split; [done|].
        intros q Hq. apply prefix_snoc_cases in Hq as [-> | Hq];
          [by apply eq_None_not_Some | by apply Hnone].
Qed.

(** X3.  [target_file_dir] does not change the state.  It returns the
    nearest directory above the file of the row that has an entry in
    [dir_stats]: an initial segment of the directory of the file, with an
    entry, and every other such segment with an entry is an initial
    segment of it.  It raises [RuntimeError], and nothing else, exactly
    when no directory above the file has an entry. *)
Theorem target_file_dir_nearest_root t st :
  (target_file_dir t st).2 = st ∧
  match (target_file_dir t st).1 with
  | Ok owner =>
      is_Some (dir_stats st !! owner) ∧
      owner `prefix_of` parent (full_path t) ∧
      ∀ q, q `prefix_of` parent (full_path t) →
           is_Some (dir_stats st !! q) → q `prefix_of` owner
  | Raise e =>
      e = RuntimeError ∧
      ∀ q, q `prefix_of` parent (full_path t) → dir_stats st !! q = None
  end.
Proof.
  split; [apply target_file_dir_loop_pure|].
  by apply target_file_dir_loop_nearest.
Qed.

(** ** [get_extension] on every name *)

Lemma splitext_loop_base p d i n :
  p ≠ EmptyString → (0 ≤ i)%Z → (i + Z.of_nat n ≤ d)%Z →
  (PyStr.splitext_loop p d i n).1 ≠ EmptyString.
Proof.
  intros Hp. revert i. induction n as [|n IH]; intros i Hi Hd; simpl;
    [done|].
  destruct (negb _).
  - simpl. unfold PyStr.slice_to.
    replace (Z.to_nat d) with (S (Z.to_nat d - 1)) by lia.
    by destruct p.
  - apply IH; lia.
Qed.

(** X4.  [get_extension] raises [IndexError] on the empty name and on no
    other name, with or without a slash in it. *)
Theorem get_extension_fails_only_on_empty_name file :
  get_extension file = None ↔ file = EmptyString.
Proof.
  split; [|by intros ->].
  intros Hnone. destruct (decide (file = EmptyString)) as [|Hne]; [done|].
  exfalso. unfold get_extension in Hnone.
  assert (Hbase : (PyStr.splitext file).1 ≠ EmptyString).
  { unfold PyStr.splitext.
    destruct (rfind_from_spec "/"%char file 0 (-1) ltac:(lia)) as [Hs | [Hs _]];
      fold (PyStr.rfind "/"%char file) in Hs.
    - rewrite Hs. destruct (_ <? _)%Z eqn:Hlt; [|done].
      apply Z.ltb_lt in Hlt. apply splitext_loop_base; [done | lia | lia].
    - destruct (_ <? _)%Z eqn:Hlt; [|done].
      apply Z.ltb_lt in Hlt. apply splitext_loop_base; [done | lia | lia]. }
  destruct (PyStr.splitext file) as [base ext]. simpl in Hbase.
  destruct (String.eqb ext EmptyString); [|done]. by destruct base.
Qed.

(** ** The answers to the prompt *)

Lemma first_lower_head line c :
  PyStr.first_lower line = String c EmptyString →
  ∃ a l, line = String a l ∧ PyStr.lower_ascii a = c.
Proof. destruct line as [|a l]; [done|]. simpl. intros [= <-]. eauto. Qed.

(** X5.  An answer whose first letter is [q] or [Q] ends the program with
    exit status 0: one line is read, and nothing is removed. *)
Theorem remove_with_confirm_quit p st line rest :
  stdin st = line :: rest →
  PyStr.first_lower line = "q" →
  remove_with_confirm p true st =
    (Raise (SystemExit 0),
     mkState (fs st) rest (session st) (dir_stats st)
       (trace st ++
          [Gate p;
           Prompt p match fs st !! p with Some DirNode => true | _ => false end])).
Proof.
  intros Hin Hline. apply first_lower_head in Hline as (a & l & -> & Ha).
  unfold remove_with_confirm, path_is_dir, bind, emit, modify, gets. simpl.
  rewrite Hin. simpl. unfold bind, emit, modify. simpl.
  rewrite Ha. simpl. rewrite andb_false_r. simpl.
  unfold add_event, set_stdin. simpl. by rewrite <- app_assoc.
Qed.

Lemma remove_with_confirm_quit_witness :
  remove_with_confirm ["t"; "t1"] true (start fs_ro_sub ["Quit"; "y"]) =
    (Raise (SystemExit 0),
     mkState fs_ro_sub ["y"] [] ∅ [Gate ["t"; "t1"]; Prompt ["t"; "t1"] false]).
Proof.
  exact (remove_with_confirm_quit ["t"; "t1"] (start fs_ro_sub ["Quit"; "y"])
           "Quit" ["y"] eq_refl eq_refl).
Defined.

(** X6.  For a path that is not a directory, an answer whose first letter
    is [s] or [S] removes nothing and returns the directory of the path
    as the skip signal. *)
Theorem remove_with_confirm_skip p st line rest :
  fs st !! p ≠ Some DirNode →
  stdin st = line :: rest →
  PyStr.first_lower line = "s" →
  remove_with_confirm p true st =
    (Ok (Some (parent p)),
     mkState (fs st) rest (session st) (dir_stats st)
       (trace st ++ [Gate p; Prompt p false])).
Proof.
  intros Hnd Hin Hline. apply first_lower_head in Hline as (a & l & -> & Ha).
  assert (Hd : match fs st !! p with Some DirNode => true | _ => false end
               = false) by (by destruct (fs st !! p) as [[]|]).
  unfold remove_with_confirm, path_is_dir, bind, emit, modify, gets. simpl.
  rewrite Hin, Hd. simpl. unfold bind, emit, modify. simpl.
  rewrite Ha. simpl.
  unfold add_event, set_stdin. simpl. by rewrite <- app_assoc.
Qed.

Lemma remove_with_confirm_skip_witness :
  fs_ro_sub !! ["t"; "t1"] ≠ Some DirNode ∧
  remove_with_confirm ["t"; "t1"] true (start fs_ro_sub ["skip"]) =
    (Ok (Some ["t"]),
     mkState fs_ro_sub [] [] ∅ [Gate ["t"; "t1"]; Prompt ["t"; "t1"] false]).
Proof.
  assert (Hnd : fs (start fs_ro_sub ["skip"]) !! ["t"; "t1"] ≠ Some DirNode)
    by (vm_compute; discriminate).
  split; [exact Hnd|].
  exact (remove_with_confirm_skip ["t"; "t1"] (start fs_ro_sub ["skip"])
           "skip" [] Hnd eq_refl eq_refl).
Defined.

(** The gate without confirmation: what the path is decides. *)
Lemma remove_with_confirm_unasked p st :
  remove_with_confirm p false st =
    let st1 := add_event (Gate p) st in
    match fs st !! p with
    | Some (FileNode _) => (Ok None, set_fs (delete p) st1)
    | Some DirNode =>
        match children (fs st) p with
        | [] => (Ok None, set_fs (delete p) st1)
        | _ :: _ => (Raise (OSError ENOTEMPTY), st1)
        end
    | None => (Raise (OSError ENOENT), st1)
    end.
Proof.
  unfold remove_with_confirm, path_is_dir, bind, emit, modify, gets. simpl.
  destruct (fs st !! p) as [[c|]|] eqn:Hp; simpl.
  - unfold os_remove, bind, gets, modify. simpl. by rewrite Hp.
  - unfold os_rmdir, bind, gets, modify. simpl. rewrite Hp.
    by destruct (children (fs st) p).
  - unfold os_remove, bind, gets, modify, raise. simpl. by rewrite Hp.
Qed.


(** X8.  An answer whose first letter is [y] or [Y] makes the gate do what
    it does without confirmation: the same result and the same file
    system, one line of input later. *)
Theorem remove_with_confirm_yes p st line rest :
  stdin st = line :: rest →
  PyStr.first_lower line = "y" →
  (remove_with_confirm p true st).1 = (remove_with_confirm p false st).1 ∧
  fs (remove_with_confirm p true st).2
    = fs (remove_with_confirm p false st).2 ∧
  stdin (remove_with_confirm p true st).2 = rest.
Proof.
  intros Hin Hline. apply first_lower_head in Hline as (a & l & -> & Ha).
  rewrite remove_with_confirm_unasked.
  unfold remove_with_confirm, path_is_dir, bind, emit, modify, gets. simpl.
  rewrite Hin. simpl. unfold bind, emit, modify. simpl.
  rewrite Ha. simpl. rewrite andb_false_r. simpl.
  destruct (fs st !! p) as [[c|]|] eqn:Hp; simpl.
  - unfold os_remove, bind, gets, modify. simpl. by rewrite Hp.
  - unfold os_rmdir, bind, gets, modify. simpl. rewrite Hp.
    by destruct (children (fs st) p).
  - unfold os_remove, bind, gets, modify, raise. simpl. by rewrite Hp.
Qed.

Lemma remove_with_confirm_yes_witness :
  (remove_with_confirm ["t"; "t1"] true (start fs_ro_sub ["Yes"])).1 = Ok None ∧
  fs (remove_with_confirm ["t"; "t1"] true (start fs_ro_sub ["Yes"])).2
    !! ["t"; "t1"] = None.
Proof.
  destruct (remove_with_confirm_yes ["t"; "t1"] (start fs_ro_sub ["Yes"])
              "Yes" [] eq_refl eq_refl) as (Hr & Hfs & _).
  split; [by rewrite Hr | by rewrite Hfs].
Defined.

(** ** Invariants of a run

    [inv J V m] for the operations of the monad and for the loops. *)

Section Invariant.
Context (J : state → Prop).

Lemma inv_ret {A} (V : A → Prop) a : V a → inv J V (ret a).
Proof. intros Ha st HJ. split; [done|]. by intros a' [= <-]. Qed.

Lemma inv_raise {A} (V : A → Prop) e : inv J V (raise e).
Proof. intros st HJ. split; [done | discriminate]. Qed.

Lemma inv_gets {A} (V : A → Prop) (f : state → A) :
  (∀ st, J st → V (f st)) → inv J V (gets f).
Proof. intros Hf st HJ. split; [done|]. intros a [= <-]. by apply Hf. Qed.

Lemma inv_modify (f : state → state) :
  (∀ st, J st → J (f st)) → inv J any_value (modify f).
Proof. intros Hf st HJ. split; [by apply Hf | done]. Qed.

Lemma inv_pure {A} (m : M A) : (∀ st, (m st).2 = st) → inv J any_value m.
Proof. intros Hm st HJ. rewrite Hm. done. Qed.

Lemma inv_bind {A B} (V : A → Prop) (W : B → Prop) (m : M A) (f : A → M B) :
  inv J V m → (∀ a, V a → inv J W (f a)) → inv J W (bind m f).
Proof.
  intros Hm Hf st HJ. unfold bind.
  destruct (Hm st HJ) as [HJ' HV]. destruct (m st) as [[a|e] st']; simpl in *.
  - by apply Hf; [apply HV|].
  - split; [done | discriminate].
Qed.

Lemma inv_weaken {A} (V W : A → Prop) (m : M A) :
  (∀ a, V a → W a) → inv J V m → inv J W m.
Proof.
  intros HVW Hm st HJ. destruct (Hm st HJ) as [HJ' HV].
  split; [done|]. intros a Ha. by apply HVW, HV.
Qed.

Lemma inv_ignore_ENOTEMPTY (m : M unit) :
  inv J any_value m → inv J any_value (ignore_ENOTEMPTY m).
Proof.
  intros Hm st HJ. unfold ignore_ENOTEMPTY.
  destruct (Hm st HJ) as [HJ' _]. destruct (m st) as [[a|e] st']; simpl in *;
    [done|].
  by destruct e as [[]| | | | |].
Qed.

Lemma inv_for_each {A B} (P : B → Prop) (V : A → Prop) (l : list B)
    (body : B → A → M A) acc :
  Forall P l → V acc →
  (∀ x a, P x → V a → inv J V (body x a)) →
  inv J V (for_each l body acc).
Proof.
  intros Hl Hacc Hb. revert acc Hacc.
  induction Hl as [|x l Hx Hl IH]; intros acc Hacc; simpl.
  - by apply inv_ret.
  - apply (inv_bind V); [by apply Hb | intros a Ha; by apply IH].
Qed.

(** The body of a walk runs in the state in which its directory was
    listed, on a directory at or below the top of the walk. *)
Lemma inv_os_walk {A} (V : A → Prop) (top0 : path) fuel top
    (body : path → list string → list string → A → M A) acc :
  (∀ root dirs files a st,
     top0 `prefix_of` root → V a → J st →
     scandir (fs st) root = Some (dirs, files) →
     J (body root dirs files a st).2 ∧
     ∀ a', (body root dirs files a st).1 = Ok a' → V a') →
  top0 `prefix_of` top → V acc →
  inv J V (os_walk fuel top body acc).
Proof.
  intros Hb Htop Hacc st HJ.
  destruct (os_walk fuel top body acc st) as [r st'] eqn:Hw. simpl.
  revert top acc st r st' Htop Hacc HJ Hw.
  induction fuel as [|fuel IH]; intros top acc st r st' Htop Hacc HJ;
    simpl; unfold bind at 1, gets;
    destruct (scandir (fs st) top) as [[dirs files]|] eqn:Hs; simpl;
    try (intros [= <- <-]; split; [done|]; by intros a [= <-]).
  unfold bind at 1.
  destruct (Hb top dirs files acc st Htop Hacc HJ Hs) as [HJ1 HV1].
  destruct (body top dirs files acc st) as [[a|e] st1]; simpl in *;
    [|intros [= <- <-]; split; [done | discriminate]].
  specialize (HV1 a eq_refl). clear Hs HJ. revert a st1 HJ1 HV1.
  induction dirs as [|dname ds IHd]; intros a st1 HJ1 HV1; simpl.
  - intros [= <- <-]. split; [done|]. by intros a' [= <-].
  - unfold bind at 1.
    assert (Hsub : top0 `prefix_of` join top dname)
      by (unfold join; by apply prefix_app_r).
    destruct (os_walk fuel (join top dname) body a st1) as [r2 st2] eqn:Hw.
    apply IH in Hw as [HJ2 HV2]; [|done..].
    destruct r2 as [a2|e]; [|intros [= <- <-]; split; [done | discriminate]].
    apply IHd; [done | by apply HV2].
Qed.

Lemma inv_for_os_walk {A} (V : A → Prop) (d : path)
    (body : path → list string → list string → A → M A) acc :
  (∀ root dirs files a st,
     d `prefix_of` root → V a → J st →
     scandir (fs st) root = Some (dirs, files) →
     J (body root dirs files a st).2 ∧
     ∀ a', (body root dirs files a st).1 = Ok a' → V a') →
  V acc →
  inv J V (for_os_walk d body acc).
Proof.
  intros Hb Hacc. unfold for_os_walk.
  apply (inv_bind any_value); [by apply inv_gets|]. intros fuel _.
  by apply (inv_os_walk V d).
Qed.
End Invariant.

(** *** Functions that only read *)

Lemma is_same_or_subdir_state c p st : (is_same_or_subdir c p st).2 = st.
Proof.
  symmetry.
  apply (respects_is_same_or_subdir eq any_exn (λ _ _, I) c p st).
Qed.

Lemma check_dir_args_state target_dirs readonly_dirs st :
  (check_dir_args target_dirs readonly_dirs st).2 = st.
Proof.
  symmetry. revert st.
  assert (Hexit : ∀ A, respects eq any_exn (@raise A (SystemExit 1)))
    by (intros A; by apply (respects_raise eq any_exn)).
  assert (Hsub : ∀ pr, respects eq any_exn (exit_if_subdir pr)).
  { intros pr. unfold exit_if_subdir.
    apply (respects_bind eq any_exn);
      [apply (respects_is_same_or_subdir eq any_exn (λ _ _, I))|].
    intros []; [apply Hexit | apply (respects_ret eq any_exn)]. }
  assert (H : respects eq any_exn (check_dir_args target_dirs readonly_dirs)).
  { unfold check_dir_args.
    apply (respects_bind eq any_exn); [|intros _; apply (respects_bind eq any_exn)].
    - apply (respects_for_each eq any_exn). intros d [].
      unfold path_exists, path_is_dir.
      apply (respects_bind eq any_exn); [apply (respects_gets eq any_exn)|].
      intros []; simpl; [|apply Hexit].
      apply (respects_bind eq any_exn); [apply (respects_gets eq any_exn)|].
      intros []; simpl; [apply (respects_ret eq any_exn) | apply Hexit].
    - apply (respects_for_each eq any_exn). intros pr []. apply Hsub.
    - intros _. apply (respects_for_each eq any_exn). intros td [].
      apply (respects_for_each eq any_exn). intros ro []. apply Hsub. }
  intros st. apply H.
Qed.

Lemma dir_stats_item_known d st :
  is_Some (dir_stats st !! d) → dir_stats_item d st = (Ok tt, st).
Proof.
  intros [s Hs]. destruct st. unfold dir_stats_item, modify, set_dir_stats.
  simpl in *. by rewrite Hs.
Qed.

Lemma scandir_files (m : gmap path node) top dirs files file :
  scandir m top = Some (dirs, files) → file ∈ files →
  ∃ c, m !! join top file = Some (FileNode c).
Proof.
  unfold scandir. destruct (m !! top) as [[]|]; try done.
  intros [= _ <-] Hin.
  apply list_elem_of_fmap in Hin as ([name n] & -> & Hin).
  apply list_elem_of_filter in Hin as [Hnd Hin]. simpl in *.
  unfold children in Hin. apply list_elem_of_omap in Hin as ([p n'] & Hp & Hc).
  apply elem_of_map_to_list in Hp. unfold is_child_of in Hc.
  case_bool_decide as Hch; [|done]. destruct Hch as [Hne Hpar].
  destruct p as [|x p] using rev_ind; [done|]. clear IHp.
  rewrite last_snoc in Hc. simpl in Hc. injection Hc as -> ->.
  unfold parent in Hpar. rewrite removelast_last in Hpar. subst top.
  destruct n as [c|]; [|done]. by exists c.
Qed.

Lemma children_nil (m : gmap path node) top name :
  children m top = [] → m !! join top name = None.
Proof.
  intros Hnil. destruct (m !! join top name) as [n|] eqn:Hp; [|done].
  exfalso. apply elem_of_map_to_list in Hp.
  assert (Hin : (name, n) ∈ children m top).
  { unfold children. apply list_elem_of_omap. exists (join top name, n).
    split; [done|]. unfold is_child_of, join, parent.
    rewrite bool_decide_eq_true_2.
    - by rewrite last_snoc.
    - split; [by destruct top | by rewrite removelast_last]. }
  rewrite Hnil in Hin. by apply elem_of_nil in Hin.
Qed.

(** In the walk of read-only roots the owner of a row is a key of the
    statistics already: looking it up creates nothing. *)
Lemma on_duplicate_read_only d confirm cur sz t st :
  on_duplicate d confirm false cur sz t st =
    match (target_file_dir t st).1 with
    | Ok owner =>
        (update_DirStats owner (count_dup sz) ;;
         skip <- remove_with_confirm (full_path t) confirm ;;
         session_delete t ;; ret skip) st
    | Raise e => (Raise e, st)
    end.
Proof.
  pose proof (target_file_dir_loop_pure
                (length (parent (full_path t))) (parent (full_path t)) st)
    as Hpure.
  pose proof (target_file_dir_loop_nearest st
                (length (parent (full_path t))) (parent (full_path t))
                (le_n _)) as Hnear.
  unfold on_duplicate. unfold bind at 1.
  fold (target_file_dir t) in Hpure, Hnear.
  destruct (target_file_dir t st) as [[owner|e] st1]; simpl in *; subst st1;
    [|done].
  destruct Hnear as [Hknown _]. unfold bind at 1.
  by rewrite (dir_stats_item_known owner st Hknown).
Qed.

(** *** The functions of the program

    [J] is an invariant of the run as long as only paths in [safe] are
    handed to the gate and only keys in [known] are created in the
    statistics. *)
Section Gated.
Context (J : state → Prop) (safe known : path → Prop) (confirm : bool)
  (target_dirs : list path).

Hypothesis J_gate : ∀ st p, safe p → J st → J (add_event (Gate p) st).
Hypothesis J_cmp : ∀ st a b, J st → J (add_event (Cmp a b) st).
Hypothesis J_ask :
  confirm = true → ∀ st e, is_question e = true → J st → J (add_event e st).
Hypothesis J_stdin : confirm = true → ∀ st l, J st → J (set_stdin l st).
Hypothesis J_remove :
  ∀ st p c, safe p → fs st !! p = Some (FileNode c) → J st →
            J (set_fs (delete p) st).
Hypothesis J_rmdir :
  ∀ st p, safe p → fs st !! p = Some DirNode → children (fs st) p = [] →
          J st → J (set_fs (delete p) st).
Hypothesis J_alter : ∀ st f d, J st → J (set_dir_stats (alter f d) st).
Hypothesis J_item :
  ∀ st d, known d → J st →
          J (set_dir_stats (λ m, match m !! d with
                                 | Some _ => m
                                 | None => <[d := new_DirStats]> m
                                 end) st).
Hypothesis J_row_deleted :
  ∀ st t, J st → J (set_session (filter (λ r, id r ≠ id t)) st).
Hypothesis J_row_added :
  ∀ st p ext sz, safe p → J st →
    J (set_session (λ rows, rows ++ [mkFile (next_id rows) p ext sz]) st).
Hypothesis J_rows : ∀ st r, J st → r ∈ session st → safe (full_path r).
Hypothesis J_listed_file :
  ∀ st d root dirs files file,
    d ∈ target_dirs → d `prefix_of` root → J st →
    scandir (fs st) root = Some (dirs, files) → file ∈ files →
    safe (join root file).
Hypothesis J_listed_dir :
  ∀ st d root ls,
    d ∈ target_dirs → d `prefix_of` root → J st →
    scandir (fs st) root = Some ls → safe root.

Local Ltac seq := apply (inv_bind J any_value); [| intros ? _ ].

Lemma inv_update_DirStats d f : inv J any_value (update_DirStats d f).
Proof. apply inv_modify. intros. by apply J_alter. Qed.

Lemma inv_dir_stats_item d : known d → inv J any_value (dir_stats_item d).
Proof. intros Hd. apply inv_modify. intros. by apply J_item. Qed.

Lemma inv_os_remove p : safe p → inv J any_value (os_remove p).
Proof.
  intros Hs st HJ. unfold os_remove, bind, gets, modify, raise.
  destruct (fs st !! p) as [[c|]|] eqn:Hp; simpl; (split; [|done]); try done.
  by eapply J_remove.
Qed.

Lemma inv_os_rmdir p : safe p → inv J any_value (os_rmdir p).
Proof.
  intros Hs st HJ. unfold os_rmdir, bind, gets, modify, raise. simpl.
  destruct (fs st !! p) as [[c|]|] eqn:Hp; simpl; try done.
  destruct (children (fs st) p) eqn:Hc; simpl; (split; [|done]); try done.
  by apply J_rmdir.
Qed.

Lemma inv_os_path_getsize p : inv J any_value (os_path_getsize p).
Proof.
  apply inv_pure. intros st. unfold os_path_getsize, bind, gets.
  by destruct (fs st !! p) as [[]|].
Qed.

Lemma inv_filecmp_cmp f1 f2 : inv J any_value (filecmp_cmp f1 f2).
Proof.
  unfold filecmp_cmp. seq; [apply inv_modify; intros; apply J_cmp; done|].
  apply inv_pure. intros st. unfold bind, gets.
  destruct (fs st !! f1) as [[]|], (fs st !! f2) as [[]|]; try done.
  by case_bool_decide.
Qed.

Lemma inv_prompt_loop is_dir p lines :
  confirm = true → inv J any_value (prompt_loop is_dir p lines).
Proof.
  intros Hc. induction lines as [|line rest IH]; simpl.
  - seq; [|apply inv_raise]. apply inv_modify. intros. by apply J_ask.
  - seq; [apply inv_modify; intros; by apply J_ask|].
    seq; [apply inv_modify; intros; by apply J_stdin|].
    repeat (match goal with |- inv J _ (if ?b then _ else _) =>
              destruct b end);
      try (by apply inv_ret); try apply inv_raise.
    seq; [apply inv_modify; intros; by apply J_ask | apply IH].
Qed.

Lemma inv_remove_with_confirm p :
  safe p → inv J any_value (remove_with_confirm p confirm).
Proof.
  intros Hs. unfold remove_with_confirm, path_is_dir.
  seq; [apply inv_modify; intros; by apply J_gate|].
  apply (inv_bind J any_value); [by apply inv_gets|]. intros is_dir _.
  apply (inv_bind J any_value).
  - destruct (bool_decide (confirm = true)) eqn:Hc.
    + apply bool_decide_eq_true in Hc. rewrite Hc.
      apply (inv_bind J any_value); [by apply inv_gets|]. intros lines _.
      seq; [by apply inv_prompt_loop | by apply inv_ret].
    + apply bool_decide_eq_false, not_true_is_false in Hc. rewrite Hc.
      by apply inv_ret.
  - intros [answer skip] _. seq; [|by apply inv_ret].
    destruct (_ || _); [|by apply inv_ret].
    destruct is_dir; [by apply inv_os_rmdir | by apply inv_os_remove].
Qed.

Lemma inv_target_file_dir t : inv J any_value (target_file_dir t).
Proof. apply inv_pure. intros st. apply target_file_dir_loop_pure. Qed.

Lemma inv_on_duplicate d (wt : bool) cur sz t :
  (if wt then safe cur else safe (full_path t)) →
  inv J any_value (on_duplicate d confirm wt cur sz t).
Proof.
  intros Hs. destruct wt.
  - unfold on_duplicate.
    seq; [apply inv_update_DirStats | by apply inv_remove_with_confirm].
  - assert (Hrest : inv J any_value
              (λ st, match (target_file_dir t st).1 with
                     | Ok owner =>
                         (update_DirStats owner (count_dup sz) ;;
                          skip <- remove_with_confirm (full_path t) confirm ;;
                          session_delete t ;; ret skip) st
                     | Raise e => (Raise e, st)
                     end)).
    { intros st HJ. destruct ((target_file_dir t st).1) as [owner|e]; [|done].
      revert st HJ.
      change (inv J any_value
                (update_DirStats owner (count_dup sz) ;;
                 skip <- remove_with_confirm (full_path t) confirm ;;
                 session_delete t ;; ret skip)).
      seq; [apply inv_update_DirStats|].
      seq; [by apply inv_remove_with_confirm|].
      seq; [|by apply inv_ret].
      apply inv_modify. intros. by apply J_row_deleted. }
    intros st HJ. rewrite on_duplicate_read_only. by apply Hrest.
Qed.

Lemma inv_rows_loop (P : File → Prop) on_dup cur rows skip :
  Forall P rows → (∀ t, P t → inv J any_value (on_dup t)) →
  inv J any_value (rows_loop on_dup cur rows skip).
Proof.
  intros Hrows Hd. induction Hrows as [|t rows Ht Hrows IH]; simpl;
    [by apply inv_ret|].
  seq; [apply inv_filecmp_cmp|]. destruct a; [|apply IH].
  seq; [by apply Hd | by apply inv_ret].
Qed.

Lemma inv_examine_file d (wt : bool) root file skip :
  (wt = true → safe (join root file)) →
  inv J any_value (examine_file d confirm wt root file skip).
Proof.
  intros Hs. unfold examine_file, session_query.
  seq; [destruct (get_extension file); [by apply inv_ret | apply inv_raise]|].
  seq; [apply inv_os_path_getsize|].
  seq; [apply inv_update_DirStats|].
  apply (inv_bind J (Forall (λ t, safe (full_path t)))).
  { apply inv_gets. intros st HJ. apply Forall_forall. intros r Hr.
    apply list_elem_of_filter in Hr as [_ Hr]. by eapply J_rows. }
  intros rows Hrows. seq.
  - apply (inv_rows_loop (λ t, safe (full_path t))); [done|].
    intros t Ht. apply inv_on_duplicate. destruct wt; [by apply Hs | done].
  - destruct a2 as [is_dup skip']. seq; [|by apply inv_ret].
    destruct wt; simpl; [|by apply inv_ret].
    destruct is_dup; simpl; [by apply inv_ret|].
    apply inv_modify. intros. apply J_row_added; [by apply Hs | done].
Qed.

Lemma inv_files_loop d (wt : bool) root files skip :
  (wt = true → Forall (λ file, safe (join root file)) files) →
  inv J any_value (files_loop d confirm wt root files skip).
Proof.
  revert skip. induction files as [|file rest IH]; intros skip Hs; simpl;
    [by apply inv_ret|].
  seq.
  - apply inv_examine_file. intros Hwt. specialize (Hs Hwt).
    by apply Forall_cons in Hs as [? _].
  - destruct a; [by apply inv_ret|]. apply IH. intros Hwt.
    specialize (Hs Hwt). by apply Forall_cons in Hs as [_ ?].
Qed.

Lemma inv_walk_visit d (wt : bool) root dirs files skip :
  (wt = true → Forall (λ file, safe (join root file)) files) →
  inv J any_value (walk_visit d confirm wt root dirs files skip).
Proof.
  intros Hs. unfold walk_visit. seq.
  - destruct skip; [|by apply inv_ret].
    apply inv_pure. intros st. apply is_same_or_subdir_state.
  - destruct a; [by apply inv_ret|].
    seq; [apply inv_update_DirStats | by apply inv_files_loop].
Qed.

Lemma inv_os_walk_visit d (wt : bool) top0 fuel top skip :
  (wt = true → top0 ∈ target_dirs) → top0 `prefix_of` top →
  inv J any_value (os_walk fuel top (walk_visit d confirm wt) skip).
Proof.
  intros Ht Hpre. apply (inv_os_walk J any_value top0); [|done..].
  intros root dirs files skip' st Hroot _ HJ Hls.
  apply inv_walk_visit; [|done]. intros Hwt.
  apply Forall_forall. intros file Hfile.
  eapply (J_listed_file st top0); eauto.
Qed.

Lemma inv_walk_dirs dirs_to_walk (wt : bool) :
  Forall known dirs_to_walk →
  (wt = true → ∀ d, d ∈ dirs_to_walk → d ∈ target_dirs) →
  inv J any_value (walk_dirs dirs_to_walk confirm wt).
Proof.
  intros Hk Ht. unfold walk_dirs.
  apply (inv_for_each J (λ d, known d ∧ d ∈ dirs_to_walk)); [|done|].
  { apply Forall_forall. intros d Hd. split; [|done].
    by eapply Forall_forall in Hk. }
  intros d [] [Hd Hin] _.
  seq; [by apply inv_dir_stats_item|].
  seq; [apply inv_update_DirStats|].
  seq; [|by apply inv_ret].
  apply inv_for_os_walk; [|done].
  intros root dirs files skip st Hpre _ HJ Hls.
  apply inv_walk_visit; [|done]. intros Hwt.
  apply Forall_forall. intros file Hfile.
  eapply (J_listed_file st d); eauto.
Qed.

Lemma inv_prune_visit d root dirs files stack :
  safe root → known d →
  Forall (λ e, safe e.1 ∧ known e.2) stack →
  inv J (Forall (λ e : path * path, safe e.1 ∧ known e.2))
    (prune_visit d confirm root dirs files stack).
Proof.
  intros Hs Hd Hst. unfold prune_visit. case_bool_decide.
  - seq; [apply inv_update_DirStats|].
    seq; [by apply inv_remove_with_confirm | by apply inv_ret].
  - case_bool_decide; apply inv_ret; [|done].
    apply Forall_app. split; [done|]. by apply Forall_singleton.
Qed.

Lemma inv_retry_loop stack :
  Forall (λ e : path * path, safe e.1 ∧ known e.2) stack →
  inv J any_value (retry_loop confirm stack).
Proof.
  intros Hst. induction Hst as [|[empty_dir target_dir] rest [Hs Hk] _ IH];
    simpl; [by apply inv_ret|].
  seq; [|apply IH]. apply inv_ignore_ENOTEMPTY.
  seq; [by apply inv_remove_with_confirm|].
  seq; [by apply inv_dir_stats_item | apply inv_update_DirStats].
Qed.

Lemma inv_remove_empty_directories :
  Forall known target_dirs →
  inv J any_value (remove_empty_directories target_dirs confirm).
Proof.
  intros Hk. unfold remove_empty_directories.
  apply (inv_bind J (Forall (λ e : path * path, safe e.1 ∧ known e.2))).
  - apply (inv_for_each J (λ d, known d ∧ d ∈ target_dirs)); [|done|].
    { apply Forall_forall. intros d Hd. split; [|done].
      by eapply Forall_forall in Hk. }
    intros d stack [Hd Hin] Hst.
    seq; [by apply inv_dir_stats_item|].
    apply inv_for_os_walk; [|done].
    intros root dirs files stack' st Hpre Hst' HJ Hls.
    apply inv_prune_visit; [|done..]. by eapply (J_listed_dir st d).
  - intros stack Hst. apply inv_retry_loop. by apply Forall_rev.
Qed.

Lemma inv_check_dir_args ts ros : inv J any_value (check_dir_args ts ros).
Proof. apply inv_pure. intros st. apply check_dir_args_state. Qed.

Lemma inv_deduplicate read_only_dirs (e : bool) :
  Forall known (target_dirs ++ read_only_dirs) →
  inv J any_value (deduplicate target_dirs read_only_dirs e confirm).
Proof.
  intros Hk. apply Forall_app in Hk as [Hkt Hkr]. unfold deduplicate.
  seq; [by apply inv_walk_dirs|].
  seq; [by apply inv_walk_dirs|].
  destruct e; [by apply inv_remove_empty_directories | by apply inv_ret].
Qed.

Lemma inv_main args :
  target args = target_dirs → negb (yes args) = confirm →
  Forall known (target args ++ read_only args) →
  inv J any_value (main args).
Proof.
  intros Ht Hc Hk. unfold main. rewrite Ht in *. rewrite Hc.
  seq; [apply inv_check_dir_args | by apply inv_deduplicate].
Qed.
End Gated.

(** ** What a run can touch *)

Lemma gates_add_gate p st :
  gates (trace (add_event (Gate p) st)) = gates (trace st) ++ [p].
Proof. unfold gates. simpl. by rewrite omap_app. Qed.

Lemma gates_add_question e st :
  is_question e = true → gates (trace (add_event e st)) = gates (trace st).
Proof. intros He. apply gates_add_other. intros p ->. discriminate. Qed.

Lemma main_within_targets args m0 st :
  within_targets (target args) m0 st →
  within_targets (target args) m0 (main args st).2.
Proof.
  intros HJ.
  apply (inv_main (within_targets (target args) m0) (under (target args))
           (λ _, True) (negb (yes args)) (target args)); try done.
  - intros st' p Hp (H1 & H2 & H3). split; [done|]. split; [done|].
    rewrite gates_add_gate. apply Forall_app. split; [done|].
    by apply Forall_singleton.
  - intros st' a b (H1 & H2 & H3). split; [done|]. split; [done|].
    by rewrite gates_add_other.
  - intros _ st' e He (H1 & H2 & H3). split; [done|]. split; [done|].
    by rewrite gates_add_question.
  - intros st' p c Hp _ (H1 & H2 & H3). split; [done|]. split; [|done].
    intros q Hq. simpl. rewrite lookup_delete_ne; [by apply H2|].
    by intros ->.
  - intros st' p Hp _ _ (H1 & H2 & H3). split; [done|]. split; [|done].
    intros q Hq. simpl. rewrite lookup_delete_ne; [by apply H2|].
    by intros ->.
  - intros st' t (H1 & H2 & H3). split; [|done]. intros r Hr.
    apply list_elem_of_filter in Hr as [_ Hr]. by apply H1.
  - intros st' p ext sz Hp (H1 & H2 & H3). split; [|done]. intros r Hr.
    simpl in Hr. apply elem_of_app in Hr as [Hr | Hr]; [by apply H1|].
    by apply list_elem_of_singleton in Hr as ->.
  - intros st' r (H1 & H2 & H3) Hr. by apply H1.
  - intros st' d root dirs files file Hd Hpre _ _ _. exists d.
    split; [done|]. unfold join. by apply prefix_app_r.
  - intros st' d root ls Hd Hpre _ _. by exists d.
  - by apply Forall_forall.
Qed.

Lemma within_targets_start targets files lines :
  within_targets targets files (start files lines).
Proof.
  split; [|split]; simpl; [|done|by apply Forall_nil].
  intros r Hr. by apply elem_of_nil in Hr.
Qed.

(** X9.  A run changes nothing outside the trees of its target roots: a
    path that is neither a target root nor below one is, at the end of
    the run, what it was at the start, however the run ends. *)
Theorem main_touches_only_target_trees args files lines p :
  ¬ under (target args) p →
  fs (main args (start files lines)).2 !! p = files !! p.
Proof.
  intros Hp.
  destruct (main_within_targets args files (start files lines)
              (within_targets_start _ _ _)) as (_ & H & _).
  by apply H.
Qed.

(** X10.  Every path that a run hands to [remove_with_confirm], to ask
    about or to remove, is a target root or lies below one. *)
Theorem main_gates_only_target_trees args files lines :
  Forall (under (target args))
    (gates (trace (main args (start files lines)).2)).
Proof.
  by destruct (main_within_targets args files (start files lines)
                 (within_targets_start _ _ _)) as (_ & _ & H).
Qed.

(** ** The file system stays closed *)

Lemma parent_snoc (p : path) x : parent (p ++ [x]) = p.
Proof. unfold parent. by rewrite removelast_last. Qed.

Lemma closed_delete_file m p c :
  m !! p = Some (FileNode c) → closed m → closed (delete p m).
Proof.
  intros Hp Hcl q Hne [n Hq].
  apply lookup_delete_Some in Hq as [Hpq Hq].
  rewrite lookup_delete_ne; [apply Hcl; [done | by eexists]|].
  intros ->. specialize (Hcl q Hne (mk_is_Some _ _ Hq)). congruence.
Qed.

Lemma closed_delete_empty_dir m p :
  children m p = [] → closed m → closed (delete p m).
Proof.
  intros Hch Hcl q Hne [n Hq].
  apply lookup_delete_Some in Hq as [Hpq Hq].
  rewrite lookup_delete_ne; [apply Hcl; [done | by eexists]|].
  intros ->. destruct q as [|x q _] using rev_ind; [done|].
  rewrite parent_snoc in Hch.
  pose proof (children_nil m q x Hch) as Hnone. unfold join in Hnone.
  congruence.
Qed.

Section Closed.
Let J : state → Prop := λ st, closed (fs st).
Let safe : path → Prop := λ _, True.

Lemma remove_empty_directories_closed target_dirs confirm st :
  closed (fs st) → closed (fs (remove_empty_directories target_dirs confirm st).2).
Proof.
  intros HJ.
  apply (inv_remove_empty_directories J safe (λ _, True) confirm target_dirs);
    try done.
  - intros st' p c _ Hp Hcl. by eapply closed_delete_file.
  - intros st' p _ _ Hch Hcl. by apply closed_delete_empty_dir.
  - by apply Forall_forall.
Qed.

Lemma main_closed args st :
  closed (fs st) → closed (fs (main args st).2).
Proof.
  intros HJ.
  apply (inv_main J safe (λ _, True) (negb (yes args)) (target args));
    try done.
  - intros st' p c _ Hp Hcl. by eapply closed_delete_file.
  - intros st' p _ _ Hch Hcl. by apply closed_delete_empty_dir.
  - by apply Forall_forall.
Qed.
End Closed.

(** X11.  A run leaves no entry without its directory: in a file system
    in which every entry lies in a directory, this is still so at the end
    of the run, however the run ends. *)
Theorem main_keeps_file_system_closed args st :
  closed (fs st) → closed (fs (main args st).2).
Proof. apply main_closed. Qed.

Lemma main_keeps_file_system_closed_witness :
  closed
    (fs (main (mkNamespace [["t"]] true [] true) (start fs_empty_dir [])).2).
Proof.
  apply (main_keeps_file_system_closed (mkNamespace [["t"]] true [] true)
           (start fs_empty_dir [])).
  by apply closedb_closed.
Defined.

Lemma main_touches_only_target_trees_witness :
  fs (main (mkNamespace [["t"]] true [["ro"]] false) (start fs_ro_sub [])).2
    !! ["ro"; "r1"] = fs_ro_sub !! ["ro"; "r1"].
Proof.
  apply (main_touches_only_target_trees
           (mkNamespace [["t"]] true [["ro"]] false) fs_ro_sub []
           ["ro"; "r1"]).
  intros (t & Ht & [k Hk]). simpl in Ht.
  apply list_elem_of_singleton in Ht as ->. discriminate.
Defined.

(** ** The walks remove no directory *)

Lemma inv_walk_dirs_keeps_directories m0 dirs_to_walk confirm wt :
  inv (keeps_directories m0) any_value (walk_dirs dirs_to_walk confirm wt).
Proof.
  apply (inv_walk_dirs (keeps_directories m0)
           (λ p, m0 !! p ≠ Some DirNode) (λ _, True) confirm dirs_to_walk);
    try done.
  - intros st p c Hs Hp (H1 & H2 & H3). split; [|split; [|done]].
    + simpl. etrans; [apply delete_subseteq | done].
    + intros q Hq. simpl. rewrite lookup_delete_ne; [by apply H2|].
      intros ->. apply H2 in Hq. congruence.
  - intros st p Hs Hp _ (H1 & H2 & H3).
    by apply (lookup_weaken _ _ _ _ Hp) in H1.
  - intros st t (H1 & H2 & H3). split; [done|]. split; [done|].
    intros r Hr. apply list_elem_of_filter in Hr as [_ Hr]. by apply H3.
  - intros st p ext sz Hp (H1 & H2 & H3). split; [done|]. split; [done|].
    intros r Hr. simpl in Hr.
    apply elem_of_app in Hr as [Hr | Hr]; [by apply H3|].
    by apply list_elem_of_singleton in Hr as ->.
  - intros st r (H1 & H2 & H3) Hr. by apply H3.
  - intros st d root dirs files file _ _ (H1 & H2 & H3) Hls Hfile.
    destruct (scandir_files _ _ _ _ _ Hls Hfile) as [c Hc].
    apply (lookup_weaken _ _ _ _ Hc) in H1. congruence.
  - by apply Forall_forall.
Qed.

(** X12.  The walks remove no directory: in a run without
    [--remove-empty-dirs], every directory of the file system is still
    there at the end, however the run ends. *)
Theorem main_without_pruning_keeps_directories args files lines p :
  remove_empty_dirs args = false →
  files !! p = Some DirNode →
  fs (main args (start files lines)).2 !! p = Some DirNode.
Proof.
  intros He Hp.
  assert (Hinv : inv (keeps_directories files) any_value (main args)).
  { unfold main, deduplicate. rewrite He.
    apply (inv_bind _ any_value); [apply inv_check_dir_args|]. intros _ _.
    apply (inv_bind _ any_value);
      [apply inv_walk_dirs_keeps_directories|]. intros _ _.
    apply (inv_bind _ any_value);
      [apply inv_walk_dirs_keeps_directories|]. intros _ _.
    by apply inv_ret. }
  destruct (Hinv (start files lines)) as [(_ & H & _) _]; [|by apply H].
  split; [done|]. split; [done|]. intros r Hr. by apply elem_of_nil in Hr.
Qed.

Lemma main_without_pruning_keeps_directories_witness :
  fs (main (mkNamespace [["t"]] true [["ro"]] false) (start fs_ro_sub [])).2
    !! ["t"] = Some DirNode.
Proof.
  exact (main_without_pruning_keeps_directories
           (mkNamespace [["t"]] true [["ro"]] false) fs_ro_sub [] ["t"]
           eq_refl eq_refl).
Defined.

(** ** The pruning removes no file *)

Lemma inv_remove_empty_directories_keeps_files m0 target_dirs confirm :
  inv (keeps_files m0) any_value (remove_empty_directories target_dirs confirm).
Proof.
  apply (inv_remove_empty_directories (keeps_files m0)
           (λ p, m0 !! p = Some DirNode) (λ _, True) confirm target_dirs);
    try done.
  - intros st p c Hs Hp (H1 & H2).
    apply (lookup_weaken _ _ _ _ Hp) in H1. congruence.
  - intros st p Hs Hp _ (H1 & H2). split.
    + simpl. etrans; [apply delete_subseteq | done].
    + intros q c Hq. simpl. rewrite lookup_delete_ne; [by apply H2|].
      intros ->. congruence.
  - intros st d root ls _ _ (H1 & H2) Hls. apply scandir_Some in Hls.
    by apply (lookup_weaken _ _ _ _ Hls) in H1.
  - by apply Forall_forall.
Qed.

Lemma remove_empty_directories_keeps_file target_dirs confirm st p c :
  fs st !! p = Some (FileNode c) →
  fs (remove_empty_directories target_dirs confirm st).2 !! p
    = Some (FileNode c).
Proof.
  intros Hp.
  destruct (inv_remove_empty_directories_keeps_files (fs st) target_dirs
              confirm st) as [[_ H] _]; [by split|]. by apply H.
Qed.

(** X13.  [remove_empty_directories] removes no regular file, whatever
    the answers at the prompt are and however it ends. *)
Theorem pruning_keeps_every_file target_dirs confirm st p c :
  fs st !! p = Some (FileNode c) →
  fs (remove_empty_directories target_dirs confirm st).2 !! p
    = Some (FileNode c).
Proof. apply remove_empty_directories_keeps_file. Qed.

Lemma pruning_keeps_every_file_witness :
  fs (remove_empty_directories [["t"]; ["ro"]] false (start fs_ro_sub [])).2
    !! ["ro"; "sub"; "r2"] = Some (text "second!").
Proof.
  exact (pruning_keeps_every_file [["t"]; ["ro"]] false (start fs_ro_sub [])
           ["ro"; "sub"; "r2"] _ eq_refl).
Defined.

(** X14.  In a file system in which every entry lies in a directory,
    [remove_empty_directories] removes no directory that has a regular
    file anywhere below it. *)
Theorem pruning_keeps_directories_that_hold_a_file target_dirs confirm st
    (q f : path) c :
  closed (fs st) →
  fs st !! f = Some (FileNode c) → q `prefix_of` f →
  fs (remove_empty_directories target_dirs confirm st).2 !! q = fs st !! q.
Proof.
  intros Hcl Hf [k ->].
  pose proof (remove_empty_directories_keeps_file target_dirs confirm _ _ _ Hf)
    as Hf'.
  pose proof (remove_empty_directories_closed target_dirs confirm _ Hcl)
    as Hcl'.
  destruct (remove_empty_directories_shrinks target_dirs confirm st)
    as [Hsub _]. unfold shrinks in Hsub.
  destruct (closed_prefix _ q k Hcl' (mk_is_Some _ _ Hf')) as [n Hn].
  rewrite Hn. symmetry. by eapply lookup_weaken.
Qed.

Lemma pruning_keeps_directories_that_hold_a_file_witness :
  fs (remove_empty_directories [["ro"]] false (start fs_ro_sub [])).2
    !! ["ro"; "sub"] = Some DirNode.
Proof.
  rewrite (pruning_keeps_directories_that_hold_a_file [["ro"]] false
             (start fs_ro_sub []) ["ro"; "sub"] ["ro"; "sub"; "r2"]
             (list_byte_of_string "second!")).
  - reflexivity.
  - by apply closedb_closed.
  - reflexivity.
  - by exists ["r2"].
Defined.

(** ** A run with [--yes] *)

Lemma questions_add e st :
  is_question e = false →
  questions (trace (add_event e st)) = questions (trace st).
Proof.
  intros He. unfold questions. simpl. rewrite filter_app.
  rewrite (filter_cons_False _ e []); [|by rewrite He].
  by rewrite filter_nil, app_nil_r.
Qed.

(** X15.  With [--yes] a run asks nothing and reads no input: no prompt
    and no usage hint is printed and the input is left as it was,
    however the run ends. *)
Theorem main_yes_asks_nothing args st :
  yes args = true →
  stdin (main args st).2 = stdin st ∧
  questions (trace (main args st).2) = questions (trace st).
Proof.
  intros Hyes.
  apply (inv_main (asked_nothing (stdin st) (questions (trace st)))
           (λ _, True) (λ _, True) (negb (yes args)) (target args));
    try done.
  - intros st' p _ [H1 H2]. split; [done|]. by rewrite questions_add.
  - intros st' a b [H1 H2]. split; [done|]. by rewrite questions_add.
  - intros Hc. rewrite Hyes in Hc. discriminate.
  - intros Hc. rewrite Hyes in Hc. discriminate.
  - by apply Forall_forall.
Qed.

Lemma main_yes_asks_nothing_witness :
  stdin (main (mkNamespace [["t"]] true [["ro"]] true)
           (start fs_ro_sub ["n"; "q"])).2 = ["n"; "q"] ∧
  questions (trace (main (mkNamespace [["t"]] true [["ro"]] true)
                      (start fs_ro_sub ["n"; "q"])).2) = [].
Proof.
  exact (main_yes_asks_nothing (mkNamespace [["t"]] true [["ro"]] true)
           (start fs_ro_sub ["n"; "q"]) eq_refl).
Defined.

(** ** The keys of the statistics *)

(** X16.  At the end of a run the statistics have an entry for no path
    but the target and read-only roots of the command line: attributing
    a duplicate to the root of a row creates no entry. *)
Theorem main_statistics_for_roots_only args files lines k :
  is_Some (dir_stats (main args (start files lines)).2 !! k) →
  k ∈ target args ++ read_only args.
Proof.
  revert k.
  apply (inv_main (stats_for (target args ++ read_only args))
           (λ _, True) (λ d, d ∈ target args ++ read_only args)
           (negb (yes args)) (target args)); try done.
  - intros st f d H k. simpl. destruct (decide (d = k)) as [->|Hne].
    + rewrite lookup_alter_eq, fmap_is_Some. apply H.
    + rewrite lookup_alter_ne by done. apply H.
  - intros st d Hd H k. simpl. destruct (dir_stats st !! d) eqn:Hl;
      [apply H|].
    rewrite lookup_insert_is_Some. intros [<- | [_ Hk]]; [done | by apply H].
  - by apply Forall_forall.
  - intros k. simpl. rewrite lookup_empty. by intros [? ?].
Qed.

Lemma main_statistics_for_roots_only_witness :
  ["t"] ∈ [["t"]] ++ [["ro"]].
Proof.
  apply (main_statistics_for_roots_only
           (mkNamespace [["t"]] true [["ro"]] false) fs_ro_sub [] ["t"]).
  vm_compute. by eexists.
Defined.

(** ** [check_dir_args] *)

(** A loop of checks that either pass, leaving the state alone, or
    raise [e]. *)
Lemma for_each_guard {B} (ok : B → Prop) e (l : list B)
    (body : B → unit → M unit) st :
  (∀ x, x ∈ l →
        (ok x ∧ body x tt st = (Ok tt, st)) ∨
        (¬ ok x ∧ body x tt st = (Raise e, st))) →
  (Forall ok l ∧ for_each l body tt st = (Ok tt, st)) ∨
  (¬ Forall ok l ∧ for_each l body tt st = (Raise e, st)).
Proof.
  induction l as [|x l IH]; intros Hb; simpl.
  - left. by split.
  - unfold bind.
    destruct (Hb x) as [[Hx ->] | [Hx ->]]; [by left| |].
    + destruct IH as [[Hl ->] | [Hl ->]].
      * intros y Hy. apply Hb. by right.
      * left. split; [by constructor | done].
      * right. split; [|done]. intros HF. by apply Forall_cons in HF as [_ ?].
    + right. split; [|done]. intros HF. by apply Forall_cons in HF as [? _].
Qed.

Lemma elem_of_permutations2 {A} (l : list A) x y :
  (x, y) ∈ permutations2 l ↔
  ∃ i j, l !! i = Some x ∧ l !! j = Some y ∧ i ≠ j.
Proof.
  unfold permutations2. rewrite list_elem_of_In, in_flat_map. split.
  - intros ([i x'] & Hi & Hin). apply list_elem_of_In in Hi, Hin.
    apply elem_of_lookup_imap in Hi as (i' & x'' & [= -> ->] & Hi).
    apply list_elem_of_omap in Hin as ([j y'] & Hj & Hpr).
    apply elem_of_lookup_imap in Hj as (j' & y'' & [= -> ->] & Hj).
    simpl in Hpr. case_bool_decide; [done|]. injection Hpr as -> ->.
    by exists i', j'.
  - intros (i & j & Hi & Hj & Hne). exists (i, x). split.
    + apply list_elem_of_In, elem_of_lookup_imap. by exists i, x.
    + apply list_elem_of_In, list_elem_of_omap. exists (j, y). split.
      * apply elem_of_lookup_imap. by exists j, y.
      * simpl. by rewrite bool_decide_eq_false_2.
Qed.

Lemma exit_if_subdir_cases st (pr : path * path) :
  closed (fs st) → is_Some (fs st !! pr.1) → is_Some (fs st !! pr.2) →
  (¬ pr.2 `prefix_of` pr.1 ∧ exit_if_subdir pr st = (Ok tt, st)) ∨
  (¬ ¬ pr.2 `prefix_of` pr.1 ∧ exit_if_subdir pr st = (Raise (SystemExit 1), st)).
Proof.
  intros Hcl H1 H2. unfold exit_if_subdir, bind.
  rewrite is_same_or_subdir_closed by done.
  case_bool_decide; [right | left]; split; try done. tauto.
Qed.

Lemma check_dir_args_cases target_dirs readonly_dirs st :
  closed (fs st) →
  (accepted (fs st) target_dirs readonly_dirs ∧
   check_dir_args target_dirs readonly_dirs st = (Ok tt, st)) ∨
  (¬ accepted (fs st) target_dirs readonly_dirs ∧
   check_dir_args target_dirs readonly_dirs st = (Raise (SystemExit 1), st)).
Proof.
  intros Hcl.
  destruct (check_dir_args target_dirs readonly_dirs st) as [r st'] eqn:Hrun.
  revert Hrun. unfold check_dir_args, accepted. unfold bind at 1.
  match goal with |- context [for_each (target_dirs ++ readonly_dirs) ?b tt st] =>
    destruct (for_each_guard (λ d, fs st !! d = Some DirNode) (SystemExit 1)
                (target_dirs ++ readonly_dirs) b st) as [[Hdirs ->] | [Hdirs ->]]
  end.
  { intros d _. unfold bind, path_exists, path_is_dir, gets. simpl.
    destruct (fs st !! d) as [[c|]|] eqn:Hd.
    - right. split; [done|]. rewrite bool_decide_eq_true_2 by (by eexists).
      simpl. by rewrite Hd.
    - left. split; [done|]. rewrite bool_decide_eq_true_2 by (by eexists).
      simpl. by rewrite Hd.
    - right. split; [done|].
      by rewrite bool_decide_eq_false_2 by (by intros [? ?]). }
  2: { intros [= <- <-]. right. split; [|done]. by intros [? _]. }
  assert (Hex : ∀ d, d ∈ target_dirs ++ readonly_dirs → is_Some (fs st !! d)).
  { intros d Hd. eapply Forall_forall in Hdirs; [|done]. by eexists. }
  unfold bind at 1.
  match goal with |- context [for_each (permutations2 target_dirs) ?b tt st] =>
    destruct (for_each_guard (λ pr : path * path, ¬ pr.2 `prefix_of` pr.1)
                (SystemExit 1) (permutations2 target_dirs) b st)
      as [[Hperm ->] | [Hperm ->]]
  end.
  { intros [d1 d2] Hpr.
    apply elem_of_permutations2 in Hpr as (i & j & Hi & Hj & _).
    apply exit_if_subdir_cases; [done|..]; apply Hex, elem_of_app; left;
      by eapply list_elem_of_lookup_2. }
  2: { intros [= <- <-]. right. split; [|done]. by intros (_ & ? & _). }
  match goal with |- context [for_each target_dirs ?b tt st] =>
    destruct (for_each_guard
                (λ td, Forall (λ ro, ¬ ro `prefix_of` td) readonly_dirs)
                (SystemExit 1) target_dirs b st) as [[Hro ->] | [Hro ->]]
  end.
  { intros td Htd. apply for_each_guard. intros ro Hro.
    apply (exit_if_subdir_cases st (td, ro)); [done|..];
      apply Hex, elem_of_app; [by left | by right]. }
  - intros [= <- <-]. by left.
  - intros [= <- <-]. right. split; [|done]. by intros (_ & _ & ?).
Qed.

(** X17.  On a file system in which every entry lies in a directory,
    [check_dir_args] returns exactly when every root is a directory, no
    target root is an initial segment of the target root at another
    position of the command line, and no read-only root is an initial
    segment of a target root; otherwise it exits with status 1.  Either
    way it changes nothing. *)
Theorem check_dir_args_accepts_exactly target_dirs readonly_dirs st :
  closed (fs st) →
  (accepted (fs st) target_dirs readonly_dirs ∧
   check_dir_args target_dirs readonly_dirs st = (Ok tt, st)) ∨
  (¬ accepted (fs st) target_dirs readonly_dirs ∧
   check_dir_args target_dirs readonly_dirs st = (Raise (SystemExit 1), st)).
Proof. apply check_dir_args_cases. Qed.

Lemma check_dir_args_accepts_exactly_witness :
  check_dir_args [["ro"; "sub"]] [["ro"]] (start fs_ro_sub [])
    = (Raise (SystemExit 1), start fs_ro_sub []).
Proof.
  destruct (check_dir_args_accepts_exactly [["ro"; "sub"]] [["ro"]]
              (start fs_ro_sub [])) as [[Hacc _] | [_ Hrej]].
  - by apply closedb_closed.
  - exfalso. destruct Hacc as (_ & _ & Hro).
    apply Forall_cons in Hro as [Hro _]. apply Forall_cons in Hro as [Hro _].
    apply Hro. by exists ["sub"].
  - exact Hrej.
Defined.

(** X18.  A command line that [check_dir_args] turns down has no effect:
    the run ends with exit status 1 in the state it started in, with
    nothing removed, asked, compared or counted. *)
Theorem main_rejected_changes_nothing args st :
  closed (fs st) →
  ¬ accepted (fs st) (target args) (read_only args) →
  main args st = (Raise (SystemExit 1), st).
Proof.
  intros Hcl Hrej. unfold main, bind.
  by destruct (check_dir_args_cases (target args) (read_only args) st Hcl)
    as [[? _] | [_ ->]].
Qed.

Lemma main_rejected_changes_nothing_witness :
  main (mkNamespace [["t"]; ["t"]] true [] true) (start fs_ro_sub [])
    = (Raise (SystemExit 1), start fs_ro_sub []).
Proof.
  apply (main_rejected_changes_nothing
           (mkNamespace [["t"]; ["t"]] true [] true) (start fs_ro_sub [])).
  - by apply closedb_closed.
  - intros (_ & Hperm & _).
    assert (Hin : (["t"], ["t"]) ∈ permutations2 [["t"]; ["t"]]).
    { apply elem_of_permutations2. by exists 0%nat, 1%nat. }
    eapply Forall_forall in Hperm; [|exact Hin]. by apply Hperm.
Defined.

(** ** Read-only roots *)

Lemma prefixes_comparable (p q r : path) :
  p `prefix_of` r → q `prefix_of` r → p `prefix_of` q ∨ q `prefix_of` p.
Proof.
  revert p q. induction r as [|x r IH]; intros p q Hp Hq.
  - apply prefix_nil_inv in Hp as ->. left. apply prefix_nil.
  - destruct p as [|y p]; [left; apply prefix_nil|].
    destruct q as [|z q]; [right; apply prefix_nil|].
    apply prefix_cons_inv_1 in Hp as Hy. apply prefix_cons_inv_1 in Hq as Hz.
    subst y z. apply prefix_cons_inv_2 in Hp, Hq.
    destruct (IH p q Hp Hq); [left | right]; by apply prefix_cons.
Qed.

(** X19.  When no read-only root is a target root or lies below one,
    nothing at or below a read-only root is changed by a run: together
    with what [check_dir_args] turns down, the trees of the read-only
    roots are then apart from those of the target roots. *)
Theorem main_leaves_read_only_trees_alone args files lines p :
  closed files →
  (∀ t ro, t ∈ target args → ro ∈ read_only args → ¬ t `prefix_of` ro) →
  under (read_only args) p →
  fs (main args (start files lines)).2 !! p = files !! p.
Proof.
  intros Hcl Hapart (ro & Hro & Hpre).
  destruct (check_dir_args_cases (target args) (read_only args)
              (start files lines) Hcl) as [[Hacc _] | [_ Hrej]].
  - destruct (main_within_targets args files (start files lines)
                (within_targets_start _ _ _)) as (_ & H & _).
    apply H. intros (t & Ht & Hpre').
    destruct (prefixes_comparable t ro p Hpre' Hpre) as [Htr | Hrt].
    + by apply (Hapart t ro).
    + destruct Hacc as (_ & _ & Hacc).
      eapply Forall_forall in Hacc; [|exact Ht].
      eapply Forall_forall in Hacc; [|exact Hro]. by apply Hacc.
  - unfold main, bind. by rewrite Hrej.
Qed.

Lemma main_leaves_read_only_trees_alone_witness :
  fs (main (mkNamespace [["t"]] true [["ro"]] true) (start fs_ro_sub [])).2
    !! ["ro"; "sub"; "r2"] = fs_ro_sub !! ["ro"; "sub"; "r2"].
Proof.
  apply (main_leaves_read_only_trees_alone
           (mkNamespace [["t"]] true [["ro"]] true) fs_ro_sub []
           ["ro"; "sub"; "r2"]).
  - by apply closedb_closed.
  - intros t ro Ht Hro [k Hk]. simpl in Ht, Hro.
    apply list_elem_of_singleton in Ht as ->.
    apply list_elem_of_singleton in Hro as ->. discriminate.
  - exists ["ro"]. split; [by apply list_elem_of_singleton|].
    by exists ["sub"; "r2"].
Defined.

(** ** What [walk_dirs] removes *)

(** The row at which the loop over the rows stops is a row of the loop
    whose file has the bytes of the current file. *)
Lemma rows_loop_outcomes on_dup cur rows skip st r st' :
  rows_loop on_dup cur rows skip st = (r, st') →
  fs st' = fs st ∨
  ∃ es e rd, e ∈ rows ∧ same_bytes (fs st) cur (full_path e) ∧
             on_dup e (log es st) = (rd, st').
Proof.
  revert st. induction rows as [|t rows IH]; intros st; simpl.
  - intros [= _ <-]. by left.
  - unfold bind at 1.
    destruct (filecmp_cmp cur (full_path t) st) as [[[]|x] st1] eqn:Hcmp;
      pose proof (filecmp_cmp_state cur (full_path t) st) as Hst;
      rewrite Hcmp in Hst; simpl in Hst; subst st1.
    + apply filecmp_cmp_Ok in Hcmp. unfold bind at 1. intros Hd. right.
      exists [Cmp cur (full_path t)], t.
      rewrite log_cons, log_nil.
      destruct (on_dup t _) as [rd st2]. exists rd.
      split; [by left|]. split; [done|].
      by destruct rd; injection Hd as <- <-.
    + intros Hrec. apply IH in Hrec as [Hfs | (es & e & rd & He & Hsame & Hd)].
      * by left.
      * right. exists (Cmp cur (full_path t) :: es), e, rd.
        split; [by right|]. split; [done|]. by rewrite log_cons.
    + intros [= _ <-]. by left.
Qed.

Lemma os_path_getsize_state p st : (os_path_getsize p st).2 = st.
Proof.
  unfold os_path_getsize, bind, gets. by destruct (fs st !! p) as [[]|].
Qed.

Lemma on_duplicate_fs d confirm (wt : bool) cur sz t st r st' :
  on_duplicate d confirm wt cur sz t st = (r, st') →
  fs st' = fs st ∨
  fs st' = delete (if wt then cur else full_path t) (fs st).
Proof.
  destruct wt.
  - unfold on_duplicate. unfold bind at 1, update_DirStats, modify.
    intros Hg. apply remove_with_confirm_frame in Hg as (_ & _ & _ & Hfs).
    destruct r; [done | by left].
  - rewrite on_duplicate_read_only.
    destruct ((target_file_dir t st).1) as [owner|e];
      [|intros [= _ <-]; by left].
    unfold bind at 1, update_DirStats, modify. unfold bind at 1.
    destruct (remove_with_confirm (full_path t) confirm _) as [[s|x] st2]
      eqn:Hg; apply remove_with_confirm_frame in Hg as (_ & _ & _ & Hfs).
    + unfold bind, session_delete, modify, ret. by intros [= _ <-].
    + intros [= _ <-]. by left.
Qed.

Lemma examine_file_fs d confirm (wt : bool) root
    file skip st :
  fs (examine_file d confirm wt root file skip st).2 = fs st ∨
  ∃ e, e ∈ session st ∧
       get_extension file = Some (extension e) ∧
       same_bytes (fs st) (join root file) (full_path e) ∧
       fs (examine_file d confirm wt root file skip st).2
         = delete (if wt then join root file else full_path e) (fs st).
Proof.
  destruct (examine_file d confirm wt root file skip st) as [r st'] eqn:Hrun.
  simpl. revert Hrun. unfold examine_file.
  destruct (get_extension file) as [ext|] eqn:Hext;
    [|intros [= _ <-]; by left].
  unfold bind at 1, ret. unfold bind at 1.
  pose proof (os_path_getsize_state (join root file) st) as Hsz.
  destruct (os_path_getsize (join root file) st) as [[sz|x] st1];
    simpl in Hsz; subst st1; [|intros [= _ <-]; by left].
  unfold bind at 1, update_DirStats, modify.
  unfold bind at 1, session_query, gets. unfold bind at 1.
  match goal with |- context [rows_loop ?f ?c ?rows ?s ?st0] =>
    destruct (rows_loop f c rows s st0) as [rr st2] eqn:Hloop
  end.
  apply rows_loop_outcomes in Hloop.
  assert (Hrest : (r, st') =
            match rr with
            | Ok (is_dup, skip') =>
                ((if wt && negb is_dup
                  then session_add (join root file) ext sz else ret tt) ;;
                 ret skip') st2
            | Raise x => (Raise x, st2)
            end → fs st' = fs st2).
  { destruct rr as [[is_dup skip']|x]; [|by intros [= _ ->]].
    unfold bind, session_add, modify, ret.
    destruct (wt && negb is_dup); by intros [= _ ->]. }
  intros Hrun. assert (Hfs : fs st' = fs st2).
  { apply Hrest. rewrite <- Hrun. by destruct rr as [[]|]. }
  rewrite Hfs. clear Hrest Hrun Hfs.
  destruct Hloop as [-> | (es & e & rd & He & Hsame & Hd)]; [by left|].
  apply list_elem_of_filter in He as [[_ Hx] He]. simpl in He, Hsame.
  apply on_duplicate_fs in Hd as [-> | ->]; [by left|]. right.
  exists e. split; [done|]. split; [by rewrite Hx|]. by split.
Qed.

(** X20.  One round of the loop over the files of a directory removes at
    most one path, and only next to a row of the table whose file has
    the same bytes as the file examined and whose extension is that of
    its name: in the walk of target roots the file examined, in the walk
    of read-only roots the file of the row. *)
Theorem examine_file_removes_only_next_to_a_copy d confirm (wt : bool) root
    file skip st :
  fs (examine_file d confirm wt root file skip st).2 = fs st ∨
  ∃ e, e ∈ session st ∧
       get_extension file = Some (extension e) ∧
       same_bytes (fs st) (join root file) (full_path e) ∧
       fs (examine_file d confirm wt root file skip st).2
         = delete (if wt then join root file else full_path e) (fs st).
Proof. apply examine_file_fs. Qed.

(** ** No content is lost *)

Lemma children_names_NoDup (m : gmap path node) top :
  NoDup (children m top).*1.
Proof.
  unfold children.
  assert (Hgen : ∀ l : list (path * node),
            NoDup l.*1 →
            NoDup (omap (λ '(p, n), if is_child_of top p
                                     then (λ name, (name, n)) <$> last p
                                     else None) l).*1 ∧
            ∀ name, name ∈ (omap (λ '(p, n), if is_child_of top p
                                     then (λ name, (name, n)) <$> last p
                                     else None) l).*1 →
                    join top name ∈ l.*1).
  { induction l as [|[p n] l IH]; intros Hnd.
    - simpl. split; [constructor|]. intros name Hn.
      by apply elem_of_nil in Hn.
    - simpl in Hnd. apply NoDup_cons in Hnd as [Hp Hnd].
      destruct (IH Hnd) as [IH1 IH2]. simpl.
      destruct (is_child_of top p) eqn:Hch.
      + apply bool_decide_eq_true in Hch as [Hne Hpar].
        destruct p as [|x p _] using rev_ind; [done|].
        rewrite parent_snoc in Hpar. subst p. rewrite last_snoc. simpl.
        split.
        * apply NoDup_cons. split; [|done]. intros Hx. by apply IH2 in Hx.
        * intros name Hn. apply elem_of_cons in Hn as [-> | Hn];
            [by left | right; by apply IH2].
      + split; [done|]. intros name Hn. right. by apply IH2. }
  apply Hgen, NoDup_fst_map_to_list.
Qed.

Lemma scandir_NoDup (m : gmap path node) top dirs files :
  scandir m top = Some (dirs, files) → NoDup dirs ∧ NoDup files.
Proof.
  unfold scandir. destruct (m !! top) as [[]|]; try done.
  intros [= <- <-].
  split; (eapply sublist_NoDup; [apply (children_names_NoDup m top)|]);
    apply fmap_sublist, sublist_filter.
Qed.

Lemma join_inj root1 file1 root2 file2 :
  join root1 file1 = join root2 file2 → root1 = root2 ∧ file1 = file2.
Proof. unfold join. intros H. by apply app_inj_tail in H. Qed.

Lemma content_kept_same m0 st st' :
  fs st' = fs st → content_kept m0 st → content_kept m0 st'.
Proof. intros Hfs H p c Hp. rewrite Hfs. by eapply H. Qed.

Lemma tracks_same (A : path → Prop) st st' :
  session st' = session st → tracks A st → tracks A st'.
Proof. intros Hs H r. rewrite Hs. apply H. Qed.

Lemma tracks_weaken (A B : path → Prop) st :
  (∀ p, A p → B p) → tracks A st → tracks B st.
Proof. intros HAB H r Hr. by apply HAB, H. Qed.

(** Examining a file that no row names loses no content: what is
    removed has a copy at another path. *)
Lemma examine_file_keeps_content m0 d confirm wt root file skip st :
  untracked (join root file) st → content_kept m0 st →
  content_kept m0 (examine_file d confirm wt root file skip st).2.
Proof.
  intros Hun Hkept.
  destruct (examine_file_fs d confirm wt root file skip st)
    as [Hfs | (e & He & _ & (c & Hc1 & Hc2) & Hfs)];
    [by eapply content_kept_same|].
  assert (Hne : full_path e ≠ join root file) by (by apply Hun).
  intros p c' Hp. destruct (Hkept p c' Hp) as [q Hq]. rewrite Hfs.
  destruct wt.
  - destruct (decide (q = join root file)) as [-> | Hq'].
    + exists (full_path e). rewrite lookup_delete_ne by done. congruence.
    + exists q. by rewrite lookup_delete_ne.
  - destruct (decide (q = full_path e)) as [-> | Hq'].
    + exists (join root file). rewrite lookup_delete_ne by done. congruence.
    + exists q. by rewrite lookup_delete_ne.
Qed.

(** Examining a file adds at most a row for that file. *)
Lemma examine_file_tracks (A : path → Prop) d confirm (wt : bool) root file
    skip st :
  (wt = true → A (join root file)) → tracks A st →
  tracks A (examine_file d confirm wt root file skip st).2.
Proof.
  intros Hcur HJ.
  apply (inv_examine_file (tracks A) A confirm); try done.
  - intros st' t H r Hr. apply list_elem_of_filter in Hr as [_ Hr].
    by apply H.
  - intros st' p ext sz Hp H r Hr. simpl in Hr.
    apply elem_of_app in Hr as [Hr | Hr]; [by apply H|].
    by apply list_elem_of_singleton in Hr as ->.
  - intros st' r H Hr. by apply H.
Qed.

Lemma bind_state {A B} (m : M A) (f : A → M B) st :
  (bind m f st).2 = match (m st).1 with
                    | Ok a => (f a (m st).2).2
                    | Raise _ => (m st).2
                    end.
Proof. unfold bind. by destruct (m st) as [[a|e] st']. Qed.

Lemma in_dirs_mono (D E : path → Prop) p :
  (∀ q, D q → E q) → in_dirs D p → in_dirs E p.
Proof. intros HDE (root & file & -> & HD). exists root, file. auto. Qed.

(** The files of one directory: each is examined while no row names it,
    because the rows of this walk are for the files before it. *)
Lemma files_loop_keeps_content m0 d confirm (wt : bool) root files :
  NoDup files →
  ∀ (A : path → Prop) skip st,
    (∀ f, f ∈ files → ¬ A (join root f)) →
    content_kept m0 st → tracks A st →
    content_kept m0 (files_loop d confirm wt root files skip st).2 ∧
    tracks (λ p, A p ∨ (wt = true ∧ ∃ f, f ∈ files ∧ p = join root f))
      (files_loop d confirm wt root files skip st).2.
Proof.
  induction 1 as [|file rest Hfile Hnd IH]; intros A skip st Hfresh Hkept Htr;
    simpl.
  - split; [done|]. eapply tracks_weaken; [|done]. by left.
  - rewrite bind_state.
    assert (Hun : untracked (join root file) st).
    { intros r Hr Heq. apply (Hfresh file); [by left|]. rewrite <- Heq.
      by apply Htr. }
    pose proof (examine_file_keeps_content m0 d confirm wt root file skip st
                  Hun Hkept) as Hkept1.
    pose proof (examine_file_tracks
                  (λ p, A p ∨ (wt = true ∧ p = join root file))
                  d confirm wt root file skip st) as Htr1.
    assert (Hweak : ∀ st1,
              tracks (λ p, A p ∨ (wt = true ∧ p = join root file)) st1 →
              tracks (λ p, A p ∨ (wt = true ∧
                                  ∃ f, f ∈ file :: rest ∧ p = join root f))
                st1).
    { intros st1. apply tracks_weaken. intros p [? | [? ->]]; [by left|].
      right. split; [done|]. exists file. split; [by left | done]. }
    destruct ((examine_file d confirm wt root file skip st).1) as [[s|]|x].
    + simpl. split; [done|]. apply Hweak, Htr1; [by right|].
      eapply tracks_weaken; [|done]. by left.
    + destruct (IH (λ p, A p ∨ (wt = true ∧ p = join root file)) None
                  (examine_file d confirm wt root file skip st).2)
        as [Hk2 Ht2]; [| done | |].
      * intros f Hf [HA | [_ Heq]]; [apply (Hfresh f); [by right | done]|].
        apply join_inj in Heq as [_ ->]. done.
      * apply Htr1; [by right|]. eapply tracks_weaken; [|done]. by left.
      * split; [done|]. eapply tracks_weaken; [|exact Ht2].
        intros p [[? | [? ->]] | [? (f & Hf & ->)]].
        -- by left.
        -- right. split; [done|]. exists file. split; [by left | done].
        -- right. split; [done|]. exists f. split; [by right | done].
    + split; [done|]. apply Hweak, Htr1; [by right|].
      eapply tracks_weaken; [|done]. by left.
Qed.

Lemma walk_visit_state d confirm wt root dirs files skip st :
  (walk_visit d confirm wt root dirs files skip st).2 = st ∨
  (walk_visit d confirm wt root dirs files skip st).2
    = (files_loop d confirm wt root files None
         (set_dir_stats (alter count_dir d) st)).2.
Proof.
  unfold walk_visit. rewrite bind_state.
  assert (Hs : (match skip with
                | Some skip_dir => is_same_or_subdir root skip_dir
                | None => ret false
                end st).2 = st)
    by (destruct skip; [apply is_same_or_subdir_state | done]).
  rewrite Hs.
  destruct ((match skip with
             | Some skip_dir => is_same_or_subdir root skip_dir
             | None => ret false
             end st).1) as [[]|x]; [by left | | by left].
  right. by rewrite bind_state.
Qed.

Lemma walk_visit_keeps_content m0 d confirm (wt : bool) root dirs files
    (A : path → Prop) skip st :
  NoDup files →
  (∀ f, f ∈ files → ¬ A (join root f)) →
  content_kept m0 st → tracks A st →
  content_kept m0 (walk_visit d confirm wt root dirs files skip st).2 ∧
  tracks (λ p, A p ∨ (wt = true ∧ ∃ f, f ∈ files ∧ p = join root f))
    (walk_visit d confirm wt root dirs files skip st).2.
Proof.
  intros Hnd Hfresh Hkept Htr.
  destruct (walk_visit_state d confirm wt root dirs files skip st)
    as [-> | ->].
  - split; [done|]. eapply tracks_weaken; [|done]. by left.
  - by apply files_loop_keeps_content.
Qed.

Lemma prefix_join_same_length (top : path) a b :
  join top a `prefix_of` join top b → a = b.
Proof.
  unfold join. intros Hpre.
  apply prefix_app_inv in Hpre. apply prefix_cons_inv_1 in Hpre. done.
Qed.

Lemma join_not_prefix (top : path) a : ¬ join top a `prefix_of` top.
Proof.
  intros Hpre. apply prefix_length in Hpre. unfold join in Hpre.
  rewrite length_app in Hpre. simpl in Hpre. lia.
Qed.

(** The walk of a tree, with [D] the directories visited before it: no
    directory is visited twice, so each file is examined while no row
    names it. *)
Lemma os_walk_keeps_content m0 d confirm (wt : bool) fuel :
  ∀ top skip st (D : path → Prop),
    (∀ q, D q → ¬ top `prefix_of` q) →
    content_kept m0 st → tracks (in_dirs D) st →
    content_kept m0
      (os_walk fuel top (walk_visit d confirm wt) skip st).2 ∧
    tracks (in_dirs (λ q, D q ∨ (wt = true ∧ top `prefix_of` q)))
      (os_walk fuel top (walk_visit d confirm wt) skip st).2.
Proof.
  assert (Hstay : ∀ top (D : path → Prop) st,
            content_kept m0 st → tracks (in_dirs D) st →
            content_kept m0 st ∧
            tracks (in_dirs (λ q, D q ∨ (wt = true ∧ top `prefix_of` q))) st).
  { intros top D st Hk Ht. split; [done|]. eapply tracks_weaken; [|done].
    intros p. apply in_dirs_mono. by left. }
  induction fuel as [|fuel IH]; intros top skip st D Hfresh Hkept Htr;
    simpl; rewrite bind_state; simpl;
    destruct (scandir (fs st) top) as [[dirs files]|] eqn:Hls; simpl;
    try by apply Hstay.
  destruct (scandir_NoDup _ _ _ _ Hls) as [Hnd_dirs Hnd_files].
  rewrite bind_state.
  destruct (walk_visit_keeps_content m0 d confirm wt top dirs files
              (in_dirs D) skip st Hnd_files) as [Hk1 Ht1]; [|done..|].
  { intros f _ (root' & file' & Heq & HD).
    apply join_inj in Heq as [<- _]. by apply (Hfresh top). }
  set (D1 := λ q, D q ∨ (wt = true ∧ q = top)).
  assert (Ht1' : tracks (in_dirs D1)
                   (walk_visit d confirm wt top dirs files skip st).2).
  { eapply tracks_weaken; [|exact Ht1].
    intros p [Hp | [Hwt (f & _ & ->)]].
    - eapply in_dirs_mono; [|done]. by left.
    - exists top, f. split; [done|]. by right. }
  assert (Hfinal : ∀ st',
            tracks (in_dirs (λ q, D1 q ∨
                       (wt = true ∧ ∃ dn, dn ∈ dirs ∧
                                          join top dn `prefix_of` q))) st' →
            tracks (in_dirs (λ q, D q ∨ (wt = true ∧ top `prefix_of` q))) st').
  { intros st'. apply tracks_weaken. intros p. apply in_dirs_mono.
    intros q [[? | [? ->]] | [? (dn & _ & Hpre)]]; [by left | by right |].
    right. split; [done|]. etrans; [|exact Hpre]. unfold join.
    by apply prefix_app_r. }
  assert (Hfresh1 : ∀ q, D1 q → ∀ dn, dn ∈ dirs →
                         ¬ join top dn `prefix_of` q).
  { intros q [HD | [_ ->]] dn _ Hpre.
    - apply (Hfresh q HD). etrans; [|exact Hpre]. unfold join.
      by apply prefix_app_r.
    - by apply join_not_prefix in Hpre. }
  destruct ((walk_visit d confirm wt top dirs files skip st).1) as [a|x].
  2: { split; [done|]. apply Hfinal. eapply tracks_weaken; [|exact Ht1'].
       intros p. apply in_dirs_mono. by left. }
  revert Hk1 Ht1' Hfinal Hfresh1.
  generalize ((walk_visit d confirm wt top dirs files skip st).2).
  generalize D1. clear Ht1 Hls Hkept Htr D1. revert a.
  induction Hnd_dirs as [|dn ds Hdn Hnd IHd];
    intros a D1 st1 Hk1 Ht1 Hfinal Hfresh1.
  - simpl. split; [done|]. apply Hfinal. eapply tracks_weaken; [|exact Ht1].
    intros p. apply in_dirs_mono. by left.
  - rewrite bind_state.
    destruct (IH (join top dn) a st1 D1) as [Hk2 Ht2]; [|done..|].
    { intros q Hq. apply Hfresh1; [done | by left]. }
    destruct ((os_walk fuel (join top dn) (walk_visit d confirm wt) a st1).1)
      as [a2|x].
    + apply (IHd a2 (λ q, D1 q ∨ (wt = true ∧ join top dn `prefix_of` q)));
        [done | done | |].
      * intros st' Ht'. apply Hfinal. eapply tracks_weaken; [|exact Ht'].
        intros p. apply in_dirs_mono.
        intros q [[? | [? ?]] | [? (dn' & Hdn' & ?)]].
        -- by left.
        -- right. split; [done|]. exists dn. split; [by left | done].
        -- right. split; [done|]. exists dn'. split; [by right | done].
      * intros q [HD | [_ Hpre]] dn' Hdn' Hpre'.
        -- by apply (Hfresh1 q HD dn'); [right|].
        -- destruct (prefixes_comparable _ _ _ Hpre Hpre') as [Hc | Hc];
             apply prefix_join_same_length in Hc; by subst.
    + split; [done|]. apply Hfinal. eapply tracks_weaken; [|exact Ht2].
      intros p. apply in_dirs_mono.
      intros q [? | [? ?]]; [by left|].
      right. split; [done|]. exists dn. split; [by left | done].
Qed.

Lemma for_os_walk_keeps_content m0 d confirm (wt : bool) top skip st
    (D : path → Prop) :
  (∀ q, D q → ¬ top `prefix_of` q) →
  content_kept m0 st → tracks (in_dirs D) st →
  content_kept m0
    (for_os_walk top (walk_visit d confirm wt) skip st).2 ∧
  tracks (in_dirs (λ q, D q ∨ (wt = true ∧ top `prefix_of` q)))
    (for_os_walk top (walk_visit d confirm wt) skip st).2.
Proof.
  intros Hfresh Hk Ht.
  change (for_os_walk top (walk_visit d confirm wt) skip st)
    with (os_walk (S (fs_depth (fs st))) top (walk_visit d confirm wt) skip st).
  by apply os_walk_keeps_content.
Qed.

(** Roots of which none is an initial segment of another. *)
Lemma permutations2_pairwise (l : list path) :
  Forall (λ pr : path * path, ¬ pr.2 `prefix_of` pr.1) (permutations2 l) →
  pairwise (λ d d', ¬ d `prefix_of` d' ∧ ¬ d' `prefix_of` d) l.
Proof.
  induction l as [|d l IH]; intros Hall; simpl; [done|]. split.
  - apply Forall_forall. intros d' Hd'.
    apply list_elem_of_lookup_1 in Hd' as [j Hj]. split.
    + assert (Hin : (d', d) ∈ permutations2 (d :: l))
        by (apply elem_of_permutations2; by exists (S j), 0%nat).
      eapply Forall_forall in Hall; [|exact Hin]. done.
    + assert (Hin : (d, d') ∈ permutations2 (d :: l))
        by (apply elem_of_permutations2; by exists 0%nat, (S j)).
      eapply Forall_forall in Hall; [|exact Hin]. done.
  - apply IH. apply Forall_forall. intros [x y] Hxy.
    apply elem_of_permutations2 in Hxy as (i & j & Hi & Hj & Hne).
    assert (Hin : (x, y) ∈ permutations2 (d :: l)).
    { apply elem_of_permutations2. exists (S i), (S j).
      split; [done|]. split; [done | lia]. }
    eapply Forall_forall in Hall; [|exact Hin]. done.
Qed.

Lemma walk_dirs_keeps_content m0 confirm (wt : bool) dirs_to_walk :
  ∀ st (D : path → Prop),
    (wt = true →
     pairwise (λ d d', ¬ d `prefix_of` d' ∧ ¬ d' `prefix_of` d) dirs_to_walk) →
    (∀ q, D q → ∀ d, d ∈ dirs_to_walk → ¬ d `prefix_of` q) →
    content_kept m0 st → tracks (in_dirs D) st →
    content_kept m0 (walk_dirs dirs_to_walk confirm wt st).2 ∧
    tracks (in_dirs (λ q, D q ∨ (wt = true ∧ under dirs_to_walk q)))
      (walk_dirs dirs_to_walk confirm wt st).2.
Proof.
  unfold walk_dirs.
  induction dirs_to_walk as [|d dirs IH]; intros st D Hpw Hfresh Hk Ht; simpl.
  - split; [done|]. eapply tracks_weaken; [|done].
    intros p. apply in_dirs_mono. by left.
  - set (st0 := set_dir_stats (alter (mark_root wt d) d)
                  (set_dir_stats (λ m, match m !! d with
                                       | Some _ => m
                                       | None => <[d := new_DirStats]> m
                                       end) st)).
    assert (Hbody :
      ((dir_stats_item d ;;
        update_DirStats d (mark_root wt d) ;;
        for_os_walk d (walk_visit d confirm wt) None ;; ret tt) st).2
      = (for_os_walk d (walk_visit d confirm wt) None st0).2).
    { rewrite bind_state. simpl. rewrite bind_state. simpl.
      rewrite bind_state. fold st0.
      by destruct ((for_os_walk d (walk_visit d confirm wt) None st0).1). }
    rewrite bind_state, Hbody.
    destruct (for_os_walk_keeps_content m0 d confirm wt d None st0 D)
      as [Hk1 Ht1]; [| done | done |].
    { intros q Hq. apply Hfresh; [done | by left]. }
    assert (Hweak : ∀ st',
              tracks (in_dirs (λ q, D q ∨ (wt = true ∧ d `prefix_of` q))) st' →
              tracks (in_dirs (λ q, D q ∨ (wt = true ∧ under (d :: dirs) q)))
                st').
    { intros st'. apply tracks_weaken. intros p. apply in_dirs_mono.
      intros q [? | [? ?]]; [by left|]. right. split; [done|].
      exists d. split; [by left | done]. }
    match goal with |- context [match ?r with Ok _ => _ | Raise _ => _ end] =>
      destruct r as [[]|x]; [|split; [done | by apply Hweak]]
    end.
    destruct (IH (for_os_walk d (walk_visit d confirm wt) None st0).2
                (λ q, D q ∨ (wt = true ∧ d `prefix_of` q)))
      as [Hk2 Ht2]; [| | done | done |].
    + intros Hwt. by destruct (Hpw Hwt).
    + intros q [HD | [Hwt Hpre]] d' Hd' Hpre'.
      * by apply (Hfresh q HD d'); [right|].
      * destruct (Hpw Hwt) as [Hd _].
        eapply Forall_forall in Hd; [|exact Hd']. destruct Hd as [H1 H2].
        destruct (prefixes_comparable _ _ _ Hpre Hpre'); done.
    + split; [done|]. eapply tracks_weaken; [|exact Ht2].
      intros p. apply in_dirs_mono.
      intros q [[? | [? ?]] | [? (d' & Hd' & ?)]].
      * by left.
      * right. split; [done|]. exists d. split; [by left | done].
      * right. split; [done|]. exists d'. split; [by right | done].
Qed.

Lemma main_keeps_content args files lines :
  closed files →
  (∀ t ro, t ∈ target args → ro ∈ read_only args → ¬ t `prefix_of` ro) →
  content_kept files (main args (start files lines)).2.
Proof.
  intros Hcl Hapart.
  assert (Hstart : content_kept files (start files lines))
    by (intros p c Hp; by exists p).
  destruct (check_dir_args_cases (target args) (read_only args)
              (start files lines) Hcl) as [[Hacc Hrun] | [_ Hrun]];
    unfold main; rewrite bind_state, Hrun; simpl; [|done].
  destruct Hacc as (_ & Hperm & Hro).
  unfold deduplicate. rewrite bind_state.
  destruct (walk_dirs_keeps_content files (negb (yes args)) true (target args)
              (start files lines) (λ _, False)) as [Hk1 Ht1]; [| done | done | |].
  { intros _. by apply permutations2_pairwise. }
  { intros r Hr. by apply elem_of_nil in Hr. }
  destruct ((walk_dirs (target args) (negb (yes args)) true
               (start files lines)).1) as [[]|x]; [|done].
  rewrite bind_state.
  destruct (walk_dirs_keeps_content files (negb (yes args)) false
              (read_only args)
              (walk_dirs (target args) (negb (yes args)) true
                 (start files lines)).2
              (under (target args))) as [Hk2 _]; [done | | done | |].
  { intros q (t & Ht & Hpre) ro Hro' Hpre'.
    destruct (prefixes_comparable _ _ _ Hpre Hpre') as [Hc | Hc].
    - by apply (Hapart t ro).
    - eapply Forall_forall in Hro; [|exact Ht].
      eapply Forall_forall in Hro; [|exact Hro']. done. }
  { eapply tracks_weaken; [|exact Ht1]. intros p. apply in_dirs_mono.
    by intros q [[] | [_ ?]]. }
  destruct ((walk_dirs (read_only args) (negb (yes args)) false _).1)
    as [[]|x]; [|done].
  destruct (remove_empty_dirs args); [|done].
  intros p c Hp. destruct (Hk2 p c Hp) as [q Hq]. exists q.
  by apply remove_empty_directories_keeps_file.
Qed.

(** X23.  No content is lost.  On a file system in which every entry
    lies in a directory, in a run in which no read-only root is a target
    root or lies below one, whatever was the content of a regular file at
    the start is the content of a regular file at the end: a file is
    removed only while another file with the same bytes is there, and
    that other file is not removed later unless a third one is.  This
    holds for every answer at the prompt and however the run ends. *)
Theorem main_loses_no_content args files lines p c :
  closed files →
  (∀ t ro, t ∈ target args → ro ∈ read_only args → ¬ t `prefix_of` ro) →
  files !! p = Some (FileNode c) →
  ∃ q, fs (main args (start files lines)).2 !! q = Some (FileNode c).
Proof.
  intros Hcl Hapart Hp. by eapply main_keeps_content.
Qed.

Lemma main_loses_no_content_witness :
  ∃ q, fs (main (mkNamespace [["t"]] true [["ro"]] true)
             (start fs_ro_sub [])).2 !! q
       = Some (text "second!").
Proof.
  apply (main_loses_no_content (mkNamespace [["t"]] true [["ro"]] true)
           fs_ro_sub [] ["t"; "t2"] (list_byte_of_string "second!")).
  - by apply closedb_closed.
  - intros t ro Ht Hro [k Hk]. simpl in Ht, Hro.
    apply list_elem_of_singleton in Ht as ->.
    apply list_elem_of_singleton in Hro as ->. discriminate.
  - reflexivity.
Defined.

(** ** What a run with [--yes] leaves under the target roots *)

Lemma bind_result {A B} (m : M A) (f : A → M B) st :
  (bind m f st).1 = match (m st).1 with
                    | Ok a => (f a (m st).2).1
                    | Raise e => Raise e
                    end.
Proof. unfold bind. by destruct (m st) as [[a|e] st']. Qed.

Lemma grows_refl st : grows st st.
Proof. by split. Qed.

Lemma grows_trans st1 st2 st3 : grows st1 st2 → grows st2 st3 → grows st1 st3.
Proof. intros [H1 H2] [H3 H4]. split; [by etrans | auto]. Qed.

Lemma grows_same st st' :
  fs st' = fs st → session st' = session st → grows st st'.
Proof. intros Hf Hs. split; [by rewrite Hf | by rewrite Hs]. Qed.

Lemma settled_grows p st st' : grows st st' → settled p st → settled p st'.
Proof.
  intros [Hfs Hrows] Hset c Hc.
  destruct (Hset c) as (r & Hr & Hp); [by eapply lookup_weaken|].
  exists r. auto.
Qed.

Lemma scandir_lists (m : gmap path node) top dirs files x n :
  scandir m top = Some (dirs, files) → m !! join top x = Some n →
  if is_dir_node n then x ∈ dirs else x ∈ files.
Proof.
  unfold scandir. destruct (m !! top) as [[]|]; try done.
  intros [= <- <-] Hx.
  assert (Hin : (x, n) ∈ children m top).
  { unfold children. apply list_elem_of_omap. exists (join top x, n).
    split; [by apply elem_of_map_to_list|]. unfold is_child_of, join.
    rewrite bool_decide_eq_true_2.
    - by rewrite last_snoc.
    - split; [by destruct top | by rewrite parent_snoc]. }
  destruct (is_dir_node n) eqn:Hn; apply list_elem_of_fmap; exists (x, n);
    (split; [done|]); by apply list_elem_of_filter.
Qed.

Lemma os_walk_unfold {A} fuel top
    (body : path → list string → list string → A → M A) acc st :
  os_walk (S fuel) top body acc st =
    match scandir (fs st) top with
    | Some (dirs, files) =>
        (acc <- body top dirs files acc ;;
         os_walk_descend (λ t a, os_walk fuel t body a) top dirs acc) st
    | None => (Ok acc, st)
    end.
Proof.
  simpl. unfold bind at 1, gets.
  by destruct (scandir (fs st) top) as [[dirs files]|].
Qed.

Lemma closed_dir_above (m : gmap path node) (q : path) x k :
  closed m → is_Some (m !! (q ++ x :: k)) → m !! q = Some DirNode.
Proof.
  intros Hcl Hp. apply (closed_parent m q x Hcl).
  apply (closed_prefix m (q ++ [x]) k Hcl). by rewrite <- app_assoc.
Qed.

Lemma closed_walk_visit d confirm wt root dirs files skip st :
  closed (fs st) →
  closed (fs (walk_visit d confirm wt root dirs files skip st).2).
Proof.
  intros Hcl.
  apply (inv_walk_visit (λ st, closed (fs st)) (λ _, True) confirm);
    try done.
  - intros st' p c _ Hp Hcl'. by eapply closed_delete_file.
  - intros st' p _ _ Hch Hcl'. by apply closed_delete_empty_dir.
  - intros _. by apply Forall_forall.
Qed.

(** The gate without confirmation, in the walk of target roots: when it
    returns, the duplicate is gone and nothing is skipped. *)
Lemma on_duplicate_yes d cur sz t st :
  grows st (on_duplicate d false true cur sz t st).2 ∧
  ∀ s, (on_duplicate d false true cur sz t st).1 = Ok s →
       s = None ∧ fs (on_duplicate d false true cur sz t st).2 !! cur = None.
Proof.
  change (on_duplicate d false true cur sz t st)
    with (remove_with_confirm cur false
            (set_dir_stats (alter (count_dup sz) d) st)).
  rewrite remove_with_confirm_unasked. simpl.
  destruct (fs st !! cur) as [[c|]|] eqn:Hcur; simpl.
  - split; [split; [apply delete_subseteq | done]|].
    intros s [= <-]. split; [done|]. apply lookup_delete_eq.
  - destruct (children (fs st) cur); simpl.
    + split; [split; [apply delete_subseteq | done]|].
      intros s [= <-]. split; [done|]. apply lookup_delete_eq.
    + split; [by split | done].
  - split; [by split | done].
Qed.

Lemma examine_file_yes d root file st :
  grows st (examine_file d false true root file None st).2 ∧
  ∀ s, (examine_file d false true root file None st).1 = Ok s →
       s = None ∧
       settled (join root file) (examine_file d false true root file None st).2.
Proof.
  destruct (examine_file d false true root file None st) as [r st'] eqn:Hrun.
  simpl. revert Hrun. unfold examine_file.
  destruct (get_extension file) as [ext|] eqn:Hext;
    [|intros [= <- <-]; split; [apply grows_refl | done]].
  unfold bind at 1, ret. unfold bind at 1.
  pose proof (os_path_getsize_state (join root file) st) as Hsz.
  destruct (os_path_getsize (join root file) st) as [[sz|x] st1];
    simpl in Hsz; subst st1;
    [|intros [= <- <-]; split; [apply grows_refl | done]].
  unfold bind at 1, update_DirStats, modify.
  unfold bind at 1, session_query, gets. unfold bind at 1.
  match goal with |- context [rows_loop ?f ?c ?rows ?s ?st0] =>
    destruct (rows_loop f c rows s st0) as [rr st2] eqn:Hloop
  end.
  apply rows_loop_cases in Hloop
    as [(es & -> & -> & _) | [(es & e & rd & Hd & ->) | (es & x & -> & ->)]].
  - simpl. unfold bind, session_add, modify, ret. simpl.
    intros [= <- <-]. split.
    + split; [done|]. intros r Hr. simpl. apply elem_of_app. by left.
    + intros s [= <-]. split; [done|]. intros c _. eexists. split.
      * simpl. apply elem_of_app. right. by apply list_elem_of_singleton.
      * done.
  - destruct (on_duplicate_yes d (join root file) sz e
                (log es (set_dir_stats (alter (count_file sz) d) st)))
      as [Hg Hok].
    rewrite Hd in Hg, Hok. simpl in Hg, Hok.
    destruct rd as [s|x].
    + simpl. unfold bind, ret. intros [= <- <-].
      destruct (Hok s eq_refl) as [-> Hgone].
      split; [done|]. intros s' [= <-]. split; [done|].
      intros c Hc. congruence.
    + intros [= <- <-]. split; [done | done].
  - intros [= <- <-]. split; [by apply grows_same | done].
Qed.

Lemma files_loop_yes d root files :
  ∀ st,
    grows st (files_loop d false true root files None st).2 ∧
    ∀ s, (files_loop d false true root files None st).1 = Ok s →
         s = None ∧
         Forall (λ f, settled (join root f)
                        (files_loop d false true root files None st).2) files.
Proof.
  induction files as [|file rest IH]; intros st; simpl.
  - split; [apply grows_refl|]. by intros s [= <-].
  - rewrite bind_state, bind_result.
    destruct (examine_file_yes d root file st) as [Hg Hok].
    destruct ((examine_file d false true root file None st).1) as [s|x];
      [|split; [done | done]].
    destruct (Hok s eq_refl) as [-> Hset].
    destruct (IH (examine_file d false true root file None st).2)
      as [Hg' Hok'].
    split; [by eapply grows_trans|].
    intros s Hs. destruct (Hok' s Hs) as [-> Hall]. split; [done|].
    constructor; [|done]. by eapply settled_grows.
Qed.

Lemma walk_visit_yes d root dirs files st :
  grows st (walk_visit d false true root dirs files None st).2 ∧
  ∀ s, (walk_visit d false true root dirs files None st).1 = Ok s →
       s = None ∧
       Forall (λ f, settled (join root f)
                      (walk_visit d false true root dirs files None st).2)
         files.
Proof.
  change (walk_visit d false true root dirs files None st)
    with (files_loop d false true root files None
            (set_dir_stats (alter count_dir d) st)).
  destruct (files_loop_yes d root files
              (set_dir_stats (alter count_dir d) st)) as [Hg Hok].
  split; [|done]. eapply grows_trans; [|exact Hg]. by apply grows_same.
Qed.

Lemma below_join (top : path) x p :
  below (join top x) p → below top p.
Proof.
  intros (y & k & ->). exists x, (y :: k). unfold join.
  by rewrite <- app_assoc.
Qed.

(** The walk of a tree without confirmation: when it returns, every
    regular file below the top of the tree has a row. *)
Lemma os_walk_yes d fuel :
  ∀ top st,
    closed (fs st) →
    closed (fs (os_walk fuel top (walk_visit d false true) None st).2) ∧
    grows st (os_walk fuel top (walk_visit d false true) None st).2 ∧
    ∀ a, (os_walk fuel top (walk_visit d false true) None st).1 = Ok a →
         a = None ∧
         ∀ p, below top p →
              settled p (os_walk fuel top (walk_visit d false true) None st).2.
Proof.
  assert (Hnone : ∀ top st,
            closed (fs st) → scandir (fs st) top = None →
            ∀ p, below top p → settled p st).
  { intros top st Hcl Hls p (x & k & ->) c Hc. exfalso.
    assert (Hd : fs st !! top = Some DirNode)
      by (eapply closed_dir_above; [done | by eexists]).
    unfold scandir in Hls. by rewrite Hd in Hls. }
  induction fuel as [|fuel IH]; intros top st Hcl.
  - simpl. unfold bind, gets, raise, ret.
    destruct (scandir (fs st) top) as [[dirs files]|] eqn:Hls; simpl.
    + split; [done|]. split; [apply grows_refl | done].
    + split; [done|]. split; [apply grows_refl|].
      intros a [= <-]. split; [done|]. by apply Hnone.
  - rewrite os_walk_unfold.
    destruct (scandir (fs st) top) as [[dirs files]|] eqn:Hls.
    2: { simpl. split; [done|]. split; [apply grows_refl|].
         intros a [= <-]. split; [done|]. by apply Hnone. }
    rewrite bind_state, bind_result.
    pose proof (closed_walk_visit d false true top dirs files None st Hcl)
      as Hcl1.
    destruct (walk_visit_yes d top dirs files st) as [Hg1 Hok1].
    destruct ((walk_visit d false true top dirs files None st).1) as [a1|x];
      [|split; [done|]; split; [done | done]].
    destruct (Hok1 a1 eq_refl) as [-> Hfiles]. clear Hok1.
    set (st1 := (walk_visit d false true top dirs files None st).2) in *.
    assert (Hdesc : ∀ ds st2,
              closed (fs st2) →
              closed (fs (os_walk_descend
                        (λ t a, os_walk fuel t (walk_visit d false true) a)
                        top ds None st2).2) ∧
              grows st2 (os_walk_descend
                        (λ t a, os_walk fuel t (walk_visit d false true) a)
                        top ds None st2).2 ∧
              ∀ a, (os_walk_descend
                      (λ t a, os_walk fuel t (walk_visit d false true) a)
                      top ds None st2).1 = Ok a →
                   a = None ∧
                   ∀ dn, dn ∈ ds → ∀ p, below (join top dn) p →
                     settled p (os_walk_descend
                        (λ t a, os_walk fuel t (walk_visit d false true) a)
                        top ds None st2).2).
    { induction ds as [|dn ds IHd]; intros st2 Hcl2; simpl.
      - split; [done|]. split; [apply grows_refl|]. intros a [= <-].
        split; [done|]. intros dn Hdn. by apply elem_of_nil in Hdn.
      - rewrite bind_state, bind_result.
        destruct (IH (join top dn) st2 Hcl2) as (Hcl3 & Hg3 & Hok3).
        destruct ((os_walk fuel (join top dn) (walk_visit d false true) None
                     st2).1) as [a3|x]; [|split; [done|]; split; [done | done]].
        destruct (Hok3 a3 eq_refl) as [-> Hcov3]. clear Hok3.
        destruct (IHd _ Hcl3) as (Hcl4 & Hg4 & Hok4).
        split; [done|]. split; [by eapply grows_trans|].
        intros a Ha. destruct (Hok4 a Ha) as [-> Hcov4]. split; [done|].
        intros dn' Hdn' p Hp. apply elem_of_cons in Hdn' as [-> | Hdn'].
        + eapply settled_grows; [exact Hg4|]. by apply Hcov3.
        + by apply (Hcov4 dn'). }
    destruct (Hdesc dirs st1 Hcl1) as (Hcl2 & Hg2 & Hok2).
    split; [done|]. split; [by eapply grows_trans|].
    intros a Ha. destruct (Hok2 a Ha) as [-> Hcov]. split; [done|].
    intros p (x & k & ->) c Hc.
    assert (Hst : grows st (os_walk_descend
                    (λ t a, os_walk fuel t (walk_visit d false true) a)
                    top dirs None st1).2) by (by eapply grows_trans).
    destruct k as [|y k].
    + assert (Hx : x ∈ files).
      { apply (scandir_lists _ _ _ _ x (FileNode c) Hls).
        destruct Hst as [Hsub _]. by eapply lookup_weaken. }
      eapply Forall_forall in Hfiles; [|exact Hx].
      by apply (settled_grows _ _ _ Hg2 Hfiles c).
    + assert (Hx : x ∈ dirs).
      { apply (scandir_lists _ _ _ _ x DirNode Hls).
        destruct Hst as [Hsub _]. eapply lookup_weaken; [|exact Hsub].
        apply (closed_dir_above _ (top ++ [x]) y k Hcl2).
        rewrite <- app_assoc. by eexists. }
      refine (Hcov x Hx (top ++ x :: y :: k) _ c Hc).
      exists y, k. unfold join. by rewrite <- app_assoc.
Qed.

Lemma walk_dirs_yes dirs_to_walk :
  ∀ st,
    closed (fs st) →
    closed (fs (walk_dirs dirs_to_walk false true st).2) ∧
    grows st (walk_dirs dirs_to_walk false true st).2 ∧
    ((walk_dirs dirs_to_walk false true st).1 = Ok tt →
     ∀ d, d ∈ dirs_to_walk → ∀ p, below d p →
          settled p (walk_dirs dirs_to_walk false true st).2).
Proof.
  unfold walk_dirs.
  induction dirs_to_walk as [|d dirs IH]; intros st Hcl; simpl.
  - split; [done|]. split; [apply grows_refl|]. intros _ d Hd.
    by apply elem_of_nil in Hd.
  - set (st0 := set_dir_stats (alter (mark_root true d) d)
                  (set_dir_stats (λ m, match m !! d with
                                       | Some _ => m
                                       | None => <[d := new_DirStats]> m
                                       end) st)).
    set (walk := os_walk (S (fs_depth (fs st0))) d (walk_visit d false true)
                   None st0).
    set (body := (dir_stats_item d ;;
                  update_DirStats d (mark_root true d) ;;
                  for_os_walk d (walk_visit d false true) None ;; ret tt)).
    assert (Hbody2 : (body st).2 = walk.2).
    { unfold body. rewrite bind_state. simpl. rewrite bind_state. simpl.
      rewrite bind_state. fold st0.
      change (for_os_walk d (walk_visit d false true) None st0) with walk.
      by destruct (walk.1). }
    assert (Hbody1 : (body st).1
                     = match walk.1 with Ok _ => Ok tt | Raise e => Raise e end).
    { unfold body. rewrite bind_result. simpl. rewrite bind_result. simpl.
      rewrite bind_result. fold st0.
      change (for_os_walk d (walk_visit d false true) None st0) with walk.
      by destruct (walk.1). }
    rewrite (bind_state body), (bind_result body), Hbody1, Hbody2.
    destruct (os_walk_yes d (S (fs_depth (fs st0))) d st0 Hcl)
      as (Hcl1 & Hg1 & Hok1). fold walk in Hcl1, Hg1, Hok1.
    assert (Hg0 : grows st walk.2)
      by (eapply grows_trans; [|exact Hg1]; by apply grows_same).
    destruct (walk.1) as [a|x]; [|split; [done|]; split; [done | done]].
    destruct (Hok1 a eq_refl) as [_ Hcov1]. clear Hok1.
    destruct (IH walk.2 Hcl1) as (Hcl2 & Hg2 & Hok2).
    split; [done|]. split; [by eapply grows_trans|].
    intros Hrun d' Hd' p Hp. apply elem_of_cons in Hd' as [-> | Hd'].
    + eapply settled_grows; [exact Hg2|]. by apply Hcov1.
    + by apply (Hok2 Hrun d').
Qed.

(** X24.  A run with [--yes] that returns leaves no two copies of a file
    under the target roots: on a file system in which every entry lies
    in a directory, two different regular files that are then under
    target roots and have the same bytes have names with different
    extensions. *)
Theorem main_yes_leaves_no_duplicates args files lines root1 file1 root2 file2
    c :
  closed files → yes args = true →
  (main args (start files lines)).1 = Ok tt →
  under (target args) (join root1 file1) →
  under (target args) (join root2 file2) →
  join root1 file1 ≠ join root2 file2 →
  fs (main args (start files lines)).2 !! join root1 file1
    = Some (FileNode c) →
  fs (main args (start files lines)).2 !! join root2 file2
    = Some (FileNode c) →
  get_extension file1 ≠ get_extension file2.
Proof.
  intros Hcl Hyes Hrun Hu1 Hu2 Hne Hc1 Hc2.
  destruct (check_dir_args_cases (target args) (read_only args)
              (start files lines) Hcl) as [[Hacc Hchk] | [_ Hchk]];
    revert Hrun Hc1 Hc2; unfold main; rewrite bind_state, bind_result, Hchk;
    simpl; [|done].
  destruct Hacc as (Hdirs & _ & _).
  unfold deduplicate. rewrite Hyes. simpl.
  rewrite bind_state, bind_result.
  destruct (walk_dirs_yes (target args) (start files lines) Hcl)
    as (_ & [HgT _] & HokT).
  assert (HcatT : catalog_ok
                    (walk_dirs (target args) false true (start files lines)).2).
  { apply (walk_dirs_keeps_catalog (target args) false true
             (start files lines)).
    split; [|split]; simpl; by constructor. }
  destruct ((walk_dirs (target args) false true (start files lines)).1)
    as [[]|x]; [|done].
  specialize (HokT eq_refl).
  set (stT := (walk_dirs (target args) false true (start files lines)).2) in *.
  rewrite bind_state. intros _ Hc1 Hc2.
  assert (Hend : ∀ p n,
            fs match (walk_dirs (read_only args) false false stT).1 with
               | Ok _ =>
                   ((if remove_empty_dirs args
                     then remove_empty_directories (target args) false
                     else ret tt)
                      (walk_dirs (read_only args) false false stT).2).2
               | Raise _ => (walk_dirs (read_only args) false false stT).2
               end !! p = Some n →
            fs stT !! p = Some n).
  { intros p n Hp.
    destruct (walk_dirs_shrinks (read_only args) false false stT) as [Hro _].
    unfold shrinks in Hro.
    destruct ((walk_dirs (read_only args) false false stT).1);
      [|by eapply lookup_weaken].
    destruct (remove_empty_dirs args); [|by eapply lookup_weaken].
    destruct (remove_empty_directories_shrinks (target args) false
                (walk_dirs (read_only args) false false stT).2) as [Hpr _].
    unfold shrinks in Hpr. eapply lookup_weaken; [|exact Hro].
    by eapply lookup_weaken. }
  apply Hend in Hc1, Hc2. clear Hend.
  assert (Hrow : ∀ p, under (target args) p →
                      fs stT !! p = Some (FileNode c) →
                      ∃ r, r ∈ session stT ∧ full_path r = p).
  { intros p (t & Ht & [k ->]) Hp.
    destruct k as [|x k].
    - rewrite app_nil_r in Hp.
      eapply Forall_forall in Hdirs; [|apply elem_of_app; left; exact Ht].
      simpl in Hdirs, HgT. apply (lookup_weaken _ _ _ _ Hp) in HgT.
      congruence.
    - refine (HokT t Ht (t ++ x :: k) _ c Hp). by exists x, k. }
  destruct (Hrow _ Hu1 Hc1) as (r1 & Hr1 & Hp1).
  destruct (Hrow _ Hu2 Hc2) as (r2 & Hr2 & Hp2).
  apply list_elem_of_lookup in Hr1 as [i Hi].
  apply list_elem_of_lookup in Hr2 as [j Hj].
  assert (Hij : i ≠ j) by (intros ->; congruence).
  pose proof (catalog_ok_unique stT HcatT i j r1 r2 c Hi Hj Hij) as Hext.
  rewrite Hp1, Hp2 in Hext. specialize (Hext Hc1 Hc2).
  destruct HcatT as (_ & Hrec & _).
  assert (He1 : extension_recorded r1)
    by (eapply Forall_forall; [exact Hrec | by eapply list_elem_of_lookup_2]).
  assert (He2 : extension_recorded r2)
    by (eapply Forall_forall; [exact Hrec | by eapply list_elem_of_lookup_2]).
  destruct He1 as (ra & fa & Hpa & Hxa). destruct He2 as (rb & fb & Hpb & Hxb).
  rewrite Hp1 in Hpa. rewrite Hp2 in Hpb.
  apply join_inj in Hpa as [_ <-]. apply join_inj in Hpb as [_ <-].
  congruence.
Qed.

Lemma main_yes_leaves_no_duplicates_witness :
  get_extension "a.txt" ≠ get_extension "a.bak".
Proof.
  apply (main_yes_leaves_no_duplicates (mkNamespace [["t"]] true [] true)
           fs_two_ext [] ["t"] "a.txt" ["t"] "a.bak"
           (list_byte_of_string "same")).
  - by apply closedb_closed.
  - reflexivity.
  - vm_compute. reflexivity.
  - exists ["t"]. split; [by apply list_elem_of_singleton | by exists ["a.txt"]].
  - exists ["t"]. split; [by apply list_elem_of_singleton | by exists ["a.bak"]].
  - discriminate.
  - vm_compute. reflexivity.
  - vm_compute. reflexivity.
Defined.

(** ** What the pruning with [--yes] leaves *)

Lemma pairwise_app {A} (R : A → A → Prop) l1 l2 :
  pairwise R l1 → pairwise R l2 →
  (∀ x y, x ∈ l1 → y ∈ l2 → R x y) →
  pairwise R (l1 ++ l2).
Proof.
  induction l1 as [|x l1 IH]; simpl; [done|].
  intros [Hx Hl1] Hl2 Hcross. split.
  - apply Forall_app. split; [done|]. apply Forall_forall. intros y Hy.
    apply Hcross; [by left | done].
  - apply IH; [done | done|]. intros a b Ha Hb. apply Hcross; [by right | done].
Qed.

Lemma pairwise_rev {A} (R : A → A → Prop) l :
  pairwise R l → pairwise (λ x y, R y x) (rev l).
Proof.
  induction l as [|x l IH]; simpl; [done|]. intros [Hx Hl].
  apply pairwise_snoc; [by apply IH|]. apply Forall_forall. intros y Hy.
  apply list_elem_of_In, in_rev, list_elem_of_In in Hy.
  by eapply Forall_forall in Hx.
Qed.

Lemma scandir_nil_children (m : gmap path node) top :
  scandir m top = Some ([], []) → children m top = [].
Proof.
  unfold scandir. destruct (m !! top) as [[]|]; try done.
  destruct (children m top) as [|[x n] l]; [done|].
  rewrite !filter_cons. simpl. by destruct n.
Qed.

Lemma keeps_files_trans st1 st2 st3 :
  keeps_files (fs st1) st2 → keeps_files (fs st2) st3 →
  keeps_files (fs st1) st3.
Proof. intros [H1 H2] [H3 H4]. split; [by etrans | eauto]. Qed.

Lemma keeps_files_same st st' : fs st' = fs st → keeps_files (fs st) st'.
Proof. intros Hfs. unfold keeps_files. rewrite Hfs. by split. Qed.

(** One directory of the first pass. *)
Lemma prune_visit_yes d top dirs files stack st :
  closed (fs st) → scandir (fs st) top = Some (dirs, files) →
  closed (fs (prune_visit d false top dirs files stack st).2) ∧
  keeps_files (fs st) (prune_visit d false top dirs files stack st).2 ∧
  ∀ a, (prune_visit d false top dirs files stack st).1 = Ok a →
       (a = stack ∧
        fs (prune_visit d false top dirs files stack st).2 !! top = None) ∨
       (files = [] ∧ a = stack ++ [(top, d)]) ∨
       (files ≠ [] ∧ a = stack).
Proof.
  intros Hcl Hls. unfold prune_visit.
  destruct (decide (files = [] ∧ dirs = [])) as [[-> ->] | Hne].
  - rewrite bool_decide_eq_true_2 by done.
    change ((update_DirStats d count_empty_dir ;;
             remove_with_confirm top false ;; ret stack) st)
      with ((remove_with_confirm top false ;; ret stack)
              (set_dir_stats (alter count_empty_dir d) st)).
    rewrite bind_state, bind_result, remove_with_confirm_unasked. simpl.
    rewrite (scandir_Some _ _ _ Hls), (scandir_nil_children _ _ Hls). simpl.
    split; [by apply closed_delete_empty_dir, Hcl; apply scandir_nil_children|].
    split.
    + split; [apply delete_subseteq|]. intros p c Hp. simpl.
      rewrite lookup_delete_ne; [done|]. intros ->.
      rewrite (scandir_Some _ _ _ Hls) in Hp. done.
    + intros a [= <-]. left. split; [done|]. simpl. apply lookup_delete_eq.
  - rewrite bool_decide_eq_false_2 by done.
    destruct (decide (files = [])) as [-> | Hf].
    + rewrite bool_decide_eq_true_2 by done. simpl.
      split; [done|]. split; [by apply keeps_files_same|].
      intros a [= <-]. right. by left.
    + rewrite bool_decide_eq_false_2 by done. simpl.
      split; [done|]. split; [by apply keeps_files_same|].
      intros a [= <-]. right. by right.
Qed.

Lemma prefix_cases (top q : path) :
  top `prefix_of` q → q = top ∨ below top q.
Proof.
  intros [k ->]. destruct k as [|x k]; [left; by rewrite app_nil_r|].
  right. by exists x, k.
Qed.

Lemma below_length (top p : path) :
  below top p → (length top < length p)%nat.
Proof. intros (x & k & ->). rewrite length_app. simpl. lia. Qed.

Lemma below_prefix (top q p : path) :
  top `prefix_of` q → below q p → below top p.
Proof.
  intros [k ->] (x & k' & ->). destruct k as [|y k].
  - rewrite app_nil_r. by exists x, k'.
  - exists y, (k ++ x :: k'). by rewrite <- app_assoc.
Qed.

(** The first pass over a tree, without confirmation: when it returns,
    the directories it has put on the stack are at or below the top of
    the tree, none of them above an earlier one, and every directory
    left in the tree is on the stack or has a regular file among its
    entries. *)
Lemma os_walk_prune_yes d fuel :
  ∀ top stack st,
    closed (fs st) →
    closed (fs (os_walk fuel top (prune_visit d false) stack st).2) ∧
    keeps_files (fs st) (os_walk fuel top (prune_visit d false) stack st).2 ∧
    ∀ a, (os_walk fuel top (prune_visit d false) stack st).1 = Ok a →
         ∃ new, a = stack ++ new ∧
                Forall (λ e, top `prefix_of` e.1) new ∧
                pairwise not_above new ∧
                handled new
                  (os_walk fuel top (prune_visit d false) stack st).2 top.
Proof.
  assert (Hnone : ∀ top st,
            closed (fs st) → scandir (fs st) top = None → handled [] st top).
  { intros top st Hcl Hls q Hq Hd. exfalso.
    assert (Htop : fs st !! top = Some DirNode).
    { apply prefix_cases in Hq as [-> | (x & k & ->)]; [done|].
      eapply closed_dir_above; [done | by eexists]. }
    unfold scandir in Hls. by rewrite Htop in Hls. }
  assert (Hstop : ∀ top stack st,
            closed (fs st) → scandir (fs st) top = None →
            ∀ a, Ok stack = Ok a →
                 ∃ new : list (path * path),
                   a = stack ++ new ∧
                   Forall (λ e, top `prefix_of` e.1) new ∧
                   pairwise not_above new ∧ handled new st top).
  { intros top stack st Hcl Hls a [= <-]. exists [].
    rewrite app_nil_r. split; [done|]. split; [done|]. split; [done|].
    by apply Hnone. }
  induction fuel as [|fuel IH]; intros top stack st Hcl.
  - simpl. unfold bind, gets, raise, ret.
    destruct (scandir (fs st) top) as [[dirs files]|] eqn:Hls; simpl.
    + split; [done|]. split; [by apply keeps_files_same | done].
    + split; [done|]. split; [by apply keeps_files_same|]. by apply Hstop.
  - rewrite os_walk_unfold.
    destruct (scandir (fs st) top) as [[dirs files]|] eqn:Hls.
    2: { simpl. split; [done|]. split; [by apply keeps_files_same|].
         by apply Hstop. }
    destruct (scandir_NoDup _ _ _ _ Hls) as [Hnd_dirs _].
    rewrite bind_state, bind_result.
    destruct (prune_visit_yes d top dirs files stack st Hcl Hls)
      as (Hcl1 & Hk1 & Hok1).
    destruct ((prune_visit d false top dirs files stack st).1) as [a1|x];
      [|split; [done|]; split; [done | done]].
    specialize (Hok1 a1 eq_refl).
    set (st1 := (prune_visit d false top dirs files stack st).2) in *.
    assert (Hdesc : ∀ ds, NoDup ds → ∀ stack2 st2,
              closed (fs st2) →
              closed (fs (os_walk_descend (λ t a, os_walk fuel t (prune_visit d false) a) top ds stack2 st2).2) ∧
              keeps_files (fs st2) (os_walk_descend (λ t a, os_walk fuel t (prune_visit d false) a) top ds stack2 st2).2 ∧
              ∀ a, (os_walk_descend (λ t a, os_walk fuel t (prune_visit d false) a) top ds stack2 st2).1 = Ok a →
                   ∃ new, a = stack2 ++ new ∧
                     Forall (λ e, ∃ dn, dn ∈ ds ∧ join top dn `prefix_of` e.1)
                       new ∧
                     pairwise not_above new ∧
                     ∀ dn, dn ∈ ds →
                       handled new (os_walk_descend (λ t a, os_walk fuel t (prune_visit d false) a) top ds stack2 st2).2
                         (join top dn)).
    { induction 1 as [|dn ds Hdn Hnd IHd]; intros stack2 st2 Hcl2; simpl.
      - split; [done|]. split; [by apply keeps_files_same|].
        intros a [= <-]. exists []. rewrite app_nil_r.
        split; [done|]. split; [done|]. split; [done|].
        intros dn Hdn. by apply elem_of_nil in Hdn.
      - rewrite bind_state, bind_result. cbv beta.
        destruct (IH (join top dn) stack2 st2 Hcl2) as (Hcl3 & Hk3 & Hok3).
        destruct ((os_walk fuel (join top dn) (prune_visit d false) stack2
                     st2).1) as [a3|x]; [|split; [done|]; split; [done | done]].
        destruct (Hok3 a3 eq_refl) as (new3 & -> & Hin3 & Hpw3 & Hh3).
        clear Hok3.
        destruct (IHd (stack2 ++ new3) _ Hcl3) as (Hcl4 & Hk4 & Hok4).
        split; [done|]. split; [by eapply keeps_files_trans|].
        intros a Ha.
        destruct (Hok4 a Ha) as (new4 & -> & Hin4 & Hpw4 & Hh4).
        exists (new3 ++ new4). split; [by rewrite app_assoc|].
        split; [|split].
        + apply Forall_app. split.
          * eapply Forall_impl; [exact Hin3|]. intros e He. exists dn.
            split; [by left | done].
          * eapply Forall_impl; [exact Hin4|]. intros e (dn' & Hdn' & He).
            exists dn'. split; [by right | done].
        + apply pairwise_app; [done | done|].
          intros e e' He He' Hbelow.
          eapply Forall_forall in Hin3; [|exact He].
          eapply Forall_forall in Hin4; [|exact He'].
          destruct Hin4 as (dn' & Hdn' & Hpre').
          assert (Hp1 : join top dn `prefix_of` e.1) by done.
          assert (Hp2 : join top dn' `prefix_of` e.1).
          { etrans; [exact Hpre'|]. destruct Hbelow as (y & k & ->).
            by apply prefix_app_r. }
          destruct (prefixes_comparable _ _ _ Hp1 Hp2) as [Hc | Hc];
            apply prefix_join_same_length in Hc; by subst.
        + intros dn' Hdn' q Hq Hd.
          apply elem_of_cons in Hdn' as [-> | Hdn'].
          * destruct Hk4 as [Hsub4 Hfile4].
            destruct (Hh3 q Hq) as [Hin | (f & c & Hf)];
              [by eapply lookup_weaken | |].
            -- left. rewrite fmap_app. apply elem_of_app. by left.
            -- right. exists f, c. by apply Hfile4.
          * destruct (Hh4 dn' Hdn' q Hq Hd) as [Hin | Hf]; [|by right].
            left. rewrite fmap_app. apply elem_of_app. by right. }
    destruct (Hdesc dirs Hnd_dirs a1 st1 Hcl1) as (Hcl2 & Hk2 & Hok2).
    split; [done|]. split; [by eapply keeps_files_trans|].
    intros a Ha. destruct (Hok2 a Ha) as (newd & -> & Hind & Hpwd & Hhd).
    set (st2 := (os_walk_descend (λ t a, os_walk fuel t (prune_visit d false) a) top dirs a1 st1).2) in *.
    assert (Hbelow : ∀ q, below top q → fs st2 !! q = Some DirNode →
                          q ∈ newd.*1 ∨
                          ∃ f c, fs st2 !! (q ++ [f]) = Some (FileNode c)).
    { intros q (x & k & ->) Hd.
      assert (Hx : x ∈ dirs).
      { apply (scandir_lists _ _ _ _ x DirNode Hls).
        destruct Hk1 as [Hs1 _]. destruct Hk2 as [Hs2 _].
        eapply lookup_weaken; [|exact Hs1].
        eapply lookup_weaken; [|exact Hs2].
        destruct k as [|y k]; [done|].
        apply (closed_dir_above _ (top ++ [x]) y k Hcl2).
        rewrite <- app_assoc. by eexists. }
      apply (Hhd x Hx); [|done].
      exists k. unfold join. by rewrite <- app_assoc. }
    assert (Hfromd : Forall (λ e : path * path, below top e.1) newd).
    { eapply Forall_impl; [exact Hind|]. intros e (dn & _ & [k Hk]).
      exists dn, k. rewrite Hk. unfold join. by rewrite <- app_assoc. }
    destruct Hok1 as [[-> Hgone] | [[-> ->] | [Hfiles ->]]].
    + exists newd. split; [done|]. split; [|split; [done|]].
      * eapply Forall_impl; [exact Hfromd|]. intros e (x & k & ->).
        by apply prefix_app_r.
      * intros q Hq Hd. apply prefix_cases in Hq as [-> | Hq];
          [|by apply Hbelow].
        destruct Hk2 as [Hs2 _]. apply (lookup_weaken _ _ _ _ Hd) in Hs2.
        congruence.
    + exists ((top, d) :: newd). split; [by rewrite <- app_assoc|].
      split; [|split].
      * constructor; [done|]. eapply Forall_impl; [exact Hfromd|].
        intros e (x & k & ->). by apply prefix_app_r.
      * simpl. split; [|done]. eapply Forall_impl; [exact Hfromd|].
        intros e He Habove. simpl in Habove.
        apply below_length in He, Habove. lia.
      * intros q Hq Hd. apply prefix_cases in Hq as [-> | Hq].
        -- left. simpl. by left.
        -- destruct (Hbelow q Hq Hd) as [Hin | Hf]; [|by right].
           left. simpl. by right.
    + exists newd. split; [done|]. split; [|split; [done|]].
      * eapply Forall_impl; [exact Hfromd|]. intros e (x & k & ->).
        by apply prefix_app_r.
      * intros q Hq Hd. apply prefix_cases in Hq as [-> | Hq];
          [|by apply Hbelow].
        right. destruct files as [|f files]; [done|].
        destruct (scandir_files _ _ _ _ f Hls) as [c Hc]; [by left|].
        exists f, c. destruct Hk1 as [_ Hf1]. destruct Hk2 as [_ Hf2].
        by apply Hf2, Hf1.
Qed.

Lemma children_lookup (m : gmap path node) top y n :
  (y, n) ∈ children m top → m !! join top y = Some n.
Proof.
  unfold children. intros Hin.
  apply list_elem_of_omap in Hin as ([p n'] & Hp & Hc).
  apply elem_of_map_to_list in Hp. unfold is_child_of in Hc.
  case_bool_decide as Hch; [|done]. destruct Hch as [Hne Hpar].
  destruct p as [|x p _] using rev_ind; [done|].
  rewrite last_snoc in Hc. simpl in Hc. injection Hc as -> ->.
  rewrite parent_snoc in Hpar. by subst top.
Qed.

(** The first pass over all roots. *)
Lemma prune_first_pass_yes target_dirs :
  pairwise (λ d d', ¬ d `prefix_of` d' ∧ ¬ d' `prefix_of` d) target_dirs →
  ∀ stack st,
    closed (fs st) →
    closed (fs (for_each target_dirs
                  (λ d s, dir_stats_item d ;;
                          for_os_walk d (prune_visit d false) s)
                  stack st).2) ∧
    keeps_files (fs st)
      (for_each target_dirs
         (λ d s, dir_stats_item d ;; for_os_walk d (prune_visit d false) s)
         stack st).2 ∧
    ∀ a, (for_each target_dirs
            (λ d s, dir_stats_item d ;; for_os_walk d (prune_visit d false) s)
            stack st).1 = Ok a →
         ∃ new, a = stack ++ new ∧
                Forall (λ e, under target_dirs e.1) new ∧
                pairwise not_above new ∧
                ∀ t, t ∈ target_dirs →
                  handled new
                    (for_each target_dirs
                       (λ d s, dir_stats_item d ;;
                               for_os_walk d (prune_visit d false) s)
                       stack st).2 t.
Proof.
  induction target_dirs as [|d ts IH]; intros Hpw stack st Hcl; simpl.
  - split; [done|]. split; [by apply keeps_files_same|].
    intros a [= <-]. exists []. rewrite app_nil_r.
    split; [done|]. split; [done|]. split; [done|].
    intros t Ht. by apply elem_of_nil in Ht.
  - destruct Hpw as [Hd Hpw].
    set (st0 := set_dir_stats (λ m, match m !! d with
                                    | Some _ => m
                                    | None => <[d := new_DirStats]> m
                                    end) st).
    set (body := (dir_stats_item d ;;
                  for_os_walk d (prune_visit d false) stack)).
    change (body st)
      with (os_walk (S (fs_depth (fs st0))) d (prune_visit d false) stack st0)
      in *.
    rewrite (bind_state body), (bind_result body).
    change (body st)
      with (os_walk (S (fs_depth (fs st0))) d (prune_visit d false) stack st0).
    destruct (os_walk_prune_yes d (S (fs_depth (fs st0))) d stack st0 Hcl)
      as (Hcl1 & Hk1 & Hok1).
    destruct ((os_walk (S (fs_depth (fs st0))) d (prune_visit d false) stack
                 st0).1) as [a1|x]; [|split; [done|]; split; [done | done]].
    destruct (Hok1 a1 eq_refl) as (new1 & -> & Hin1 & Hpw1 & Hh1).
    clear Hok1.
    destruct (IH Hpw (stack ++ new1) _ Hcl1) as (Hcl2 & Hk2 & Hok2).
    split; [done|].
    split; [eapply (keeps_files_trans st0); [exact Hk1 | exact Hk2]|].
    intros a Ha. destruct (Hok2 a Ha) as (new2 & -> & Hin2 & Hpw2 & Hh2).
    exists (new1 ++ new2). split; [by rewrite app_assoc|]. split; [|split].
    + apply Forall_app. split.
      * eapply Forall_impl; [exact Hin1|]. intros e He. exists d.
        split; [by left | done].
      * eapply Forall_impl; [exact Hin2|]. intros e (t & Ht & He).
        exists t. split; [by right | done].
    + apply pairwise_app; [done | done|].
      intros e e' He He' Hbelow.
      eapply Forall_forall in Hin1; [|exact He].
      eapply Forall_forall in Hin2; [|exact He'].
      destruct Hin2 as (t & Ht & Hpre').
      assert (Hp2 : t `prefix_of` e.1).
      { etrans; [exact Hpre'|]. destruct Hbelow as (y & k & ->).
        by apply prefix_app_r. }
      eapply Forall_forall in Hd; [|exact Ht]. destruct Hd as [H1 H2].
      destruct (prefixes_comparable _ _ _ Hin1 Hp2); done.
    + intros t Ht q Hq Hdir. apply elem_of_cons in Ht as [-> | Ht].
      * destruct Hk2 as [Hsub2 Hfile2].
        destruct (Hh1 q Hq) as [Hin | (f & c & Hf)];
          [by eapply lookup_weaken | |].
        -- left. rewrite fmap_app. apply elem_of_app. by left.
        -- right. exists f, c. by apply Hfile2.
      * destruct (Hh2 t Ht q Hq Hdir) as [Hin | Hf]; [|by right].
        left. rewrite fmap_app. apply elem_of_app. by right.
Qed.

(** One round of the second pass. *)
Lemma retry_step_yes e t st :
  let G := ignore_ENOTEMPTY
             (remove_with_confirm e false ;;
              dir_stats_item t ;; update_DirStats t count_empty_dir) st in
  (fs G.2 = fs st ∧
   (G.1 = Ok tt → fs st !! e = Some DirNode →
    ∃ y n, fs st !! (e ++ [y]) = Some n)) ∨
  fs G.2 = delete e (fs st).
Proof.
  simpl.
  destruct (ignore_ENOTEMPTY
              (remove_with_confirm e false ;;
               dir_stats_item t ;; update_DirStats t count_empty_dir) st)
    as [r st'] eqn:HG.
  simpl. revert HG. unfold ignore_ENOTEMPTY, bind at 1.
  rewrite remove_with_confirm_unasked. simpl.
  destruct (fs st !! e) as [[c|]|] eqn:He; simpl.
  - intros [= <- <-]. by right.
  - destruct (children (fs st) e) as [|[y n] l] eqn:Hch; simpl.
    + intros [= <- <-]. by right.
    + intros [= <- <-]. left. split; [done|]. intros _ _. exists y, n.
      apply (children_lookup (fs st) e y n). rewrite Hch. by left.
  - intros [= <- <-]. left. by split.
Qed.

Lemma retry_loop_yes stack :
  pairwise (λ x y : path * path, ¬ below x.1 y.1) stack →
  ∀ st,
    fs (retry_loop false stack st).2 ⊆ fs st ∧
    (∀ p, p ∉ stack.*1 → fs (retry_loop false stack st).2 !! p = fs st !! p) ∧
    ((retry_loop false stack st).1 = Ok tt →
     ∀ x, x ∈ stack → fs (retry_loop false stack st).2 !! x.1 = Some DirNode →
          ∃ y n, fs (retry_loop false stack st).2 !! (x.1 ++ [y]) = Some n).
Proof.
  induction stack as [|[e t] rest IH]; intros Hpw st; simpl.
  - split; [done|]. split; [done|]. intros _ x Hx. by apply elem_of_nil in Hx.
  - destruct Hpw as [He Hpw].
    set (step := ignore_ENOTEMPTY
                   (remove_with_confirm e false ;;
                    dir_stats_item t ;; update_DirStats t count_empty_dir)).
    rewrite (bind_state step), (bind_result step).
    pose proof (retry_step_yes e t st) as Hstep. simpl in Hstep.
    fold step in Hstep.
    destruct (IH Hpw (step st).2) as (Hsub & Hframe & Hok).
    assert (Hsub1 : fs (step st).2 ⊆ fs st).
    { destruct Hstep as [[-> _] | ->]; [done | apply delete_subseteq]. }
    assert (Hframe1 : ∀ p, p ≠ e → fs (step st).2 !! p = fs st !! p).
    { intros p Hp. destruct Hstep as [[-> _] | ->]; [done|].
      by rewrite lookup_delete_ne. }
    destruct ((step st).1) as [[]|x] eqn:Hres.
    + split; [by etrans|]. split.
      * intros p Hp. apply not_elem_of_cons in Hp as [Hpe Hp].
        rewrite Hframe by done. by apply Hframe1.
      * intros Hrun x Hx Hdir. apply elem_of_cons in Hx as [-> | Hx];
          [|by apply Hok]. simpl in *.
        assert (Hdir1 : fs (step st).2 !! e = Some DirNode)
          by (by eapply lookup_weaken).
        destruct Hstep as [[Hfs Hchild] | Hdel];
          [|rewrite Hdel, lookup_delete_eq in Hdir1; done].
        destruct Hchild as (y & n & Hy); [done | by rewrite <- Hfs|].
        exists y, n. rewrite Hframe; [by rewrite Hfs|].
        intros Hin. apply list_elem_of_fmap in Hin as (r & Hr1 & Hr).
        eapply Forall_forall in He; [|exact Hr]. apply He.
        rewrite <- Hr1. by exists y, [].
    + split; [done|]. split; [|done].
      intros p Hp. apply not_elem_of_cons in Hp as [Hpe Hp]. by apply Hframe1.
Qed.

Lemma entries_hold_file (m : gmap path node) roots :
  (∀ q, under roots q → m !! q = Some DirNode →
        ∃ y n, m !! (q ++ [y]) = Some n) →
  ∀ q, under roots q → m !! q = Some DirNode → holds_file m q.
Proof.
  intros Hentry.
  assert (Hgen : ∀ n q, (fs_depth m < length q + n)%nat →
                        under roots q → m !! q = Some DirNode →
                        holds_file m q).
  { induction n as [|n IH]; intros q Hlen Hu Hd.
    - pose proof (fs_depth_bound m q (mk_is_Some _ _ Hd)). lia.
    - destruct (Hentry q Hu Hd) as (y & [c|] & Hy).
      + exists (q ++ [y]), c. split; [done | by apply prefix_app_r].
      + destruct (IH (q ++ [y])) as (f & c & Hf & Hpre); [| |done|].
        * rewrite length_app. simpl. lia.
        * destruct Hu as (t & Ht & Hpre). exists t. split; [done|].
          by apply prefix_app_r.
        * exists f, c. split; [done|]. etrans; [|exact Hpre].
          by apply prefix_app_r. }
  intros q. apply (Hgen (S (fs_depth m))). lia.
Qed.

(** X25.  After a pruning without confirmation that returns, no
    directory without files is left under the target roots: on a file
    system in which every entry lies in a directory, and for target roots
    of which none is an initial segment of another, every directory that
    is then at or below a target root has a regular file somewhere below
    it. *)
Theorem pruning_yes_leaves_no_empty_tree target_dirs st q :
  closed (fs st) →
  Forall (λ pr : path * path, ¬ pr.2 `prefix_of` pr.1)
    (permutations2 target_dirs) →
  (remove_empty_directories target_dirs false st).1 = Ok tt →
  under target_dirs q →
  fs (remove_empty_directories target_dirs false st).2 !! q = Some DirNode →
  holds_file (fs (remove_empty_directories target_dirs false st).2) q.
Proof.
  intros Hcl Hperm Hrun. revert q.
  apply entries_hold_file. intros q Hu Hdir.
  pose proof (remove_empty_directories_keeps_file target_dirs false st)
    as Hfiles.
  revert Hrun Hdir Hfiles. unfold remove_empty_directories.
  set (pass1 := for_each target_dirs
                  (λ d s, dir_stats_item d ;;
                          for_os_walk d (prune_visit d false) s) []).
  rewrite (bind_state pass1), (bind_result pass1).
  destruct (prune_first_pass_yes target_dirs
              (permutations2_pairwise _ Hperm) [] st Hcl)
    as (Hcl1 & [Hsub1 _] & Hok1). fold pass1 in Hcl1, Hsub1, Hok1.
  destruct ((pass1 st).1) as [stack|x]; [|done].
  destruct (Hok1 stack eq_refl) as (new & -> & _ & Hpw & Hh). clear Hok1.
  simpl. intros Hrun Hdir Hfiles.
  destruct (retry_loop_yes (rev new)) with (st := (pass1 st).2)
    as (Hsub2 & _ & Hok2).
  { apply pairwise_rev in Hpw. exact Hpw. }
  destruct Hu as (t & Ht & Hpre).
  destruct (Hh t Ht q Hpre) as [Hin | (f & c & Hf)];
    [by eapply lookup_weaken | |].
  - apply list_elem_of_fmap in Hin as (x & -> & Hx).
    apply (Hok2 Hrun x); [|done].
    by apply list_elem_of_In, in_rev, list_elem_of_In in Hx.
  - exists f, (FileNode c). apply Hfiles. by eapply lookup_weaken.
Qed.

Lemma pruning_yes_leaves_no_empty_tree_witness :
  holds_file
    (fs (remove_empty_directories [["ro"]] false (start fs_ro_sub [])).2)
    ["ro"; "sub"].
Proof.
  apply (pruning_yes_leaves_no_empty_tree [["ro"]] (start fs_ro_sub [])
           ["ro"; "sub"]).
  - by apply closedb_closed.
  - vm_compute. constructor.
  - vm_compute. reflexivity.
  - exists ["ro"]. split; [by apply list_elem_of_singleton | by exists ["sub"]].
  - vm_compute. reflexivity.
Defined.

(** ** Skipping *)

(** X26.  While a skip is set, a directory at or below the skipped one
    is passed over without a change of state, and the first directory
    elsewhere is walked as if no skip were set (on a file system in which
    every entry lies in a directory, for paths that exist). *)
Theorem walk_visit_skips_the_tree_below d confirm wt root dirs files skip_dir
    st :
  closed (fs st) →
  is_Some (fs st !! root) → is_Some (fs st !! skip_dir) →
  walk_visit d confirm wt root dirs files (Some skip_dir) st =
    if bool_decide (skip_dir `prefix_of` root)
    then (Ok (Some skip_dir), st)
    else walk_visit d confirm wt root dirs files None st.
Proof.
  intros Hcl Hroot Hskip. unfold walk_visit. unfold bind at 1.
  rewrite is_same_or_subdir_closed by done.
  by case_bool_decide.
Qed.

Lemma walk_visit_skips_the_tree_below_witness :
  walk_visit ["ro"] true false ["ro"; "sub"] [] ["r2"] (Some ["ro"])
    st_read_only_walk
  = (Ok (Some ["ro"]), st_read_only_walk).
Proof.
  apply (walk_visit_skips_the_tree_below ["ro"] true false ["ro"; "sub"] []
           ["r2"] ["ro"] st_read_only_walk).
  - by apply closedb_closed.
  - by eexists.
  - by eexists.
Defined.

(** ** Instances of the earlier lemmas *)

Lemma prompt_loop_asks_again_witness :
  prompt_loop false ["t"; "t1"] ["maybe"; "n"] (start fs_ro_sub ["maybe"; "n"])
  = prompt_loop false ["t"; "t1"] ["n"]
      (add_event Hint
         (set_stdin ["n"]
            (add_event (Prompt ["t"; "t1"] false)
               (start fs_ro_sub ["maybe"; "n"])))).
Proof.
  apply (prompt_loop_asks_again false ["t"; "t1"] "m"%char "aybe" ["n"]
           (start fs_ro_sub ["maybe"; "n"])).
  - discriminate.
  - discriminate.
  - discriminate.
  - right. discriminate.
Defined.

Lemma get_extension_agrees_witness :
  get_extension "archive.tar.gz" = Some (spec_extension "archive.tar.gz").
Proof.
  apply (get_extension_agrees "archive.tar.gz").
  - discriminate.
  - reflexivity.
  - discriminate.
Defined.
